(** * The blocked SSE Trotter-Suzuki kernel (src/src/cpublocksse.cpp)

    A shallow embedding of [CPUBlockSSEKernel] and of the free functions it
    is built from, and the properties its specification states about them.

    Conventions of the embedding:
    - [float] values are elements of an arbitrary commutative ring (class
      [Scalar]); arithmetic is exact.  [Z] is an instance, used to evaluate
      the definitions on concrete tiles.
    - [size_t] values are integers of [Z].  Tiles that fit in memory keep
      sums and products of sizes far below 2^64, so the one operation that
      can leave the range is subtraction; its wrap-around is written out
      ([usub]).  The [size_t] loop counters of the band and block loops are
      advanced modulo 2^64 as well.
    - a [float *] is a [list] of scalars together with an offset; an access
      outside the list is undefined behaviour and is reported as [Fault].
    - loops whose counter is a [size_t] compared against a computed bound
      take fuel and report [Timeout] when it runs out. *)

From Stdlib Require Import ZArith Lia Ring.
From stdpp Require Import base list.

Open Scope Z_scope.

(** ** Scalars *)

Class Scalar (R : Type) := {
  s0 : R;
  s1 : R;
  sadd : R -> R -> R;
  smul : R -> R -> R;
  ssub : R -> R -> R;
  sopp : R -> R;
  scalar_ring : ring_theory s0 s1 sadd smul ssub sopp eq
}.

Notation "x [+] y" := (sadd x y) (at level 50, left associativity).
Notation "x [-] y" := (ssub x y) (at level 50, left associativity).
Notation "x [*] y" := (smul x y) (at level 40, left associativity).

#[export] Instance Z_scalar : Scalar Z :=
  {| s0 := 0; s1 := 1; sadd := Z.add; smul := Z.mul; ssub := Z.sub;
     sopp := Z.opp; scalar_ring := Zth |}.

(** ** Outcomes of a call *)

Inductive outcome (A : Type) : Type :=
  | Done (a : A)
  | Fault
  | Timeout.
Arguments Done {A} a.
Arguments Fault {A}.
Arguments Timeout {A}.

#[export] Instance outcome_ret : MRet outcome := fun _ a => Done a.
#[export] Instance outcome_bind : MBind outcome := fun _ _ f m =>
  match m with
  | Done a => f a
  | Fault => Fault
  | Timeout => Timeout
  end.

(** [foldM f l s]: run the body [f] once per element of [l], in order. *)
Fixpoint foldM {A S : Type} (f : A -> S -> outcome S) (l : list A) (s : S)
  : outcome S :=
  match l with
  | [] => Done s
  | x :: l' => s' ← f x s; foldM f l' s'
  end.

(** ** [size_t] arithmetic *)

Definition SIZE_MAX1 : Z := 2 ^ 64.

(** [x - y] on [size_t]. *)
Definition usub (x y : Z) : Z := (x - y) mod SIZE_MAX1.

(** [x += y] on [size_t]. *)
Definition uadd (x y : Z) : Z := (x + y) mod SIZE_MAX1.

(** The values taken by the counter of
    [for (c = lo; c < hi; c += step)], for an [int] counter that does not
    overflow. *)
Definition count_up (lo hi step : Z) : list Z :=
  map (fun k : nat => lo + step * Z.of_nat k)
      (seq 0 (Z.to_nat ((hi - lo + step - 1) / step))).

(** The value of that counter when the loop is left. *)
Definition count_end (lo hi step : Z) : Z :=
  lo + step * Z.of_nat (Z.to_nat ((hi - lo + step - 1) / step)).

(** [for (c = lo; c < bound; c += step) body] for a [size_t] counter:
    returns the final counter together with the state. *)
Fixpoint loop_size_t {S : Type} (fuel : nat) (c bound step : Z)
    (body : Z -> S -> outcome S) (s : S) : outcome (Z * S) :=
  match fuel with
  | O => Timeout
  | Datatypes.S fuel' =>
      if c <? bound
      then s' ← body c s; loop_size_t fuel' (uadd c step) bound step body s'
      else Done (c, s)
  end.

(** ** Buffers *)

Section Buffers.
Context {R : Type} {SR : Scalar R}.

Definition len (l : list R) : Z := Z.of_nat (length l).

(** The content of cell [k], and the list with cell [k] replaced; outside
    the list the first is [s0] and the second changes nothing. *)
Definition get (l : list R) (k : Z) : R :=
  if k <? 0 then s0 else nth (Z.to_nat k) l s0.

Definition set (l : list R) (k : Z) (v : R) : list R :=
  if k <? 0 then l else <[Z.to_nat k := v]> l.

Definition in_buf (l : list R) (k : Z) : bool := (0 <=? k) && (k <? len l).

(** [l[k]] as an rvalue. *)
Definition rd (l : list R) (k : Z) : outcome R :=
  if in_buf l k then Done (get l k) else Fault.

(** [l[k] = v]. *)
Definition wr (l : list R) (k : Z) (v : R) : outcome (list R) :=
  if in_buf l k then Done (set l k v) else Fault.

(** Memory whose content the source leaves indeterminate
    ([posix_memalign], automatic arrays): [n] cells holding [junk]. *)
Definition uninitialized (junk : R) (n : Z) : list R :=
  replicate (Z.to_nat n) junk.

(** *** SSE registers: four lanes *)

Definition m128 : Type := R * R * R * R.

Definition _mm_load1_ps (x : R) : m128 := (x, x, x, x).

Definition _mm_load_ps (l : list R) (k : Z) : outcome m128 :=
  x0 ← rd l k; x1 ← rd l (k + 1); x2 ← rd l (k + 2); x3 ← rd l (k + 3);
  Done (x0, x1, x2, x3).

Definition _mm_store_ps (l : list R) (k : Z) (v : m128) : outcome (list R) :=
  let '(x0, x1, x2, x3) := v in
  l ← wr l k x0; l ← wr l (k + 1) x1; l ← wr l (k + 2) x2; wr l (k + 3) x3.

(** The unaligned forms differ from the aligned ones in the alignment they
    require of the address only. *)
Definition _mm_loadu_ps := _mm_load_ps.
Definition _mm_storeu_ps := _mm_store_ps.

Definition _mm_mul_ps (x y : m128) : m128 :=
  let '(x0, x1, x2, x3) := x in let '(y0, y1, y2, y3) := y in
  (x0 [*] y0, x1 [*] y1, x2 [*] y2, x3 [*] y3).

Definition _mm_add_ps (x y : m128) : m128 :=
  let '(x0, x1, x2, x3) := x in let '(y0, y1, y2, y3) := y in
  (x0 [+] y0, x1 [+] y1, x2 [+] y2, x3 [+] y3).

Definition _mm_sub_ps (x y : m128) : m128 :=
  let '(x0, x1, x2, x3) := x in let '(y0, y1, y2, y3) := y in
  (x0 [-] y0, x1 [-] y1, x2 [-] y2, x3 [-] y3).

End Buffers.
Arguments m128 : clear implicits.

(** ** The elementary rotation passes *)

Section Passes.
Context {R : Type} {SR : Scalar R}.

(** The four arrays a pass works on, in the order of its parameters
    [r1], [i1], [r2], [i2].  All call sites pass four distinct arrays. *)
Definition planes4 : Type := list R * list R * list R * list R.

(** Body of the vectorised inner loops (lines 41-52 and 77-100). *)
Definition rotate_ps (a b : R) (idx1 idx2 : Z) (p : planes4)
  : outcome planes4 :=
  let '(r1, i1, r2, i2) := p in
  let aq := _mm_load1_ps a in
  let bq := _mm_load1_ps b in
  r1q ← _mm_load_ps r1 idx1;
  i1q ← _mm_load_ps i1 idx1;
  r2q ← _mm_load_ps r2 idx2;
  i2q ← _mm_load_ps i2 idx2;
  let next_r1q := _mm_sub_ps (_mm_mul_ps r1q aq) (_mm_mul_ps i2q bq) in
  let next_i1q := _mm_add_ps (_mm_mul_ps i1q aq) (_mm_mul_ps r2q bq) in
  let next_r2q := _mm_sub_ps (_mm_mul_ps r2q aq) (_mm_mul_ps i1q bq) in
  let next_i2q := _mm_add_ps (_mm_mul_ps i2q aq) (_mm_mul_ps r1q bq) in
  r1 ← _mm_store_ps r1 idx1 next_r1q;
  i1 ← _mm_store_ps i1 idx1 next_i1q;
  r2 ← _mm_store_ps r2 idx2 next_r2q;
  i2 ← _mm_store_ps i2 idx2 next_i2q;
  Done (r1, i1, r2, i2).

(** Body of the scalar remainder loops (lines 55-62 and 103-110). *)
Definition rotate_ss (a b : R) (idx1 idx2 : Z) (p : planes4)
  : outcome planes4 :=
  let '(r1, i1, r2, i2) := p in
  x_r1 ← rd r1 idx1;
  x_i1 ← rd i1 idx1;
  x_r2 ← rd r2 idx2;
  x_i2 ← rd i2 idx2;
  let next_r1 := a [*] x_r1 [-] b [*] x_i2 in
  let next_i1 := a [*] x_i1 [+] b [*] x_r2 in
  let next_r2 := a [*] x_r2 [-] b [*] x_i1 in
  let next_i2 := a [*] x_i2 [+] b [*] x_r1 in
  r1 ← wr r1 idx1 next_r1;
  i1 ← wr i1 idx1 next_i1;
  r2 ← wr r2 idx2 next_r2;
  i2 ← wr i2 idx2 next_i2;
  Done (r1, i1, r2, i2).

(** One row of a pass: the vector loop over [j < vec_bound], four columns
    at a time, then the scalar loop up to [row_bound].  [idx1] and [idx2]
    are the indices of column 0; both advance with [j]. *)
Definition rotate_row (a b : R) (idx1 idx2 vec_bound row_bound : Z)
    (p : planes4) : outcome planes4 :=
  p ← foldM (fun j => rotate_ps a b (idx1 + j) (idx2 + j))
            (count_up 0 vec_bound 4) p;
  foldM (fun j => rotate_ss a b (idx1 + j) (idx2 + j))
        (count_up (count_end 0 vec_bound 4) row_bound 1) p.

(** [update_shifty_sse<offset_y>] (lines 30-65). *)
Definition update_shifty_sse (offset_y : Z) (stride width height : Z)
    (a b : R) (p : planes4) : outcome planes4 :=
  foldM (fun i =>
           let idx1 := i * stride in
           let idx2 := (i + offset_y) * stride in
           rotate_row a b idx1 idx2 (width - width mod 4) width)
        (count_up 0 (usub height offset_y) 1) p.

(** [update_shiftx_sse<offset_x>] (lines 67-113). *)
Definition update_shiftx_sse (offset_x : Z) (stride width height : Z)
    (a b : R) (p : planes4) : outcome planes4 :=
  foldM (fun i =>
           let idx1 := i * stride in
           let idx2 := i * stride + offset_x in
           rotate_row a b idx1 idx2
             (usub width offset_x - usub width offset_x mod 4)
             (usub width offset_x))
        (count_up 0 height 1) p.

End Passes.
Arguments planes4 : clear implicits.

(** ** The full step on one block *)

Section Kernel.
Context {R : Type} {SR : Scalar R}.

(** The eight planes of one generation (or of the scratch block): real and
    imaginary part of the four parity quadrants. *)
Record quadrants : Type := Quadrants {
  r00 : list R; r01 : list R; r10 : list R; r11 : list R;
  i00 : list R; i01 : list R; i10 : list R; i11 : list R
}.

(** [full_step_sse] (lines 115-140). *)
Definition full_step_sse (stride width height : Z) (a b : R) (q : quadrants)
  : outcome quadrants :=
  let '(Quadrants r00 r01 r10 r11 i00 i01 i10 i11) := q in
  (* 1 *)
  '(r00, i00, r10, i10) ← update_shifty_sse 0 stride width height a b (r00, i00, r10, i10);
  '(r11, i11, r01, i01) ← update_shifty_sse 1 stride width height a b (r11, i11, r01, i01);
  (* 2 *)
  '(r00, i00, r01, i01) ← update_shiftx_sse 0 stride width height a b (r00, i00, r01, i01);
  '(r11, i11, r10, i10) ← update_shiftx_sse 1 stride width height a b (r11, i11, r10, i10);
  (* 3 *)
  '(r01, i01, r11, i11) ← update_shifty_sse 0 stride width height a b (r01, i01, r11, i11);
  '(r10, i10, r00, i00) ← update_shifty_sse 1 stride width height a b (r10, i10, r00, i00);
  (* 4 *)
  '(r10, i10, r11, i11) ← update_shiftx_sse 0 stride width height a b (r10, i10, r11, i11);
  '(r01, i01, r00, i00) ← update_shiftx_sse 1 stride width height a b (r01, i01, r00, i00);
  (* 4 *)
  '(r10, i10, r11, i11) ← update_shiftx_sse 0 stride width height a b (r10, i10, r11, i11);
  '(r01, i01, r00, i00) ← update_shiftx_sse 1 stride width height a b (r01, i01, r00, i00);
  (* 3 *)
  '(r01, i01, r11, i11) ← update_shifty_sse 0 stride width height a b (r01, i01, r11, i11);
  '(r10, i10, r00, i00) ← update_shifty_sse 1 stride width height a b (r10, i10, r00, i00);
  (* 2 *)
  '(r00, i00, r01, i01) ← update_shiftx_sse 0 stride width height a b (r00, i00, r01, i01);
  '(r11, i11, r10, i10) ← update_shiftx_sse 1 stride width height a b (r11, i11, r10, i10);
  (* 1 *)
  '(r00, i00, r10, i10) ← update_shifty_sse 0 stride width height a b (r00, i00, r10, i10);
  '(r11, i11, r01, i01) ← update_shifty_sse 1 stride width height a b (r11, i11, r01, i01);
  Done (Quadrants r00 r01 r10 r11 i00 i01 i10 i11).

(** *** The calls of [full_step_sse] as data *)

Inductive axis : Type := ShiftY | ShiftX.
Inductive quadrant : Type := Q00 | Q01 | Q10 | Q11.

(** One call [update_shift?_sse<offset>(..., r<q1>, i<q1>, r<q2>, i<q2>)]. *)
Record pass_call : Type := PassCall {
  pc_axis : axis; pc_offset : Z; pc_first : quadrant; pc_second : quadrant
}.

Definition real_plane (c : quadrant) (q : quadrants) : list R :=
  match c with Q00 => r00 q | Q01 => r01 q | Q10 => r10 q | Q11 => r11 q end.

Definition imag_plane (c : quadrant) (q : quadrants) : list R :=
  match c with Q00 => i00 q | Q01 => i01 q | Q10 => i10 q | Q11 => i11 q end.

Definition set_planes (c : quadrant) (re im : list R) (q : quadrants)
  : quadrants :=
  let '(Quadrants r00 r01 r10 r11 i00 i01 i10 i11) := q in
  match c with
  | Q00 => Quadrants re r01 r10 r11 im i01 i10 i11
  | Q01 => Quadrants r00 re r10 r11 i00 im i10 i11
  | Q10 => Quadrants r00 r01 re r11 i00 i01 im i11
  | Q11 => Quadrants r00 r01 r10 re i00 i01 i10 im
  end.

Definition run_pass (stride width height : Z) (a b : R) (c : pass_call)
    (q : quadrants) : outcome quadrants :=
  let p := (real_plane (pc_first c) q, imag_plane (pc_first c) q,
            real_plane (pc_second c) q, imag_plane (pc_second c) q) in
  '(r1, i1, r2, i2) ←
     match pc_axis c with
     | ShiftY => update_shifty_sse (pc_offset c) stride width height a b p
     | ShiftX => update_shiftx_sse (pc_offset c) stride width height a b p
     end;
  Done (set_planes (pc_second c) r2 i2 (set_planes (pc_first c) r1 i1 q)).

(** The four numbered sub-steps of the source, two calls each. *)
Definition substep1 : list pass_call :=
  [PassCall ShiftY 0 Q00 Q10; PassCall ShiftY 1 Q11 Q01].
Definition substep2 : list pass_call :=
  [PassCall ShiftX 0 Q00 Q01; PassCall ShiftX 1 Q11 Q10].
Definition substep3 : list pass_call :=
  [PassCall ShiftY 0 Q01 Q11; PassCall ShiftY 1 Q10 Q00].
Definition substep4 : list pass_call :=
  [PassCall ShiftX 0 Q10 Q11; PassCall ShiftX 1 Q01 Q00].

(** The sub-steps in the order of the source: 1 2 3 4 4 3 2 1. *)
Definition full_step_substeps : list (list pass_call) :=
  [substep1; substep2; substep3; substep4;
   substep4; substep3; substep2; substep1].

(** The sixteen calls in the order of the source. *)
Definition full_step_calls : list pass_call := concat full_step_substeps.

(** ** Block tiling *)

Definition sizeof_float : Z := 4.

(** Modelled from the spec: [memcpy2D] of common.h, which is not among the
    sources.  It copies [height] rows of [width] bytes; consecutive rows are
    [dstride] and [sstride] bytes apart.  Destination and source are float
    arrays entered at element [dst_idx] and [src_idx]; all byte counts at
    the call sites are multiples of [sizeof(float)]. *)
Definition memcpy2D (dst : list R) (dst_idx dstride : Z)
    (src : list R) (src_idx sstride : Z) (width height : Z)
  : outcome (list R) :=
  foldM (fun i =>
           foldM (fun j dst =>
                    v ← rd src (src_idx + i * (sstride / sizeof_float) + j);
                    wr dst (dst_idx + i * (dstride / sizeof_float) + j) v)
                 (count_up 0 (width / sizeof_float) 1))
        (count_up 0 height 1) dst.

(** The region of a plane of the next generation that one group of eight
    [memcpy2D] calls writes: first element, row stride, width and height,
    all in floats. *)
Record footprint : Type := Footprint {
  fp_idx : Z; fp_stride : Z; fp_width : Z; fp_height : Z
}.

(** The planes being written, with the record of what was written. *)
Definition target : Type := quadrants * list footprint.

(** Eight [memcpy2D] calls that fill the scratch block from the planes [q]. *)
Definition read_block (block : quadrants) (block_stride : Z) (q : quadrants)
    (read_idx matrix_stride read_width rows : Z) : outcome quadrants :=
  b_r00 ← memcpy2D (r00 block) 0 block_stride (r00 q) read_idx matrix_stride read_width rows;
  b_i00 ← memcpy2D (i00 block) 0 block_stride (i00 q) read_idx matrix_stride read_width rows;
  b_r01 ← memcpy2D (r01 block) 0 block_stride (r01 q) read_idx matrix_stride read_width rows;
  b_i01 ← memcpy2D (i01 block) 0 block_stride (i01 q) read_idx matrix_stride read_width rows;
  b_r10 ← memcpy2D (r10 block) 0 block_stride (r10 q) read_idx matrix_stride read_width rows;
  b_i10 ← memcpy2D (i10 block) 0 block_stride (i10 q) read_idx matrix_stride read_width rows;
  b_r11 ← memcpy2D (r11 block) 0 block_stride (r11 q) read_idx matrix_stride read_width rows;
  b_i11 ← memcpy2D (i11 block) 0 block_stride (i11 q) read_idx matrix_stride read_width rows;
  Done (Quadrants b_r00 b_r01 b_r10 b_r11 b_i00 b_i01 b_i10 b_i11).

(** Eight [memcpy2D] calls that copy a part of the scratch block into the
    planes of the next generation. *)
Definition write_block (next : target) (write_idx matrix_stride : Z)
    (block : quadrants) (block_read_idx block_stride write_width rows : Z)
  : outcome target :=
  let '(n, log) := next in
  n_r00 ← memcpy2D (r00 n) write_idx matrix_stride (r00 block) block_read_idx block_stride write_width rows;
  n_i00 ← memcpy2D (i00 n) write_idx matrix_stride (i00 block) block_read_idx block_stride write_width rows;
  n_r01 ← memcpy2D (r01 n) write_idx matrix_stride (r01 block) block_read_idx block_stride write_width rows;
  n_i01 ← memcpy2D (i01 n) write_idx matrix_stride (i01 block) block_read_idx block_stride write_width rows;
  n_r10 ← memcpy2D (r10 n) write_idx matrix_stride (r10 block) block_read_idx block_stride write_width rows;
  n_i10 ← memcpy2D (i10 n) write_idx matrix_stride (i10 block) block_read_idx block_stride write_width rows;
  n_r11 ← memcpy2D (r11 n) write_idx matrix_stride (r11 block) block_read_idx block_stride write_width rows;
  n_i11 ← memcpy2D (i11 n) write_idx matrix_stride (i11 block) block_read_idx block_stride write_width rows;
  Done (Quadrants n_r00 n_r01 n_r10 n_r11 n_i00 n_i01 n_i10 n_i11,
        log ++ [Footprint write_idx (matrix_stride / sizeof_float)
                          (write_width / sizeof_float) rows]).

(** [process_sides_sse] (lines 142-204): the first and the last block of a
    band.  The scratch block is shared with the caller. *)
Definition process_sides_sse
    (read_y read_height write_offset write_height : Z)
    (block_width block_height tile_width halo_x : Z) (a b : R)
    (q : quadrants) (next : target) (block : quadrants)
  : outcome (quadrants * target) :=
  let block_stride := (block_width / 2) * sizeof_float in
  let matrix_stride := (tile_width / 2) * sizeof_float in
  (* First block [0..block_width - halo_x] *)
  let read_idx := (read_y / 2) * (tile_width / 2) in
  let read_width := (block_width / 2) * sizeof_float in
  block ← read_block block block_stride q read_idx matrix_stride read_width (read_height / 2);
  block ← full_step_sse (block_width / 2) (block_width / 2) (read_height / 2) a b block;
  let block_read_idx := (write_offset / 2) * (block_width / 2) in
  let write_idx := (read_y / 2 + write_offset / 2) * (tile_width / 2) in
  let write_width := (usub block_width halo_x / 2) * sizeof_float in
  next ← write_block next write_idx matrix_stride block block_read_idx block_stride write_width (write_height / 2);
  (* Last block *)
  let block_start :=
    (usub tile_width block_width / usub block_width (2 * halo_x) + 1)
    * usub block_width (2 * halo_x) in
  let read_idx := (read_y / 2) * (tile_width / 2) + block_start / 2 in
  let read_width := usub (tile_width / 2) (block_start / 2) * sizeof_float in
  block ← read_block block block_stride q read_idx matrix_stride read_width (read_height / 2);
  block ← full_step_sse (block_width / 2) (usub (tile_width / 2) (block_start / 2)) (read_height / 2) a b block;
  let block_read_idx := (write_offset / 2) * (block_width / 2) + halo_x / 2 in
  let write_idx := (read_y / 2 + write_offset / 2) * (tile_width / 2) + (block_start + halo_x) / 2 in
  let write_width := usub (usub (tile_width / 2) (block_start / 2)) (halo_x / 2) * sizeof_float in
  next ← write_block next write_idx matrix_stride block block_read_idx block_stride write_width (write_height / 2);
  Done (block, next).

(** [process_band_sse] (lines 206-288).  [junk] is the content of the
    automatic scratch arrays on entry. *)
Definition process_band_sse (junk : R) (fuel : nat)
    (read_y read_height write_offset write_height : Z)
    (block_width block_height tile_width halo_x : Z) (a b : R)
    (q : quadrants) (next : target) (inner sides : bool)
  : outcome target :=
  let scratch := uninitialized junk ((block_height / 2) * (block_width / 2)) in
  let block := Quadrants scratch scratch scratch scratch
                         scratch scratch scratch scratch in
  let block_stride := (block_width / 2) * sizeof_float in
  let matrix_stride := (tile_width / 2) * sizeof_float in
  if tile_width <=? block_width then
    if sides then
      (* One full block *)
      let read_idx := (read_y / 2) * (tile_width / 2) in
      let read_width := (tile_width / 2) * sizeof_float in
      block ← read_block block block_stride q read_idx matrix_stride read_width (read_height / 2);
      block ← full_step_sse (block_width / 2) (tile_width / 2) (read_height / 2) a b block;
      let block_read_idx := (write_offset / 2) * (block_width / 2) in
      let write_idx := (read_y / 2 + write_offset / 2) * (tile_width / 2) in
      let write_width := read_width in
      write_block next write_idx matrix_stride block block_read_idx block_stride write_width (write_height / 2)
    else Done next
  else
    '(block, next) ←
       (if sides
        then process_sides_sse read_y read_height write_offset write_height
               block_width block_height tile_width halo_x a b q next block
        else Done (block, next));
    if inner then
      (* Regular blocks in the middle *)
      let read_width := (block_width / 2) * sizeof_float in
      let block_read_idx := (write_offset / 2) * (block_width / 2) + halo_x / 2 in
      let write_width := (usub block_width (2 * halo_x) / 2) * sizeof_float in
      '(_, (_, next)) ←
         loop_size_t fuel (usub block_width (2 * halo_x))
           (usub tile_width block_width) (usub block_width (2 * halo_x))
           (fun block_start '(block, next) =>
              let read_idx := (read_y / 2) * (tile_width / 2) + block_start / 2 in
              block ← read_block block block_stride q read_idx matrix_stride read_width (read_height / 2);
              block ← full_step_sse (block_width / 2) (block_width / 2) (read_height / 2) a b block;
              let write_idx := (read_y / 2 + write_offset / 2) * (tile_width / 2) + (block_start + halo_x) / 2 in
              next ← write_block next write_idx matrix_stride block block_read_idx block_stride write_width (write_height / 2);
              Done (block, next))
           (block, next);
      Done next
    else Done next.

End Kernel.
Arguments quadrants : clear implicits.
Arguments target : clear implicits.

(** ** The kernel object *)

Definition BLOCK_WIDTH : Z := 128.
Definition BLOCK_HEIGHT : Z := 128.

(** *** MPI calls *)

(** Indices into [neighbors] (kernel.h). *)
Inductive direction : Type := UP | DOWN | LEFT | RIGHT.

(** The two derived datatypes committed by [initialize_MPI]. *)
Inductive border : Type := verticalBorder | horizontalBorder.

Inductive part : Type := Re | Im.

(** A non-blocking transfer of one [border] starting at [offset] of the
    plane [(part, quadrant)] of generation [gen], with its peer, tag and
    the slot of [req] that receives the request handle. *)
Record transfer : Type := Transfer {
  tr_gen : bool; tr_part : part; tr_quadrant : quadrant; tr_offset : Z;
  tr_count : Z; tr_datatype : border; tr_peer : direction; tr_tag : Z;
  tr_request : Z
}.

Inductive mpi_call : Type :=
  | MPI_Irecv (t : transfer)
  | MPI_Isend (t : transfer)
  | MPI_Waitall (count : Z).

Section KernelObject.
Context {R : Type} {SR : Scalar R}.

(** The data members of [CPUBlockSSEKernel].  The class declaration
    (cpublocksse.h) is not among the sources: the members are those the
    member functions use, with [size_t] sizes as in the sibling class
    [CPUBlock] of kernel.h.  [r00[s]] ... [i11[s]] are the planes of
    [generation s].  [block_width] and [block_height] are the class
    constants initialised from [BLOCK_WIDTH] and [BLOCK_HEIGHT]; they are
    fields so that other block sizes can be stated.  Two fields have no
    counterpart in the class: [junk], the content of indeterminate memory,
    and [written], the regions of next-generation planes written so far. *)
Record kernel : Type := Kernel {
  p_real : list R;
  p_imag : list R;
  a : R;
  b : R;
  tile_width : Z;
  tile_height : Z;
  halo_x : Z;
  halo_y : Z;
  sense : bool;
  gen0 : quadrants R;
  gen1 : quadrants R;
  block_width : Z;
  block_height : Z;
  start_x : Z;
  inner_end_x : Z;
  start_y : Z;
  inner_start_y : Z;
  inner_end_y : Z;
  junk : R;
  written : list footprint
}.

(** [r00[s]], ..., [i11[s]]. *)
Definition generation (k : kernel) (s : bool) : quadrants R :=
  if s then gen1 k else gen0 k.

(** Store the planes of generation [s] and the record of writes. *)
Definition set_generation (k : kernel) (s : bool) (t : target R) : kernel :=
  let '(q, log) := t in
  Kernel (p_real k) (p_imag k) (a k) (b k) (tile_width k) (tile_height k)
    (halo_x k) (halo_y k) (sense k)
    (if s then gen0 k else q) (if s then q else gen1 k)
    (block_width k) (block_height k)
    (start_x k) (inner_end_x k) (start_y k) (inner_start_y k) (inner_end_y k)
    (junk k) log.

Definition set_sense (k : kernel) (s : bool) : kernel :=
  Kernel (p_real k) (p_imag k) (a k) (b k) (tile_width k) (tile_height k)
    (halo_x k) (halo_y k) s (gen0 k) (gen1 k)
    (block_width k) (block_height k)
    (start_x k) (inner_end_x k) (start_y k) (inner_start_y k) (inner_end_y k)
    (junk k) (written k).

(** The same kernel compiled with another block size. *)
Definition with_block_size (bw bh : Z) (k : kernel) : kernel :=
  Kernel (p_real k) (p_imag k) (a k) (b k) (tile_width k) (tile_height k)
    (halo_x k) (halo_y k) (sense k) (gen0 k) (gen1 k) bw bh
    (start_x k) (inner_end_x k) (start_y k) (inner_start_y k) (inner_end_y k)
    (junk k) (written k).

(** The constructor (lines 290-334).  A failed [assert] ends the program
    and is reported as [Fault].  [fill] is the content of the memory that
    [posix_memalign] returns. *)
Definition CPUBlockSSEKernel (fill : R) (_p_real _p_imag : list R)
    (_a _b : R) (_tile_width _tile_height _halo_x _halo_y : Z)
  : outcome kernel :=
  let tile_width := _tile_width in
  let tile_height := _tile_height in
  if negb (tile_width mod 2 =? 0) then Fault else
  if negb (tile_height mod 2 =? 0) then Fault else
  let fresh := uninitialized fill ((tile_width * tile_height) / 4) in
  let q0 := Quadrants fresh fresh fresh fresh fresh fresh fresh fresh in
  let q1 := Quadrants fresh fresh fresh fresh fresh fresh fresh fresh in
  q0 ← foldM (fun i q =>
         q ← foldM (fun j q =>
                let '(Quadrants r00 r01 r10 r11 i00 i01 i10 i11) := q in
                v ← rd _p_real (2 * i * tile_width + 2 * j);
                r00 ← wr r00 (i * tile_width / 2 + j) v;
                v ← rd _p_imag (2 * i * tile_width + 2 * j);
                i00 ← wr i00 (i * tile_width / 2 + j) v;
                v ← rd _p_real (2 * i * tile_width + 2 * j + 1);
                r01 ← wr r01 (i * tile_width / 2 + j) v;
                v ← rd _p_imag (2 * i * tile_width + 2 * j + 1);
                i01 ← wr i01 (i * tile_width / 2 + j) v;
                Done (Quadrants r00 r01 r10 r11 i00 i01 i10 i11))
              (count_up 0 (tile_width / 2) 1) q;
         foldM (fun j q =>
                let '(Quadrants r00 r01 r10 r11 i00 i01 i10 i11) := q in
                v ← rd _p_real ((2 * i + 1) * tile_width + 2 * j);
                r10 ← wr r10 (i * tile_width / 2 + j) v;
                v ← rd _p_imag ((2 * i + 1) * tile_width + 2 * j);
                i10 ← wr i10 (i * tile_width / 2 + j) v;
                v ← rd _p_real ((2 * i + 1) * tile_width + 2 * j + 1);
                r11 ← wr r11 (i * tile_width / 2 + j) v;
                v ← rd _p_imag ((2 * i + 1) * tile_width + 2 * j + 1);
                i11 ← wr i11 (i * tile_width / 2 + j) v;
                Done (Quadrants r00 r01 r10 r11 i00 i01 i10 i11))
              (count_up 0 (tile_width / 2) 1) q)
        (count_up 0 (tile_height / 2) 1) q0;
  Done (Kernel _p_real _p_imag _a _b _tile_width _tile_height _halo_x _halo_y
          false q0 q1 BLOCK_WIDTH BLOCK_HEIGHT 0 0 0 0 0 fill []).

(** One call of [process_band_sse] as the member functions make it: from
    the planes of generation [sense] into those of generation [1-sense]. *)
Definition band (k : kernel) (fuel : nat)
    (read_y read_height write_offset write_height : Z) (inner sides : bool)
    (next : target R) : outcome (target R) :=
  process_band_sse (junk k) fuel read_y read_height write_offset write_height
    (block_width k) (block_height k) (tile_width k) (halo_x k) (a k) (b k)
    (generation k (sense k)) next inner sides.

(** [run_kernel_on_halo] (lines 357-381).  The macro [BLOCK_HEIGHT] is the
    value of the class constant [block_height]. *)
Definition run_kernel_on_halo (fuel : nat) (k : kernel) : outcome kernel :=
  let BLOCK_HEIGHT := block_height k in
  let next := (generation k (negb (sense k)), written k) in
  next ←
    (if tile_height k <=? BLOCK_HEIGHT then
       (* One full band *)
       band k fuel 0 (tile_height k) 0 (tile_height k) true true next
     else
       (* Sides *)
       '(block_start, next) ←
          loop_size_t fuel (usub BLOCK_HEIGHT (2 * halo_y k))
            (usub (tile_height k) BLOCK_HEIGHT)
            (usub BLOCK_HEIGHT (2 * halo_y k))
            (fun block_start =>
               band k fuel block_start (block_height k) (halo_y k)
                 (usub (block_height k) (2 * halo_y k)) false true)
            next;
       (* First band *)
       next ← band k fuel 0 (block_height k) 0
                (usub (block_height k) (halo_y k)) true true next;
       (* Last band *)
       band k fuel block_start (usub (tile_height k) block_start) (halo_y k)
         (usub (usub (tile_height k) block_start) (halo_y k)) true true next);
  Done (set_generation k (negb (sense k)) next).

(** [run_kernel] (lines 383-389). *)
Definition run_kernel (fuel : nat) (k : kernel) : outcome kernel :=
  let next := (generation k (negb (sense k)), written k) in
  '(_, next) ←
     loop_size_t fuel (usub (block_height k) (2 * halo_y k))
       (usub (tile_height k) (block_height k))
       (usub (block_height k) (2 * halo_y k))
       (fun block_start =>
          band k fuel block_start (block_height k) (halo_y k)
            (usub (block_height k) (2 * halo_y k)) true false)
       next;
  let k := set_generation k (negb (sense k)) next in
  Done (set_sense k (negb (sense k))).

(** [wait_for_completion] (lines 392-393): the body is empty. *)
Definition wait_for_completion (k : kernel) : kernel := k.

(** Modelled from the spec: [get_quadrant_sample] of common.h, which is not
    among the sources.  It de-interleaves the quadrant planes into the
    row-major destinations: the site in row [y + j] and column [x + i] of
    the tile is element [((y + j) / 2) * src_stride + (x + i) / 2] of the
    quadrant of parities [(y + j) mod 2] and [(x + i) mod 2]
    ([p[2i+di][2j+dj] = quadrant[di][dj][i][j]]), and goes to element
    [j * dest_stride + i] of the destination. *)
Definition get_quadrant_sample (q : quadrants R)
    (src_stride dest_stride x y width height : Z)
    (dest_real dest_imag : list R) : outcome (list R * list R) :=
  foldM (fun j =>
     foldM (fun i '(dest_real, dest_imag) =>
        let c := match (y + j) mod 2 =? 0, (x + i) mod 2 =? 0 with
                 | true, true => Q00 | true, false => Q01
                 | false, true => Q10 | false, false => Q11
                 end in
        let src := ((y + j) / 2) * src_stride + (x + i) / 2 in
        v ← rd (real_plane c q) src;
        dest_real ← wr dest_real (j * dest_stride + i) v;
        v ← rd (imag_plane c q) src;
        dest_imag ← wr dest_imag (j * dest_stride + i) v;
        Done (dest_real, dest_imag))
       (count_up 0 width 1))
    (count_up 0 height 1) (dest_real, dest_imag).

(** [get_sample] (lines 396-398). *)
Definition get_sample (k : kernel) (dest_stride x y width height : Z)
    (dest_real dest_imag : list R) : outcome (list R * list R) :=
  get_quadrant_sample (generation k (sense k)) (tile_width k / 2)
    dest_stride x y width height dest_real dest_imag.

(** [initialize_MPI] (lines 400-425), as far as the kernel's own members
    are concerned. *)
Definition initialize_MPI (k : kernel)
    (_start_x _inner_end_x _start_y _inner_start_y _inner_end_y : Z)
  : kernel :=
  Kernel (p_real k) (p_imag k) (a k) (b k) (tile_width k) (tile_height k)
    (halo_x k) (halo_y k) (sense k) (gen0 k) (gen1 k)
    (block_width k) (block_height k)
    _start_x _inner_end_x _start_y _inner_start_y _inner_end_y
    (junk k) (written k).

(** Eight calls, one per plane, in the order of the source: r00, r01, r10,
    r11, i00, i01, i10, i11; tags and request slots count up from [tag0]
    and [req0]. *)
Definition eight (call : transfer -> mpi_call) (gen : bool) (offset : Z)
    (datatype : border) (peer : direction) (tag0 req0 : Z) : list mpi_call :=
  [ call (Transfer gen Re Q00 offset 1 datatype peer (tag0 + 0) (req0 + 0));
    call (Transfer gen Re Q01 offset 1 datatype peer (tag0 + 1) (req0 + 1));
    call (Transfer gen Re Q10 offset 1 datatype peer (tag0 + 2) (req0 + 2));
    call (Transfer gen Re Q11 offset 1 datatype peer (tag0 + 3) (req0 + 3));
    call (Transfer gen Im Q00 offset 1 datatype peer (tag0 + 4) (req0 + 4));
    call (Transfer gen Im Q01 offset 1 datatype peer (tag0 + 5) (req0 + 5));
    call (Transfer gen Im Q10 offset 1 datatype peer (tag0 + 6) (req0 + 6));
    call (Transfer gen Im Q11 offset 1 datatype peer (tag0 + 7) (req0 + 7)) ].

(** [start_halo_exchange] (lines 427-466): the MPI calls it makes, in
    order. *)
Definition start_halo_exchange (k : kernel) : list mpi_call :=
  (* Halo exchange: LEFT/RIGHT *)
  let s := negb (sense k) in
  let offset := (inner_start_y k - start_y k) * tile_width k / 4 in
  eight MPI_Irecv s offset verticalBorder LEFT 0 0 ++
  let offset := (inner_start_y k - start_y k) * tile_width k / 4
                + (inner_end_x k - start_x k) / 2 in
  eight MPI_Irecv s offset verticalBorder RIGHT 8 8 ++
  let offset := (inner_start_y k - start_y k) * tile_width k / 4
                + (inner_end_x k - halo_x k - start_x k) / 2 in
  eight MPI_Isend s offset verticalBorder RIGHT 0 16 ++
  let offset := (inner_start_y k - start_y k) * tile_width k / 4
                + halo_x k / 2 in
  eight MPI_Isend s offset verticalBorder LEFT 8 24.

(** [finish_halo_exchange] (lines 468-513): the MPI calls it makes, in
    order. *)
Definition finish_halo_exchange (k : kernel) : list mpi_call :=
  [MPI_Waitall 32] ++
  (* Halo exchange: UP/DOWN *)
  let s := sense k in
  let offset := 0 in
  eight MPI_Irecv s offset horizontalBorder UP 0 0 ++
  let offset := (inner_end_y k - start_y k) * tile_width k / 4 in
  eight MPI_Irecv s offset horizontalBorder DOWN 8 8 ++
  let offset := (inner_end_y k - halo_y k - start_y k) * tile_width k / 4 in
  eight MPI_Isend s offset horizontalBorder DOWN 0 16 ++
  let offset := halo_y k * tile_width k / 4 in
  eight MPI_Isend s offset horizontalBorder UP 8 24 ++
  [MPI_Waitall 32].

End KernelObject.

(** * Specifications *)

Section PassSpec.
Context {R : Type} {SR : Scalar R}.

(** The elementary rotation of the pair [(x1, y1)]-[(x2, y2)]:
    real and imaginary part of the first site, then of the second. *)
Definition rotation (a b x1 y1 x2 y2 : R) : R * R * R * R :=
  (a [*] x1 [-] b [*] y2, a [*] y1 [+] b [*] x2,
   a [*] x2 [-] b [*] y1, a [*] y2 [+] b [*] x1).

(** Index pairs [(k1, k2)] that [update_shifty_sse<offset_y>] pairs: row
    [i] of the first two arrays with row [i + offset_y] of the other two. *)
Definition paired_y (offset_y stride width height : Z) (k1 k2 : Z) : Prop :=
  exists i j, 0 <= i < height - offset_y /\ 0 <= j < width /\
              k1 = i * stride + j /\ k2 = (i + offset_y) * stride + j.

(** Index pairs that [update_shiftx_sse<offset_x>] pairs: column [j] of the
    first two arrays with column [j + offset_x] of the other two. *)
Definition paired_x (offset_x stride width height : Z) (k1 k2 : Z) : Prop :=
  exists i j, 0 <= i < height /\ 0 <= j < width - offset_x /\
              k1 = i * stride + j /\ k2 = i * stride + j + offset_x.

(** [p'] is [p] with every pair of [P] rotated once, from the values in
    [p], and nothing else changed. *)
Definition rotated (a b : R) (P : Z -> Z -> Prop) (p p' : planes4 R) : Prop :=
  let '(r1, i1, r2, i2) := p in
  let '(r1', i1', r2', i2') := p' in
  (len r1' = len r1 /\ len i1' = len i1 /\ len r2' = len r2 /\ len i2' = len i2)
  /\ (forall k1 k2, P k1 k2 ->
        (get r1' k1, get i1' k1, get r2' k2, get i2' k2) =
        rotation a b (get r1 k1) (get i1 k1) (get r2 k2) (get i2 k2))
  /\ (forall k, (forall k2, ~ P k k2) ->
        get r1' k = get r1 k /\ get i1' k = get i1 k)
  /\ (forall k, (forall k1, ~ P k1 k) ->
        get r2' k = get r2 k /\ get i2' k = get i2 k).

(** All indices of the pairs of [P] lie inside the four arrays. *)
Definition pairs_in_bounds (P : Z -> Z -> Prop) (p : planes4 R) : Prop :=
  let '(r1, i1, r2, i2) := p in
  forall k1 k2, P k1 k2 ->
    0 <= k1 < len r1 /\ 0 <= k1 < len i1 /\ 0 <= k2 < len r2 /\ 0 <= k2 < len i2.

End PassSpec.

(** [P] and one more pair. *)
Definition add_pair (P : Z -> Z -> Prop) (k1 k2 : Z) : Z -> Z -> Prop :=
  fun x y => P x y \/ (x = k1 /\ y = k2).

(** The pairs [(idx1 + j, idx2 + j)] for [0 <= j < n]. *)
Definition row_pairs (idx1 idx2 n : Z) : Z -> Z -> Prop :=
  fun x y => exists j, 0 <= j < n /\ x = idx1 + j /\ y = idx2 + j.

Definition union_pairs (P Q : Z -> Z -> Prop) : Z -> Z -> Prop :=
  fun x y => P x y \/ Q x y.

(** No pair of [P] shares an index with a pair of [Q]. *)
Definition disjoint_pairs (P Q : Z -> Z -> Prop) : Prop :=
  forall x y x' y', P x y -> Q x' y' -> x <> x' /\ y <> y'.

(** The first [i] is paired with at most one second index, and conversely. *)
Definition one_to_one (P : Z -> Z -> Prop) : Prop :=
  forall k1 k2 k1' k2', P k1 k2 -> P k1' k2' -> (k1 = k1' <-> k2 = k2').

Section FullStepSpec.
Context {R : Type} {SR : Scalar R}.

(** The eight calls of the first half of [full_step_sse]. *)
Definition forward_calls : list pass_call :=
  substep1 ++ substep2 ++ substep3 ++ substep4.

(** The quadrants a call reads and writes. *)
Definition call_quadrants (c : pass_call) : list quadrant :=
  [pc_first c; pc_second c].

#[export] Instance quadrant_eq_dec : EqDecision quadrant.
Proof. solve_decision. Defined.

Definition quadrant_eqb (x y : quadrant) : bool :=
  match x, y with
  | Q00, Q00 | Q01, Q01 | Q10, Q10 | Q11, Q11 => true
  | _, _ => false
  end.

(** Two calls, each on two different quadrants, that share no quadrant. *)
Definition independent_calls (c d : pass_call) : bool :=
  negb (quadrant_eqb (pc_first c) (pc_second c))
  && negb (quadrant_eqb (pc_first d) (pc_second d))
  && forallb (fun x => forallb (fun y => negb (quadrant_eqb x y)) (call_quadrants d))
             (call_quadrants c).

End FullStepSpec.

(** Both pairings at once: site [(i, j)] of the first two arrays with site
    [(i + di, j + dj)] of the other two, for [i < rows] and [j < cols]. *)
Definition paired_at (di dj stride rows cols : Z) (k1 k2 : Z) : Prop :=
  exists i j, 0 <= i < rows /\ 0 <= j < cols /\
              k1 = i * stride + j /\ k2 = (i + di) * stride + (j + dj).

(** Every index is the first of some pair or of none, and likewise for the
    second index. *)
Definition pairing_decided (P : Z -> Z -> Prop) : Prop :=
  (forall k, (exists k2, P k k2) \/ (forall k2, ~ P k k2)) /\
  (forall k, (exists k1, P k1 k) \/ (forall k1, ~ P k1 k)).

Section FitSpec.
Context {R : Type} {SR : Scalar R}.

(** The four arrays hold [height] rows of [stride] cells each. *)
Definition planes_fit (stride height : Z) (p : planes4 R) : Prop :=
  let '(r1, i1, r2, i2) := p in
  height * stride <= len r1 /\ height * stride <= len i1 /\
  height * stride <= len r2 /\ height * stride <= len i2.

End FitSpec.

(** * Specifications of the kernel object *)

Section KernelSpec.
Context {R : Type} {SR : Scalar R}.

(** The sum of the squares of the cells of a plane, and the total
    probability of a generation. *)
Definition sum_squares (l : list R) : R :=
  foldr (fun x acc => x [*] x [+] acc) s0 l.

Definition total_probability (q : quadrants R) : R :=
  sum_squares (r00 q) [+] sum_squares (r01 q) [+] sum_squares (r10 q)
  [+] sum_squares (r11 q) [+] sum_squares (i00 q) [+] sum_squares (i01 q)
  [+] sum_squares (i10 q) [+] sum_squares (i11 q).

End KernelSpec.

(** The transfer made by a call, if it is one. *)
Definition transfer_of (c : mpi_call) : option transfer :=
  match c with
  | MPI_Irecv t | MPI_Isend t => Some t
  | MPI_Waitall _ => None
  end.

Definition is_waitall (c : mpi_call) : bool :=
  match c with MPI_Waitall _ => true | _ => false end.

Definition is_recv (c : mpi_call) : bool :=
  match c with MPI_Irecv _ => true | _ => false end.

Definition is_send (c : mpi_call) : bool :=
  match c with MPI_Isend _ => true | _ => false end.

Definition direction_eqb (x y : direction) : bool :=
  match x, y with
  | UP, UP | DOWN, DOWN | LEFT, LEFT | RIGHT, RIGHT => true
  | _, _ => false
  end.

(** A non-blocking transfer of a column strip to or from the left or
    right neighbour. *)
Definition vertical_phase (c : mpi_call) : Prop :=
  exists t, transfer_of c = Some t /\ tr_datatype t = verticalBorder
            /\ (tr_peer t = LEFT \/ tr_peer t = RIGHT).

(** A non-blocking transfer of a row strip to or from the upper or lower
    neighbour. *)
Definition horizontal_phase (c : mpi_call) : Prop :=
  exists t, transfer_of c = Some t /\ tr_datatype t = horizontalBorder
            /\ (tr_peer t = UP \/ tr_peer t = DOWN).

(** The planes a list of calls transfers, in order. *)
Definition planes_of (l : list mpi_call) : list (part * quadrant) :=
  omap (fun c => (fun t => (tr_part t, tr_quadrant t)) <$> transfer_of c) l.

(** The request slots a list of calls fills, in order. *)
Definition requests_of (l : list mpi_call) : list Z :=
  omap (fun c => tr_request <$> transfer_of c) l.

Definition all_planes : list (part * quadrant) :=
  [(Re, Q00); (Re, Q01); (Re, Q10); (Re, Q11);
   (Im, Q00); (Im, Q01); (Im, Q10); (Im, Q11)].

Definition peer_is (d : direction) (c : mpi_call) : bool :=
  match transfer_of c with
  | Some t => direction_eqb (tr_peer t) d
  | None => false
  end.

(** The receives from, and the sends to, the neighbour [d]. *)
Definition recvs_from (d : direction) (l : list mpi_call) : list mpi_call :=
  List.filter (fun c => is_recv c && peer_is d c) l.

Definition sends_to (d : direction) (l : list mpi_call) : list mpi_call :=
  List.filter (fun c => is_send c && peer_is d c) l.

(** Test data: the field whose cell [k] holds [k]. *)
Definition ramp (n : Z) : list Z := Z.of_nat <$> seq 0 (Z.to_nat n).

(** * Specifications of the copy loops *)

(** Cell [(i, j)] comes before cell [(i0, j0)] when rows of [cols] cells are
    visited one after the other. *)
Definition before (cols i0 j0 i j : Z) : Prop :=
  0 <= i /\ 0 <= j < cols /\ (i < i0 \/ (i = i0 /\ j < j0)).

(** The cells of the first [rows] rows of [cols] cells. *)
Definition in_rect (rows cols i j : Z) : Prop :=
  0 <= i < rows /\ 0 <= j < cols.

Section CopySpec.
Context {R : Type} {SR : Scalar R}.

(** [dst'] is [dst] with cell [idx i j] holding [v i j] for every [(i, j)]
    of [D], and nothing else changed. *)
Definition filled (dst dst' : list R) (idx : Z -> Z -> Z)
    (D : Z -> Z -> Prop) (v : Z -> Z -> R) : Prop :=
  len dst' = len dst
  /\ (forall i j, D i j -> get dst' (idx i j) = v i j)
  /\ (forall k, (forall i j, D i j -> k <> idx i j) -> get dst' k = get dst k).

End CopySpec.

Section ConstructorSpec.
Context {R : Type} {SR : Scalar R}.

(** The quadrant of the site in row [y] and column [x] of the tile. *)
Definition quadrant_of (y x : Z) : quadrant :=
  match y mod 2 =? 0, x mod 2 =? 0 with
  | true, true => Q00
  | true, false => Q01
  | false, true => Q10
  | false, false => Q11
  end.

(** Row and column parity of a quadrant. *)
Definition row_parity (c : quadrant) : Z :=
  match c with Q00 | Q01 => 0 | Q10 | Q11 => 1 end.

Definition col_parity (c : quadrant) : Z :=
  match c with Q00 | Q10 => 0 | Q01 | Q11 => 1 end.

(** The planes [q], of [rows] rows of [cols] cells, hold the row-major
    field [(re, im)] of [2 * cols] columns split by parity:
    [p[2i+di][2j+dj] = quadrant[di][dj][i][j]]. *)
Definition quadrants_of_field (q : quadrants R) (re im : list R)
    (rows cols : Z) : Prop :=
  forall c i j, 0 <= i < rows -> 0 <= j < cols ->
    get (real_plane c q) (i * cols + j)
      = get re ((2 * i + row_parity c) * (2 * cols) + (2 * j + col_parity c))
    /\ get (imag_plane c q) (i * cols + j)
      = get im ((2 * i + row_parity c) * (2 * cols) + (2 * j + col_parity c)).

(** All eight planes have [n] cells. *)
Definition planes_len (q : quadrants R) (n : Z) : Prop :=
  forall c, len (real_plane c q) = n /\ len (imag_plane c q) = n.

End ConstructorSpec.

Section ConstructorInvariant.
Context {R : Type} {SR : Scalar R}.

(** The state of the constructor's loops: of the planes of the even rows
    the cells of [Da] are filled, of the planes of the odd rows those of
    [Db]. *)
Definition constructor_filled (fresh re im : list R) (tw : Z)
    (Da Db : Z -> Z -> Prop) (q : quadrants R) : Prop :=
  let idx := fun i j => i * (tw / 2) + j in
  filled fresh (r00 q) idx Da (fun i j => get re (2 * i * tw + 2 * j)) /\
  filled fresh (i00 q) idx Da (fun i j => get im (2 * i * tw + 2 * j)) /\
  filled fresh (r01 q) idx Da (fun i j => get re (2 * i * tw + 2 * j + 1)) /\
  filled fresh (i01 q) idx Da (fun i j => get im (2 * i * tw + 2 * j + 1)) /\
  filled fresh (r10 q) idx Db (fun i j => get re ((2 * i + 1) * tw + 2 * j)) /\
  filled fresh (i10 q) idx Db (fun i j => get im ((2 * i + 1) * tw + 2 * j)) /\
  filled fresh (r11 q) idx Db (fun i j => get re ((2 * i + 1) * tw + 2 * j + 1)) /\
  filled fresh (i11 q) idx Db (fun i j => get im ((2 * i + 1) * tw + 2 * j + 1)).

(** The state of the loops of [get_quadrant_sample]. *)
Definition sample_filled (q : quadrants R) (src_stride dest_stride x y : Z)
    (dest_real dest_imag : list R) (D : Z -> Z -> Prop)
    (d : list R * list R) : Prop :=
  let idx := fun j i => j * dest_stride + i in
  let src := fun j i => ((y + j) / 2) * src_stride + (x + i) / 2 in
  filled dest_real d.1 idx D
    (fun j i => get (real_plane (quadrant_of (y + j) (x + i)) q) (src j i)) /\
  filled dest_imag d.2 idx D
    (fun j i => get (imag_plane (quadrant_of (y + j) (x + i)) q) (src j i)).

End ConstructorInvariant.

(** * The full step on grids *)

Definition in_rectb (rows cols i j : Z) : bool :=
  (0 <=? i) && (i <? rows) && (0 <=? j) && (j <? cols).

(** Row and column shift of the second site of the pairs of a call. *)
Definition shift_rows (c : pass_call) : Z :=
  match pc_axis c with ShiftY => pc_offset c | ShiftX => 0 end.

Definition shift_cols (c : pass_call) : Z :=
  match pc_axis c with ShiftY => 0 | ShiftX => pc_offset c end.

Section GridSpec.
Context {R : Type} {SR : Scalar R}.

(** The content of eight planes as a function of quadrant, row and column:
    real and imaginary part of each cell. *)
Definition grid : Type := quadrant -> Z -> Z -> R * R.

(** The grid held by planes with rows of [stride] cells. *)
Definition grid_of (q : quadrants R) (stride : Z) : grid :=
  fun c i j => (get (real_plane c q) (i * stride + j),
                get (imag_plane c q) (i * stride + j)).

Definition rotate_first (a b : R) (u v : R * R) : R * R :=
  (a [*] u.1 [-] b [*] v.2, a [*] u.2 [+] b [*] v.1).

Definition rotate_second (a b : R) (u v : R * R) : R * R :=
  (a [*] v.1 [-] b [*] u.2, a [*] v.2 [+] b [*] u.1).

(** One call of a pass on a grid of [h] rows and [w] columns. *)
Definition grid_pass (a b : R) (c : pass_call) (h w : Z) (g : grid) : grid :=
  let di := shift_rows c in
  let dj := shift_cols c in
  fun q i j =>
    if quadrant_eqb q (pc_first c) && in_rectb (h - di) (w - dj) i j then
      rotate_first a b (g (pc_first c) i j) (g (pc_second c) (i + di) (j + dj))
    else if quadrant_eqb q (pc_second c)
            && in_rectb (h - di) (w - dj) (i - di) (j - dj) then
      rotate_second a b (g (pc_first c) (i - di) (j - dj)) (g (pc_second c) i j)
    else g q i j.

(** A sequence of calls, and the full step, on a grid. *)
Definition grid_passes (a b : R) (l : list pass_call) (h w : Z) (g : grid) : grid :=
  foldl (fun g c => grid_pass a b c h w g) g l.

Definition grid_step (a b : R) (h w : Z) (g : grid) : grid :=
  grid_passes a b full_step_calls h w g.

(** Two grids with the same cells in the columns [0 <= j < cols]. *)
Definition same_columns (cols : Z) (g g' : grid) : Prop :=
  forall c i j, 0 <= j < cols -> g c i j = g' c i j.

End GridSpec.
Arguments grid : clear implicits.

(** ** How far the edge of a block is felt *)

(** For each quadrant, the number of rows at the top and at the bottom and
    of columns at the left and at the right of a block in which the block
    computed alone may differ from the same cells computed as part of the
    whole tile. *)
Record margins : Type := Margins {
  m_top : quadrant -> Z;
  m_bottom : quadrant -> Z;
  m_left : quadrant -> Z;
  m_right : quadrant -> Z
}.

Definition upd (f : quadrant -> Z) (c : quadrant) (v : Z) : quadrant -> Z :=
  fun q => if quadrant_eqb q c then v else f q.

(** An edge of the block that is an edge of the tile costs nothing. *)
Definition edge (shared : bool) (d : Z) : Z := if shared then 0 else d.

(** What the margin [mp] of the partner quadrant, lying [d] cells away,
    costs: nothing at an edge of the tile where the partner has no margin,
    and else the partner's margin and the [d] cells that have no partner
    in the block. *)
Definition partner_margin (shared : bool) (mp d : Z) : Z :=
  if shared && (mp <=? 0) then 0 else Z.max (mp + d) d.

(** The margins on the side from which the second site of a pair is
    shifted away ([before]) and on the side towards which it is shifted
    ([after]), after a call that shifts by [d]. *)
Definition margin_before (shared : bool) (c : pass_call) (d : Z)
    (m : quadrant -> Z) : quadrant -> Z :=
  let f := pc_first c in
  let s := pc_second c in
  upd (upd m f (Z.max (m f) (m s - d)))
      s (Z.max (m s) (partner_margin shared (m f) d)).

Definition margin_after (shared : bool) (c : pass_call) (d : Z)
    (m : quadrant -> Z) : quadrant -> Z :=
  let f := pc_first c in
  let s := pc_second c in
  upd (upd m f (Z.max (m f) (partner_margin shared (m s) d)))
      s (Z.max (m s) (m f - d)).

Definition margins_pass (top bottom left right : bool) (c : pass_call)
    (m : margins) : margins :=
  Margins (margin_before top c (shift_rows c) (m_top m))
          (margin_after bottom c (shift_rows c) (m_bottom m))
          (margin_before left c (shift_cols c) (m_left m))
          (margin_after right c (shift_cols c) (m_right m)).

Definition margins_passes (top bottom left right : bool) (l : list pass_call)
    (m : margins) : margins :=
  foldl (fun m c => margins_pass top bottom left right c m) m l.

Definition no_margins : margins :=
  Margins (fun _ => 0) (fun _ => 0) (fun _ => 0) (fun _ => 0).

(** The margins left by a full step: two cells on every side that is not
    an edge of the tile. *)
Definition halo_margins (top bottom left right : bool) : margins :=
  Margins (fun _ => edge top 2) (fun _ => edge bottom 2)
          (fun _ => edge left 2) (fun _ => edge right 2).

Section AgreeSpec.
Context {R : Type} {SR : Scalar R}.

(** The block [B] of [h] rows and [w] columns, placed at row [y0] and column
    [x0] of the tile [G], holds the cells of the tile except in its
    margins. *)
Definition agree (y0 x0 h w : Z) (m : margins) (B G : grid R) : Prop :=
  forall c i j,
    0 <= i < h -> 0 <= j < w ->
    m_top m c <= i < h - m_bottom m c ->
    m_left m c <= j < w - m_right m c ->
    B c i j = G c (y0 + i) (x0 + j).

End AgreeSpec.

(** A call as [full_step_sse] makes them: two different quadrants and a
    shift of 0 or 1. *)
Definition well_formed_call (c : pass_call) : Prop :=
  pc_first c <> pc_second c /\ 0 <= pc_offset c <= 1.

(** Every margin of [m] is at most the corresponding margin of [m']. *)
Definition margins_le (m m' : margins) : Prop :=
  forall c, m_top m c <= m_top m' c /\ m_bottom m c <= m_bottom m' c
            /\ m_left m c <= m_left m' c /\ m_right m c <= m_right m' c.

Section PlanesSpec.
Context {R : Type} {SR : Scalar R}.

(** All eight planes hold at least [n] cells. *)
Definition planes_hold (q : quadrants R) (n : Z) : Prop :=
  forall c, n <= len (real_plane c q) /\ n <= len (imag_plane c q).

(** The planes of [q'] are as long as those of [q]. *)
Definition same_lengths (q q' : quadrants R) : Prop :=
  forall c, len (real_plane c q') = len (real_plane c q)
            /\ len (imag_plane c q') = len (imag_plane c q).

End PlanesSpec.

(** * Specifications of the block tiling *)

(** The cells of rows [r0 <= i < r1] and columns [c0 <= j < c1]. *)
Definition in_box (r0 r1 c0 c1 i j : Z) : Prop :=
  r0 <= i < r1 /\ c0 <= j < c1.

Section TilingSpec.
Context {R : Type} {SR : Scalar R}.

(** The planes [n'], with rows of [W] cells, are the planes [n] with the
    cells of [D] holding the grid [T], and nothing else changed. *)
Definition planes_filled (n n' : quadrants R) (W : Z) (D : Z -> Z -> Prop)
    (T : grid R) : Prop :=
  forall c,
    filled (real_plane c n) (real_plane c n') (fun i j => i * W + j) D
           (fun i j => (T c i j).1)
    /\ filled (imag_plane c n) (imag_plane c n') (fun i j => i * W + j) D
              (fun i j => (T c i j).2).

(** The planes [n'] are the planes [n] with the rectangle [D], taken at
    [dst_idx] with rows [dstride] apart, copied from the planes [src] at
    [src_idx] with rows [sstride] apart. *)
Definition planes_copied (n n' : quadrants R) (dst_idx dstride : Z)
    (src : quadrants R) (src_idx sstride : Z) (D : Z -> Z -> Prop) : Prop :=
  forall c,
    filled (real_plane c n) (real_plane c n') (fun i j => dst_idx + i * dstride + j) D
           (fun i j => get (real_plane c src) (src_idx + i * sstride + j))
    /\ filled (imag_plane c n) (imag_plane c n') (fun i j => dst_idx + i * dstride + j) D
              (fun i j => get (imag_plane c src) (src_idx + i * sstride + j)).

End TilingSpec.

(** Cell [k] of a plane lies in the region [fp]. *)
Definition covers (fp : footprint) (k : Z) : bool :=
  let d := k - fp_idx fp in
  (0 <=? d) && (d mod fp_stride fp <? fp_width fp)
  && (d / fp_stride fp <? fp_height fp).

(** How many of the recorded writes went to cell [k]. *)
Definition writes_at (log : list footprint) (k : Z) : Z :=
  Z.of_nat (length (List.filter (fun fp => covers fp k) log)).

(** The writes [log] went once to every cell of [D] and to no other cell
    of the rows of [W] cells. *)
Definition written_once (log : list footprint) (W : Z) (D : Z -> Z -> Prop)
  : Prop :=
  forall i j, 0 <= j < W ->
    (D i j -> writes_at log (i * W + j) = 1)
    /\ (~ D i j -> writes_at log (i * W + j) = 0).

Section ProgressSpec.
Context {R : Type} {SR : Scalar R}.

(** Where the writing of the next generation stands: starting from the
    planes [n0] and the record [log0], the cells of [D] have been written,
    once each, with the cells of the grid [T]. *)
Definition progress (n0 : quadrants R) (log0 : list footprint) (W : Z)
    (T : grid R) (D : Z -> Z -> Prop) (t : target R) : Prop :=
  planes_filled n0 t.1 W D T
  /\ exists new, t.2 = log0 ++ new /\ written_once new W D.

End ProgressSpec.

(** Two regions and their union. *)
Definition region_union (D D' : Z -> Z -> Prop) : Z -> Z -> Prop :=
  fun i j => D i j \/ D' i j.

Definition regions_disjoint (D D' : Z -> Z -> Prop) : Prop :=
  forall i j, D i j -> D' i j -> False.

(** The region lies in the columns of the tile. *)
Definition region_in_columns (W : Z) (D : Z -> Z -> Prop) : Prop :=
  forall i j, D i j -> 0 <= j < W.

(** ** The geometry of the tiling *)

(** Sizes for which the tiling is meant: even tile and block dimensions,
    even halos of at least four sites, thinner than half a block, and
    sizes far from the range of [size_t]. *)
Definition tiling_ok (bw bh tw th hx hy : Z) : Prop :=
  (2 <= tw /\ tw mod 2 = 0 /\ tw < 2 ^ 62) /\
  (2 <= th /\ th mod 2 = 0 /\ th < 2 ^ 62) /\
  (bw mod 2 = 0 /\ bw < 2 ^ 62) /\
  (bh mod 2 = 0 /\ bh < 2 ^ 62) /\
  (4 <= hx /\ hx mod 2 = 0 /\ 2 * hx < bw) /\
  (4 <= hy /\ hy mod 2 = 0 /\ 2 * hy < bh).

(** The start of the last block of a band wider than a block, as
    [process_sides_sse] computes it. *)
Definition last_block_start (bw tw hx : Z) : Z :=
  ((tw - bw) / (bw - 2 * hx) + 1) * (bw - 2 * hx).

(** The tile widths for which the middle blocks end where the last block
    begins. *)
Definition no_gap (bw tw hx : Z) : Prop :=
  tw <= bw \/ (tw - bw) mod (bw - 2 * hx) <> 0.

(** The columns (of a quadrant plane) written by the first and last block
    of a band, and by its middle blocks. *)
Definition side_cols (bw tw hx : Z) (j : Z) : Prop :=
  if tw <=? bw then 0 <= j < tw / 2
  else 0 <= j < (bw - hx) / 2
       \/ (last_block_start bw tw hx + hx) / 2 <= j < tw / 2.

(** Where the loop over the middle blocks of a band ends. *)
Definition middle_blocks_end (bw tw hx : Z) : Z :=
  count_end (bw - 2 * hx) (tw - bw) (bw - 2 * hx).

Definition inner_cols (bw tw hx : Z) (j : Z) : Prop :=
  if tw <=? bw then False
  else (bw - hx) / 2 <= j < (middle_blocks_end bw tw hx + hx) / 2.

(** The columns between the end of the middle blocks and the columns that
    the last block writes. *)
Definition gap_cols (bw tw hx : Z) (j : Z) : Prop :=
  bw < tw
  /\ (middle_blocks_end bw tw hx + hx) / 2 <= j < (last_block_start bw tw hx + hx) / 2.

(** The columns that the blocks of a band write. *)
Definition written_cols (bw tw hx : Z) (j : Z) : Prop :=
  side_cols bw tw hx j \/ inner_cols bw tw hx j.

Definition band_cols (bw tw hx : Z) (inner sides : bool) (j : Z) : Prop :=
  (sides = true /\ side_cols bw tw hx j) \/ (inner = true /\ inner_cols bw tw hx j).

(** The cells written by one call of [process_band_sse]. *)
Definition band_region (bw tw hx : Z) (read_y write_offset write_height : Z)
    (inner sides : bool) (i j : Z) : Prop :=
  (read_y + write_offset) / 2 <= i < (read_y + write_offset) / 2 + write_height / 2
  /\ band_cols bw tw hx inner sides j.

(** A band that [process_band_sse] can process: rows inside the tile, at
    most a block high, and written rows at least a halo away from the
    edges of the band that are not edges of the tile. *)
Definition band_ok (bh th : Z) (read_y read_height write_offset write_height : Z)
    (top bottom : bool) : Prop :=
  (read_y mod 2 = 0 /\ read_height mod 2 = 0
   /\ write_offset mod 2 = 0 /\ write_height mod 2 = 0) /\
  0 <= read_y /\ 2 <= read_height <= bh /\ read_y + read_height <= th /\
  0 <= write_height /\
  (top = true -> read_y = 0) /\ (bottom = true -> read_y + read_height = th) /\
  edge top 4 <= write_offset /\
  write_offset + write_height <= read_height - edge bottom 4.

(** ** The tiling of a whole step *)

(** Rows [r0 <= i < r1] of the columns [cols]. *)
Definition rows_region (r0 r1 : Z) (cols : Z -> Prop) : Z -> Z -> Prop :=
  fun i j => r0 <= i < r1 /\ cols j.

(** Where the loop over the middle bands of a tile ends. *)
Definition middle_bands_end (bh th hy : Z) : Z :=
  count_end (bh - 2 * hy) (th - bh) (bh - 2 * hy).

(** The cells left to [run_kernel]: the middle blocks of the middle bands;
    the cells of [run_kernel_on_halo]: the others that the blocks write;
    and the cells of both. *)
Definition middle_region (bw bh tw th hx hy : Z) : Z -> Z -> Prop :=
  rows_region ((bh - hy) / 2) ((middle_bands_end bh th hy + hy) / 2)
              (inner_cols bw tw hx).

Definition step_region (bw tw th hx : Z) : Z -> Z -> Prop :=
  rows_region 0 (th / 2) (written_cols bw tw hx).

Definition halo_region (bw bh tw th hx hy : Z) : Z -> Z -> Prop :=
  fun i j => step_region bw tw th hx i j /\ ~ middle_region bw bh tw th hx hy i j.

Section KernelConditions.
Context {R : Type} {SR : Scalar R}.

(** A kernel whose sizes are as in [tiling_ok], with planes of a quarter
    of the tile in both generations. *)
Definition kernel_sizes_ok (k : kernel (R := R)) : Prop :=
  tiling_ok (block_width k) (block_height k) (tile_width k) (tile_height k)
            (halo_x k) (halo_y k)
  /\ planes_len (gen0 k) ((tile_height k / 2) * (tile_width k / 2))
  /\ planes_len (gen1 k) ((tile_height k / 2) * (tile_width k / 2)).

(** A kernel on which one step tiles its planes: moreover the tile is at
    least one block high and there is no gap between the middle blocks and
    the last one. *)
Definition kernel_ok (k : kernel (R := R)) : Prop :=
  kernel_sizes_ok k
  /\ block_height k <= tile_height k
  /\ no_gap (block_width k) (tile_width k) (halo_x k).

(** The step of the planes of the current generation that one iteration
    is to compute. *)
Definition kernel_step (k : kernel (R := R)) : grid R :=
  grid_step (a k) (b k) (tile_height k / 2) (tile_width k / 2)
            (grid_of (generation k (sense k)) (tile_width k / 2)).

End KernelConditions.

(** ** Total probability *)

Section NormSpec.
Context {R : Type} {SR : Scalar R}.

(** The sum of the squares of the cells of the four arrays of a pass. *)
Definition planes4_probability (p : planes4 R) : R :=
  let '(r1, i1, r2, i2) := p in
  sum_squares r1 [+] sum_squares i1 [+] sum_squares r2 [+] sum_squares i2.

(** The rotations of the kernel are unitary for coefficients on the unit
    circle. *)
Definition unit_coefficients (a b : R) : Prop := a [*] a [+] b [*] b = s1.

End NormSpec.

(** ** The halo exchange *)

Section HaloSpec.
Context {R : Type} {SR : Scalar R}.

(** The derived datatypes as [initialize_MPI] commits them (lines 411-423):
    [MPI_Type_vector (count, block_length, stride, ...)] is [count] blocks
    of [block_length] floats, with [stride] floats from the start of one
    block to the start of the next.  The [count] of [verticalBorder] is
    computed in [int]. *)
Definition border_vector (k : kernel (R := R)) (d : border) : Z * Z * Z :=
  match d with
  | verticalBorder =>
      (Z.quot (inner_end_y k - inner_start_y k) 2, halo_x k / 2,
       tile_width k / 2)
  | horizontalBorder => (halo_y k / 2, tile_width k / 2, tile_width k / 2)
  end.

(** The indices of the plane that a transfer of one datatype reads or
    writes, block after block. *)
Definition transfer_cells (k : kernel (R := R)) (t : transfer) : list Z :=
  let '(count, block_length, stride) := border_vector k (tr_datatype t) in
  r ← seqZ 0 count; c ← seqZ 0 block_length; [tr_offset t + r * stride + c].

(** The geometry [initialize_MPI] is called with: even sizes and
    coordinates relative to the tile, the inner rows inside the tile, and a
    halo on either side of the inner columns and rows that fits in the
    tile. *)
Definition halo_geometry (k : kernel (R := R)) : Prop :=
  (tile_width k mod 2 = 0 /\ tile_height k mod 2 = 0
   /\ halo_x k mod 2 = 0 /\ halo_y k mod 2 = 0
   /\ (inner_start_y k - start_y k) mod 2 = 0
   /\ (inner_end_y k - start_y k) mod 2 = 0
   /\ (inner_end_x k - start_x k) mod 2 = 0)
  /\ (0 <= halo_x k /\ 0 <= halo_y k)
  /\ (0 <= inner_start_y k - start_y k /\ inner_start_y k <= inner_end_y k)
  /\ (halo_x k <= inner_end_x k - start_x k
      /\ inner_end_x k - start_x k + halo_x k <= tile_width k)
  /\ (halo_y k <= inner_end_y k - start_y k
      /\ inner_end_y k - start_y k + halo_y k <= tile_height k).

(** The strip of a plane exchanged with the neighbour [peer], as rows
    [[r0, r1)] and columns [[c0, c1)]: what is received lies on the outer
    side, what is sent next to it on the inner side. *)
Definition halo_strip (k : kernel (R := R)) (recv : bool) (peer : direction)
  : (Z * Z) * (Z * Z) :=
  let W := tile_width k / 2 in
  let top := (inner_start_y k - start_y k) / 2 in
  let bottom := (inner_end_y k - start_y k) / 2 in
  let right := (inner_end_x k - start_x k) / 2 in
  let hx := halo_x k / 2 in
  let hy := halo_y k / 2 in
  match peer, recv with
  | LEFT, true => ((top, bottom), (0, hx))
  | LEFT, false => ((top, bottom), (hx, hx + hx))
  | RIGHT, true => ((top, bottom), (right, right + hx))
  | RIGHT, false => ((top, bottom), (right - hx, right))
  | UP, true => ((0, hy), (0, W))
  | UP, false => ((hy, hy + hy), (0, W))
  | DOWN, true => ((bottom, bottom + hy), (0, W))
  | DOWN, false => ((bottom - hy, bottom), (0, W))
  end.

(** Cell [idx] of a plane lies in a strip. *)
Definition in_strip (k : kernel (R := R)) (s : (Z * Z) * (Z * Z)) (idx : Z)
  : Prop :=
  exists i j, (s.1.1 <= i < s.1.2 /\ s.2.1 <= j < s.2.2)
              /\ idx = i * (tile_width k / 2) + j.

End HaloSpec.

(** What identifies a message to the receiving rank, and what it carries:
    the tag, the plane, the datatype and the count. *)
Definition message (t : transfer) : Z * (part * quadrant) * border * Z :=
  (tr_tag t, (tr_part t, tr_quadrant t), tr_datatype t, tr_count t).

Definition messages_of (l : list mpi_call) : list (Z * (part * quadrant) * border * Z) :=
  omap (fun c => message <$> transfer_of c) l.

(** ** Example tiles *)

(** Planes of [n] cells that all hold [v]. *)
Definition constant_planes (v : Z) (n : Z) : quadrants Z :=
  let plane := replicate (Z.to_nat n) v in
  Quadrants plane plane plane plane plane plane plane plane.

(** The kernel of a [tw] x [th] tile whose field is 1 everywhere, with
    coefficients [(a, b) = (0, 1)], halos of [halo] sites, zeros in the
    generation not yet computed, and blocks of [bw] x [bh] sites. *)
Definition example_kernel (tw th halo bw bh : Z) : kernel (R := Z) :=
  Kernel (replicate (Z.to_nat (tw * th)) 1) (replicate (Z.to_nat (tw * th)) 1)
    0 1 tw th halo halo false
    (constant_planes 1 ((th / 2) * (tw / 2)))
    (constant_planes 0 ((th / 2) * (tw / 2)))
    bw bh 0 0 0 0 0 0 [].

(** * Proofs *)

(** Integer division and remainder are handed to [lia] as equations. *)
Ltac Zify.zify_post_hook ::= Z.div_mod_to_equations.

(** ** The outcome monad and the loops *)

Lemma bind_Done {A B : Type} (f : A -> outcome B) (x : A) :
  (Done x ≫= f) = f x.
Proof. reflexivity. Qed.

Lemma bind_Done_inv {A B : Type} (f : A -> outcome B) (m : outcome A) (y : B) :
  (m ≫= f) = Done y -> exists x, m = Done x /\ f x = Done y.
Proof. destruct m; simpl; intros H; try discriminate. eauto. Qed.

Lemma foldM_app {A S : Type} (f : A -> S -> outcome S) (l1 l2 : list A) (s : S) :
  foldM f (l1 ++ l2) s = (foldM f l1 s ≫= foldM f l2).
Proof.
  revert s. induction l1 as [|x l1 IH]; intros s; simpl; [done|].
  destruct (f x s) as [s'| |]; simpl; [apply IH|done|done].
Qed.

(** A loop over [g m, g (m+1), ..., g (m+n-1)] with an invariant indexed by
    the number of completed iterations. *)
Lemma foldM_seq {S : Type} (f : Z -> S -> outcome S) (g : nat -> Z)
    (P : nat -> S -> Prop) (n m : nat) (s : S) :
  P m s ->
  (forall k s, (m <= k < m + n)%nat -> P k s ->
     exists s', f (g k) s = Done s' /\ P (Datatypes.S k) s') ->
  exists s', foldM f (map g (seq m n)) s = Done s' /\ P (m + n)%nat s'.
Proof.
  revert m s. induction n as [|n IH]; intros m s Hs Hstep; simpl.
  - exists s. by rewrite Nat.add_0_r.
  - destruct (Hstep m s ltac:(lia) Hs) as (s1 & -> & Hs1). simpl.
    destruct (IH (Datatypes.S m) s1 Hs1) as (s2 & Hf & Hs2).
    + intros k s' Hk. apply Hstep. lia.
    + exists s2. split; [done|]. by replace (m + Datatypes.S n)%nat with (Datatypes.S m + n)%nat by lia.
Qed.

Lemma count_iterations (lo hi step c : Z) :
  0 < step -> lo <= c < hi -> 0 <= (c - lo) / step < (hi - lo + step - 1) / step.
Proof.
  intros Hs Hc. split; [apply Z.div_pos; lia|].
  apply Z.div_lt_upper_bound; [lia|].
  pose proof (Z.mul_div_le (c - lo) step Hs) as H1.
  pose proof (Z.mod_pos_bound (hi - lo + step - 1) step Hs).
  pose proof (Z.div_mod (hi - lo + step - 1) step ltac:(lia)).
  pose proof (Z.mod_pos_bound (c - lo) step Hs).
  pose proof (Z.div_mod (c - lo) step ltac:(lia)).
  nia.
Qed.

(** The rule of the loop [for (c = lo; c < hi; c += step)]. *)
Lemma foldM_count_up {S : Type} (f : Z -> S -> outcome S) (lo hi step : Z)
    (P : Z -> S -> Prop) (s : S) :
  0 < step ->
  P lo s ->
  (forall c s, lo <= c < hi -> (c - lo) mod step = 0 -> P c s ->
     exists s', f c s = Done s' /\ P (c + step) s') ->
  exists s', foldM f (count_up lo hi step) s = Done s'
             /\ P (count_end lo hi step) s'.
Proof.
  intros Hstep H0 Hbody. unfold count_up, count_end.
  set (n := Z.to_nat ((hi - lo + step - 1) / step)).
  destruct (foldM_seq f (fun k : nat => lo + step * Z.of_nat k)
              (fun k => P (lo + step * Z.of_nat k)) n 0%nat s) as (s' & Hf & Hs').
  - by replace (lo + step * Z.of_nat 0) with lo by lia.
  - intros k s1 Hk Hs1.
    assert (Hn : Z.of_nat k < (hi - lo + step - 1) / step) by (unfold n in Hk; lia).
    assert (lo + step * Z.of_nat k < hi).
    { pose proof (Z.mul_div_le (hi - lo + step - 1) step Hstep). nia. }
    destruct (Hbody (lo + step * Z.of_nat k) s1) as (s2 & Hf2 & Hs2); [nia| |done|].
    + replace (lo + step * Z.of_nat k - lo) with (Z.of_nat k * step) by lia.
      apply Z.mod_mul. lia.
    + exists s2. split; [done|].
      by replace (lo + step * Z.of_nat (Datatypes.S k))
        with (lo + step * Z.of_nat k + step) by lia.
  - exists s'. split; [done|]. by rewrite Nat.add_0_l in Hs'.
Qed.

Lemma count_end_unit (lo hi : Z) : lo <= hi -> count_end lo hi 1 = hi.
Proof.
  intros H. unfold count_end.
  replace (hi - lo + 1 - 1) with (hi - lo) by lia. rewrite Z.div_1_r. lia.
Qed.

Lemma count_end_multiple (hi step : Z) :
  0 < step -> 0 <= hi -> hi mod step = 0 -> count_end 0 hi step = hi.
Proof.
  intros Hs Hh Hm. unfold count_end.
  apply Z.mod_divide in Hm; [|lia]. destruct Hm as [q ->].
  replace (q * step - 0 + step - 1) with (step - 1 + q * step) by lia.
  rewrite Z.div_add by lia. rewrite Z.div_small by lia. nia.
Qed.

(** ** Buffers *)

Section BufferFacts.
Context {R : Type} {SR : Scalar R}.
Implicit Types (l : list R) (k : Z) (v : R).

Lemma len_nonneg l : 0 <= len l.
Proof. unfold len. lia. Qed.

Lemma len_set l k v : len (set l k v) = len l.
Proof. unfold len, set. destruct (k <? 0); [done|]. by rewrite length_insert. Qed.

Lemma get_set_eq l k v : 0 <= k < len l -> get (set l k v) k = v.
Proof.
  unfold get, set, len. intros H.
  destruct (Z.ltb_spec k 0) as [?|_]; [lia|].
  apply nth_lookup_Some with (d := s0). apply list_lookup_insert_eq. lia.
Qed.

Lemma get_set_ne l k k' v : k <> k' -> get (set l k v) k' = get l k'.
Proof.
  unfold get, set. intros H.
  destruct (Z.ltb_spec k' 0) as [?|?]; [done|].
  destruct (Z.ltb_spec k 0) as [?|?]; [done|].
  rewrite !nth_lookup. rewrite list_lookup_insert_ne; [done|lia].
Qed.

Lemma get_outside l k : ~ (0 <= k < len l) -> get l k = s0.
Proof.
  unfold get, len. intros H. destruct (Z.ltb_spec k 0) as [?|?]; [done|].
  apply nth_overflow. lia.
Qed.

Lemma in_buf_true l k : 0 <= k < len l -> in_buf l k = true.
Proof. unfold in_buf. intros H. apply andb_true_intro. split; lia. Qed.

Lemma rd_in l k : 0 <= k < len l -> rd l k = Done (get l k).
Proof. intros H. unfold rd. by rewrite in_buf_true. Qed.

Lemma wr_in l k v : 0 <= k < len l -> wr l k v = Done (set l k v).
Proof. intros H. unfold wr. by rewrite in_buf_true. Qed.

Lemma get_ext l1 l2 :
  len l1 = len l2 -> (forall k, 0 <= k < len l1 -> get l1 k = get l2 k) -> l1 = l2.
Proof.
  unfold len, get. intros Hlen Hget. apply list_eq. intros n.
  destruct (decide (n < length l1)%nat) as [Hn|Hn].
  - specialize (Hget (Z.of_nat n) ltac:(lia)).
    destruct (Z.ltb_spec (Z.of_nat n) 0) as [?|_]; [lia|]. rewrite Nat2Z.id in Hget.
    destruct (lookup_lt_is_Some_2 l1 n Hn) as [x Hx].
    destruct (lookup_lt_is_Some_2 l2 n ltac:(lia)) as [y Hy].
    rewrite (nth_lookup_Some _ _ s0 _ Hx), (nth_lookup_Some _ _ s0 _ Hy) in Hget.
    congruence.
  - rewrite !lookup_ge_None_2; [done|lia|lia].
Qed.

Lemma len_uninitialized (x : R) (n : Z) : 0 <= n -> len (uninitialized x n) = n.
Proof. intros H. unfold len, uninitialized. rewrite length_replicate. lia. Qed.

End BufferFacts.

(** ** The rotation passes *)

Section PassFacts.
Context {R : Type} {SR : Scalar R}.
Add Ring scalar_ring_passes : (@scalar_ring R SR).
Implicit Types (a b : R) (p : planes4 R) (P Q : Z -> Z -> Prop).

Lemma smul_comm (x y : R) : x [*] y = y [*] x.
Proof. ring. Qed.

Lemma rotated_refl a b p : rotated a b (fun _ _ => False) p p.
Proof. destruct p as [[[r1 i1] r2] i2]. unfold rotated. repeat split; tauto. Qed.

Lemma rotated_ext a b P Q p p' :
  (forall x y, P x y <-> Q x y) -> rotated a b P p p' -> rotated a b Q p p'.
Proof.
  destruct p as [[[r1 i1] r2] i2], p' as [[[r1' i1'] r2'] i2'].
  intros HPQ (Hlen & Hpair & H1 & H2). split; [done|]. split; [|split].
  - intros k1 k2 Hk. apply Hpair. by apply HPQ.
  - intros k Hn. apply H1. intros k2 Hp. apply (Hn k2). by apply HPQ.
  - intros k Hn. apply H2. intros k1 Hp. apply (Hn k1). by apply HPQ.
Qed.

(** One scalar rotation of a pair that has not been rotated yet. *)
Lemma rotate_ss_step a b P p0 p k1 k2 :
  rotated a b P p0 p ->
  (forall y, ~ P k1 y) -> (forall x, ~ P x k2) ->
  pairs_in_bounds (fun x y => x = k1 /\ y = k2) p0 ->
  exists p', rotate_ss a b k1 k2 p = Done p'
             /\ rotated a b (add_pair P k1 k2) p0 p'.
Proof.
  destruct p0 as [[[r1 i1] r2] i2], p as [[[c1 d1] c2] d2].
  intros (Hlen & Hpair & H1 & H2) Hk1 Hk2 Hb.
  destruct Hlen as (L1 & L2 & L3 & L4).
  destruct (Hb k1 k2 (conj eq_refl eq_refl)) as (B1 & B2 & B3 & B4).
  destruct (H1 k1 Hk1) as [E1 E2].
  destruct (H2 k2 Hk2) as [E3 E4].
  unfold rotate_ss.
  rewrite !rd_in by lia. simpl. rewrite !wr_in by lia. simpl.
  eexists. split; [reflexivity|].
  split; [by rewrite !len_set|]. split; [|split].
  - intros x y [Hxy|[-> ->]].
    + assert (x <> k1) by (intros ->; by apply (Hk1 y)).
      assert (y <> k2) by (intros ->; by apply (Hk2 x)).
      rewrite !get_set_ne by lia. by apply Hpair.
    + rewrite !get_set_eq by lia. unfold rotation. by rewrite E1, E2, E3, E4.
  - intros k Hn.
    assert (k <> k1) by (intros ->; apply (Hn k2); right; done).
    rewrite !get_set_ne by lia. apply H1.
    intros y Hy. apply (Hn y). by left.
  - intros k Hn.
    assert (k <> k2) by (intros ->; apply (Hn k1); right; done).
    rewrite !get_set_ne by lia. apply H2.
    intros y Hy. apply (Hn y). by left.
Qed.


Lemma count_up_four (j : Z) : count_up j (j + 4) 1 = [j; j + 1; j + 2; j + 3].
Proof.
  unfold count_up. replace ((j + 4 - j + 1 - 1) / 1) with 4 by (rewrite Z.div_1_r; lia).
  simpl. repeat f_equal; lia.
Qed.

(** The vector body does what four scalar bodies do, lane by lane. *)
Lemma rotate_ps_lanes a b idx1 idx2 j p :
  pairs_in_bounds (row_pairs (idx1 + j) (idx2 + j) 4) p ->
  rotate_ps a b (idx1 + j) (idx2 + j) p =
  foldM (fun j' => rotate_ss a b (idx1 + j') (idx2 + j')) (count_up j (j + 4) 1) p.
Proof.
  destruct p as [[[r1 i1] r2] i2]. intros Hb.
  assert (H0 := Hb (idx1 + j) (idx2 + j) ltac:(exists 0; lia)).
  assert (H3 := Hb (idx1 + j + 3) (idx2 + j + 3) ltac:(exists 3; lia)).
  rewrite count_up_four.
  unfold rotate_ps, rotate_ss, foldM, _mm_load_ps, _mm_store_ps,
    _mm_mul_ps, _mm_sub_ps, _mm_add_ps, _mm_load1_ps.
  replace (idx1 + (j + 1)) with (idx1 + j + 1) by lia.
  replace (idx1 + (j + 2)) with (idx1 + j + 2) by lia.
  replace (idx1 + (j + 3)) with (idx1 + j + 3) by lia.
  replace (idx2 + (j + 1)) with (idx2 + j + 1) by lia.
  replace (idx2 + (j + 2)) with (idx2 + j + 2) by lia.
  replace (idx2 + (j + 3)) with (idx2 + j + 3) by lia.
  repeat (rewrite ?rd_in, ?wr_in by (rewrite ?len_set; lia); simpl).
  rewrite !get_set_ne by lia.
  by rewrite !(smul_comm (get _ _) _).
Qed.

Lemma row_pairs_mono idx1 idx2 n m x y :
  n <= m -> row_pairs idx1 idx2 n x y -> row_pairs idx1 idx2 m x y.
Proof. intros H (j & Hj & -> & ->). exists j. split; [lia|done]. Qed.

Lemma pairs_in_bounds_len P p p' :
  (let '(r1, i1, r2, i2) := p in let '(r1', i1', r2', i2') := p' in
   len r1' = len r1 /\ len i1' = len i1 /\ len r2' = len r2 /\ len i2' = len i2) ->
  pairs_in_bounds P p -> pairs_in_bounds P p'.
Proof.
  destruct p as [[[r1 i1] r2] i2], p' as [[[r1' i1'] r2'] i2'].
  intros (E1 & E2 & E3 & E4) H x y HP. specialize (H x y HP). lia.
Qed.

Lemma rotated_len a b P p p' :
  rotated a b P p p' ->
  let '(r1, i1, r2, i2) := p in let '(r1', i1', r2', i2') := p' in
  len r1' = len r1 /\ len i1' = len i1 /\ len r2' = len r2 /\ len i2' = len i2.
Proof.
  destruct p as [[[r1 i1] r2] i2], p' as [[[r1' i1'] r2'] i2']. by intros [H _].
Qed.

(** The scalar loop over the columns [lo <= j < hi] of one row. *)
Lemma rotate_ss_range a b P p0 p idx1 idx2 lo hi :
  0 <= lo <= hi ->
  rotated a b (union_pairs P (row_pairs idx1 idx2 lo)) p0 p ->
  disjoint_pairs P (row_pairs idx1 idx2 hi) ->
  pairs_in_bounds (row_pairs idx1 idx2 hi) p0 ->
  exists p', foldM (fun j => rotate_ss a b (idx1 + j) (idx2 + j))
                   (count_up lo hi 1) p = Done p'
             /\ rotated a b (union_pairs P (row_pairs idx1 idx2 hi)) p0 p'.
Proof.
  intros Hlo Hrot Hdis Hb.
  destruct (foldM_count_up (fun j => rotate_ss a b (idx1 + j) (idx2 + j)) lo hi 1
    (fun j s => rotated a b (union_pairs P (row_pairs idx1 idx2 j)) p0 s) p)
    as (p' & Hf & Hp'); [lia|done| |].
  - intros j s Hj _ Hs.
    destruct (rotate_ss_step a b _ p0 s (idx1 + j) (idx2 + j) Hs) as (s' & Hs' & Hr).
    + intros y [Hy|(j' & Hj' & E1 & E2)]; [|lia].
      destruct (Hdis _ _ (idx1 + j) (idx2 + j) Hy); [exists j; lia|lia].
    + intros x [Hx|(j' & Hj' & E1 & E2)]; [|lia].
      destruct (Hdis _ _ (idx1 + j) (idx2 + j) Hx); [exists j; lia|lia].
    + destruct p0 as [[[r1 i1] r2] i2]. intros x y [-> ->]. apply Hb. exists j. lia.
    + exists s'. split; [done|]. eapply rotated_ext; [|exact Hr].
      intros x y. unfold add_pair, union_pairs, row_pairs. split.
      * intros [[HP|(j' & Hj' & -> & ->)]|[-> ->]]; [by left|right; exists j'; lia|right; exists j; lia].
      * intros [HP|(j' & Hj' & -> & ->)]; [by left; left|].
        destruct (decide (j' = j)) as [->|]; [by right|left; right; exists j'; lia].
  - exists p'. split; [done|]. by rewrite count_end_unit in Hp' by lia.
Qed.

(** One row of a pass. *)
Lemma rotate_row_spec a b P p0 p idx1 idx2 vb rb :
  0 <= vb <= rb -> vb mod 4 = 0 ->
  rotated a b P p0 p ->
  disjoint_pairs P (row_pairs idx1 idx2 rb) ->
  pairs_in_bounds (row_pairs idx1 idx2 rb) p0 ->
  exists p', rotate_row a b idx1 idx2 vb rb p = Done p'
             /\ rotated a b (union_pairs P (row_pairs idx1 idx2 rb)) p0 p'.
Proof.
  intros Hvb Hmod Hrot Hdis Hb. unfold rotate_row.
  destruct (foldM_count_up (fun j => rotate_ps a b (idx1 + j) (idx2 + j)) 0 vb 4
    (fun j s => rotated a b (union_pairs P (row_pairs idx1 idx2 j)) p0 s) p)
    as (p1 & -> & Hp1); [lia| | |].
  - eapply rotated_ext; [|exact Hrot]. intros x y. unfold union_pairs, row_pairs.
    split; [by left|]. intros [H|(j & Hj & _)]; [done|lia].
  - intros j s Hj Hj4 Hs.
    assert (j + 4 <= vb).
    { rewrite Z.sub_0_r in Hj4. apply Z.mod_divide in Hj4; [|lia].
      apply Z.mod_divide in Hmod; [|lia]. destruct Hj4 as [q ->], Hmod as [q' ->]. lia. }
    rewrite rotate_ps_lanes.
    + destruct (rotate_ss_range a b P p0 s idx1 idx2 j (j + 4)) as (s' & Hs' & Hr);
        [lia|done| | |by exists s'].
      * intros x y x' y' HP HQ. apply (Hdis x y x' y' HP).
        eapply row_pairs_mono; [|exact HQ]. lia.
      * destruct p0 as [[[r1 i1] r2] i2]. intros x y HQ. apply Hb.
        eapply row_pairs_mono; [|exact HQ]. lia.
    + eapply pairs_in_bounds_len; [exact (rotated_len _ _ _ _ _ Hs)|].
      destruct p0 as [[[r1 i1] r2] i2]. intros x y (d & Hd & -> & ->).
      apply Hb. exists (j + d). lia.
  - simpl. rewrite count_end_multiple in Hp1 |- * by lia.
    by apply rotate_ss_range.
Qed.


Lemma usub_small (x y : Z) : 0 <= x - y < SIZE_MAX1 -> usub x y = x - y.
Proof. intros H. unfold usub. by apply Z.mod_small. Qed.

Lemma uadd_small (x y : Z) : 0 <= x + y < SIZE_MAX1 -> uadd x y = x + y.
Proof. intros H. unfold uadd. by apply Z.mod_small. Qed.

(** Row-major indices with columns below the stride determine row and
    column. *)
Lemma row_major_lt (stride i j i' j' : Z) :
  0 <= j -> 0 <= j' < stride -> i' < i -> i' * stride + j' < i * stride + j.
Proof. intros. nia. Qed.

Lemma row_major_inj (stride i j i' j' : Z) :
  0 <= j < stride -> 0 <= j' < stride ->
  i * stride + j = i' * stride + j' -> i = i' /\ j = j'.
Proof.
  intros Hj Hj' E.
  destruct (Z.lt_trichotomy i i') as [H|[H|H]]; [|lia|].
  - pose proof (row_major_lt stride i' j' i j). lia.
  - pose proof (row_major_lt stride i j i' j'). lia.
Qed.

(** [update_shifty_sse] rotates every pair of [paired_y] once, and changes
    nothing else. *)
Lemma update_shifty_sse_spec a b offset_y stride width height p :
  0 <= offset_y <= height -> height < SIZE_MAX1 -> 0 <= width <= stride ->
  pairs_in_bounds (paired_y offset_y stride width height) p ->
  exists p', update_shifty_sse offset_y stride width height a b p = Done p'
             /\ rotated a b (paired_y offset_y stride width height) p p'.
Proof.
  intros Ho Hh Hw Hb. unfold update_shifty_sse.
  rewrite usub_small by lia.
  destruct (foldM_count_up
    (fun i => rotate_row a b (i * stride) ((i + offset_y) * stride)
                (width - width mod 4) width)
    0 (height - offset_y) 1
    (fun i s => rotated a b (paired_y offset_y stride width (i + offset_y)) p s) p)
    as (p' & Hf & Hp'); [lia| | |].
  - eapply rotated_ext; [|apply rotated_refl].
    intros x y. split; [done|]. intros (i & j & Hi & _). lia.
  - intros i s Hi _ Hs.
    destruct (rotate_row_spec a b (paired_y offset_y stride width (i + offset_y))
                p s (i * stride) ((i + offset_y) * stride)
                (width - width mod 4) width) as (s' & Hs' & Hr); [lia|lia|done| | |].
    + intros x y x' y' (i1 & j1 & Hi1 & Hj1 & -> & ->) (j2 & Hj2 & -> & ->).
      pose proof (row_major_lt stride i j2 i1 j1).
      pose proof (row_major_lt stride (i + offset_y) j2 (i1 + offset_y) j1). lia.
    + destruct p as [[[r1 i1] r2] i2]. intros x y (j & Hj & -> & ->).
      apply Hb. exists i, j. lia.
    + exists s'. split; [done|]. eapply rotated_ext; [|exact Hr].
      intros x y. unfold union_pairs, paired_y, row_pairs. split.
      * intros [(i1 & j1 & Hi1 & Hj1 & -> & ->)|(j1 & Hj1 & -> & ->)].
        -- exists i1, j1. lia.
        -- exists i, j1. lia.
      * intros (i1 & j1 & Hi1 & Hj1 & -> & ->).
        destruct (decide (i1 = i)) as [->|].
        -- right. exists j1. lia.
        -- left. exists i1, j1. lia.
  - exists p'. split; [done|]. rewrite count_end_unit in Hp' by lia.
    by replace (height - offset_y + offset_y) with height in Hp' by lia.
Qed.

(** [update_shiftx_sse] rotates every pair of [paired_x] once, and changes
    nothing else. *)
Lemma update_shiftx_sse_spec a b offset_x stride width height p :
  0 <= offset_x <= width -> width <= stride -> width < SIZE_MAX1 -> 0 <= height ->
  pairs_in_bounds (paired_x offset_x stride width height) p ->
  exists p', update_shiftx_sse offset_x stride width height a b p = Done p'
             /\ rotated a b (paired_x offset_x stride width height) p p'.
Proof.
  intros Ho Hw Hw2 Hh Hb. unfold update_shiftx_sse.
  rewrite usub_small by lia.
  destruct (foldM_count_up
    (fun i => rotate_row a b (i * stride) (i * stride + offset_x)
                (width - offset_x - (width - offset_x) mod 4) (width - offset_x))
    0 height 1
    (fun i s => rotated a b (paired_x offset_x stride width i) p s) p)
    as (p' & Hf & Hp'); [lia| | |].
  - eapply rotated_ext; [|apply rotated_refl].
    intros x y. split; [done|]. intros (i & j & Hi & _). lia.
  - intros i s Hi _ Hs.
    destruct (rotate_row_spec a b (paired_x offset_x stride width i)
                p s (i * stride) (i * stride + offset_x)
                (width - offset_x - (width - offset_x) mod 4) (width - offset_x))
      as (s' & Hs' & Hr); [lia|lia|done| | |].
    + intros x y x' y' (i1 & j1 & Hi1 & Hj1 & -> & ->) (j2 & Hj2 & -> & ->).
      pose proof (row_major_lt stride i j2 i1 j1). lia.
    + destruct p as [[[r1 i1] r2] i2]. intros x y (j & Hj & -> & ->).
      apply Hb. exists i, j. lia.
    + exists s'. split; [done|]. eapply rotated_ext; [|exact Hr].
      intros x y. unfold union_pairs, paired_x, row_pairs. split.
      * intros [(i1 & j1 & Hi1 & Hj1 & -> & ->)|(j1 & Hj1 & -> & ->)].
        -- exists i1, j1. lia.
        -- exists i, j1. lia.
      * intros (i1 & j1 & Hi1 & Hj1 & -> & ->).
        destruct (decide (i1 = i)) as [->|].
        -- right. exists j1. lia.
        -- left. exists i1, j1. lia.
  - exists p'. split; [done|]. by rewrite count_end_unit in Hp' by lia.
Qed.

End PassFacts.

(** ** The sequence of passes of a full step *)

Section NoTimeout.
Context {R : Type} {SR : Scalar R}.

Lemma bind_no_timeout {A B : Type} (m : outcome A) (f : A -> outcome B) :
  m <> Timeout -> (forall x, f x <> Timeout) -> (m ≫= f) <> Timeout.
Proof. destruct m; simpl; [intros _ H; apply H|done|done]. Qed.

Lemma foldM_no_timeout {A S : Type} (f : A -> S -> outcome S) (l : list A) (s : S) :
  (forall x s, f x s <> Timeout) -> foldM f l s <> Timeout.
Proof.
  intros Hf. revert s. induction l as [|x l IH]; intros s; simpl; [done|].
  apply bind_no_timeout; [apply Hf|apply IH].
Qed.

Lemma rd_no_timeout (l : list R) k : rd l k <> Timeout.
Proof. unfold rd. by destruct (in_buf l k). Qed.

Lemma wr_no_timeout (l : list R) k v : wr l k v <> Timeout.
Proof. unfold wr. by destruct (in_buf l k). Qed.

Ltac no_timeout :=
  repeat first
    [ apply rd_no_timeout | apply wr_no_timeout
    | apply bind_no_timeout; [|intros ?]
    | discriminate ].

Lemma _mm_load_ps_no_timeout (l : list R) k : _mm_load_ps l k <> Timeout.
Proof. unfold _mm_load_ps. no_timeout. Qed.

Lemma _mm_store_ps_no_timeout (l : list R) k v : _mm_store_ps l k v <> Timeout.
Proof. destruct v as [[[x0 x1] x2] x3]. unfold _mm_store_ps. no_timeout. Qed.

Lemma rotate_ss_no_timeout a b k1 k2 (p : planes4 R) : rotate_ss a b k1 k2 p <> Timeout.
Proof. destruct p as [[[r1 i1] r2] i2]. unfold rotate_ss. no_timeout. Qed.

Lemma rotate_ps_no_timeout a b k1 k2 (p : planes4 R) : rotate_ps a b k1 k2 p <> Timeout.
Proof.
  destruct p as [[[r1 i1] r2] i2].
  unfold rotate_ps.
  repeat first
    [ apply _mm_load_ps_no_timeout | apply _mm_store_ps_no_timeout
    | apply bind_no_timeout; [|intros ?]
    | discriminate ].
Qed.

Lemma rotate_row_no_timeout a b k1 k2 vb rb (p : planes4 R) :
  rotate_row a b k1 k2 vb rb p <> Timeout.
Proof.
  unfold rotate_row. apply bind_no_timeout.
  - apply foldM_no_timeout. intros. apply rotate_ps_no_timeout.
  - intros. apply foldM_no_timeout. intros. apply rotate_ss_no_timeout.
Qed.

Lemma update_shifty_sse_no_timeout o st w h a b (p : planes4 R) :
  update_shifty_sse o st w h a b p <> Timeout.
Proof. apply foldM_no_timeout. intros. apply rotate_row_no_timeout. Qed.

Lemma update_shiftx_sse_no_timeout o st w h a b (p : planes4 R) :
  update_shiftx_sse o st w h a b p <> Timeout.
Proof. apply foldM_no_timeout. intros. apply rotate_row_no_timeout. Qed.

Lemma run_pass_no_timeout st w h a b c (q : quadrants R) :
  run_pass st w h a b c q <> Timeout.
Proof.
  unfold run_pass. apply bind_no_timeout.
  - destruct (pc_axis c);
      [apply update_shifty_sse_no_timeout|apply update_shiftx_sse_no_timeout].
  - by intros [[[? ?] ?] ?].
Qed.

End NoTimeout.

Section FullStepFacts.
Context {R : Type} {SR : Scalar R}.

(** [full_step_sse] runs its sixteen calls in the listed order. *)
Lemma full_step_sse_calls stride width height a b (q : quadrants R) :
  full_step_sse stride width height a b q =
  foldM (run_pass stride width height a b) full_step_calls q.
Proof.
  destruct q as [x00 x01 x10 x11 y00 y01 y10 y11].
  cbv [full_step_sse full_step_calls full_step_substeps concat app
       substep1 substep2 substep3 substep4 foldM run_pass
       pc_axis pc_offset pc_first pc_second real_plane imag_plane set_planes
       r00 r01 r10 r11 i00 i01 i10 i11 mbind outcome_bind].
  repeat
    match goal with
    | |- context [match ?m with Done _ => _ | Fault => _ | Timeout => _ end] =>
        lazymatch m with
        | update_shifty_sse _ _ _ _ _ _ _ => idtac
        | update_shiftx_sse _ _ _ _ _ _ _ => idtac
        end;
        destruct m as [[[[? ?] ?] ?]| |]; cbv beta iota; [|done|done]
    end.
  done.
Qed.

(** Two calls on disjoint quadrants can be run in either order. *)
Lemma run_pass_commute stride width height a b c d (q : quadrants R) :
  independent_calls c d = true ->
  foldM (run_pass stride width height a b) [c; d] q =
  foldM (run_pass stride width height a b) [d; c] q.
Proof.
  intros Hi. cbn [foldM].
  assert (exists fc, (forall p, fc p <> Timeout) /\
            run_pass stride width height a b c = fun q =>
              '(r1, i1, r2, i2) ← fc (real_plane (pc_first c) q, imag_plane (pc_first c) q,
                                      real_plane (pc_second c) q, imag_plane (pc_second c) q);
              Done (set_planes (pc_second c) r2 i2 (set_planes (pc_first c) r1 i1 q)))
    as (fc & Tc & ->).
  { unfold run_pass. destruct (pc_axis c); eexists; (split; [|reflexivity]); intros p;
      [apply update_shifty_sse_no_timeout|apply update_shiftx_sse_no_timeout]. }
  assert (exists fd, (forall p, fd p <> Timeout) /\
            run_pass stride width height a b d = fun q =>
              '(r1, i1, r2, i2) ← fd (real_plane (pc_first d) q, imag_plane (pc_first d) q,
                                      real_plane (pc_second d) q, imag_plane (pc_second d) q);
              Done (set_planes (pc_second d) r2 i2 (set_planes (pc_first d) r1 i1 q)))
    as (fd & Td & ->).
  { unfold run_pass. destruct (pc_axis d); eexists; (split; [|reflexivity]); intros p;
      [apply update_shifty_sse_no_timeout|apply update_shiftx_sse_no_timeout]. }
  destruct q as [x00 x01 x10 x11 y00 y01 y10 y11].
  destruct c as [ax1 o1 f1 s1], d as [ax2 o2 f2 s2].
  cbn [pc_first pc_second] in *.
  destruct f1, s1, f2, s2; try discriminate Hi; clear Hi;
    cbv [foldM real_plane imag_plane set_planes r00 r01 r10 r11 i00 i01 i10 i11
         mbind outcome_bind];
    repeat
      (match goal with
       | E : fc ?p = _ |- context [fc ?p] => rewrite E
       | E : fd ?p = _ |- context [fd ?p] => rewrite E
       | |- context [fc ?p] =>
           pose proof (Tc p); destruct (fc p) as [[[[? ?] ?] ?]| |] eqn:?; [| |done]
       | |- context [fd ?p] =>
           pose proof (Td p); destruct (fd p) as [[[[? ?] ?] ?]| |] eqn:?; [| |done]
       end; cbv beta iota); done.
Qed.

(** Swapping two adjacent independent calls anywhere in a sequence. *)
Lemma run_pass_swap stride width height a b l1 c d l2 (q : quadrants R) :
  independent_calls c d = true ->
  foldM (run_pass stride width height a b) (l1 ++ c :: d :: l2) q =
  foldM (run_pass stride width height a b) (l1 ++ d :: c :: l2) q.
Proof.
  intros Hi. rewrite !foldM_app.
  destruct (foldM (run_pass stride width height a b) l1 q) as [q1| |]; [|done|done].
  cbn [mbind outcome_bind].
  change (c :: d :: l2) with ([c; d] ++ l2). change (d :: c :: l2) with ([d; c] ++ l2).
  rewrite !foldM_app. by rewrite (run_pass_commute _ _ _ _ _ c d).
Qed.

(** What [full_step_sse] computes is what its first eight calls followed by
    the same eight calls in reverse order compute. *)
Lemma full_step_sse_mirror stride width height a b (q : quadrants R) :
  full_step_sse stride width height a b q =
  foldM (run_pass stride width height a b) (forward_calls ++ rev forward_calls) q.
Proof.
  rewrite full_step_sse_calls.
  pose (A1 := PassCall ShiftY 0 Q00 Q10). pose (B1 := PassCall ShiftY 1 Q11 Q01).
  pose (A2 := PassCall ShiftX 0 Q00 Q01). pose (B2 := PassCall ShiftX 1 Q11 Q10).
  pose (A3 := PassCall ShiftY 0 Q01 Q11). pose (B3 := PassCall ShiftY 1 Q10 Q00).
  pose (A4 := PassCall ShiftX 0 Q10 Q11). pose (B4 := PassCall ShiftX 1 Q01 Q00).
  change full_step_calls with
    ([A1; B1; A2; B2; A3; B3; A4; B4] ++ A4 :: B4 :: [A3; B3; A2; B2; A1; B1]).
  rewrite (run_pass_swap _ _ _ _ _ _ A4 B4) by reflexivity.
  change ([A1; B1; A2; B2; A3; B3; A4; B4] ++ B4 :: A4 :: [A3; B3; A2; B2; A1; B1])
    with ([A1; B1; A2; B2; A3; B3; A4; B4; B4; A4] ++ A3 :: B3 :: [A2; B2; A1; B1]).
  rewrite (run_pass_swap _ _ _ _ _ _ A3 B3) by reflexivity.
  change ([A1; B1; A2; B2; A3; B3; A4; B4; B4; A4] ++ B3 :: A3 :: [A2; B2; A1; B1])
    with ([A1; B1; A2; B2; A3; B3; A4; B4; B4; A4; B3; A3] ++ A2 :: B2 :: [A1; B1]).
  rewrite (run_pass_swap _ _ _ _ _ _ A2 B2) by reflexivity.
  change ([A1; B1; A2; B2; A3; B3; A4; B4; B4; A4; B3; A3] ++ B2 :: A2 :: [A1; B1])
    with ([A1; B1; A2; B2; A3; B3; A4; B4; B4; A4; B3; A3; B2; A2] ++ A1 :: B1 :: []).
  rewrite (run_pass_swap _ _ _ _ _ _ A1 B1) by reflexivity.
  reflexivity.
Qed.

End FullStepFacts.

(** C2.  [full_step_sse] is made of the eight elementary calls (vertical
    shift by 0 and by 1, horizontal shift by 0 and by 1, each on two pairs
    of quadrants), grouped in four sub-steps that are run in the
    palindromic order 1 2 3 4 4 3 2 1: the four sub-steps followed by their
    mirror, sub-step 4 (horizontal) standing twice in the middle, so that
    the sequence of sub-steps reads the same in both directions.  The two
    calls of a sub-step work on disjoint quadrants, and what the routine
    computes is what the eight calls followed by the same eight calls in
    reverse order compute. *)
Theorem full_step_palindromic_order :
  forward_calls =
    [ PassCall ShiftY 0 Q00 Q10; PassCall ShiftY 1 Q11 Q01;
      PassCall ShiftX 0 Q00 Q01; PassCall ShiftX 1 Q11 Q10;
      PassCall ShiftY 0 Q01 Q11; PassCall ShiftY 1 Q10 Q00;
      PassCall ShiftX 0 Q10 Q11; PassCall ShiftX 1 Q01 Q00 ]
  /\ NoDup forward_calls
  /\ full_step_substeps =
       [substep1; substep2; substep3; substep4]
       ++ rev [substep1; substep2; substep3; substep4]
  /\ rev full_step_substeps = full_step_substeps
  /\ (full_step_substeps !! 3%nat = Some substep4
      /\ full_step_substeps !! 4%nat = Some substep4)
  /\ Forall (fun s => exists c d, s = [c; d] /\ independent_calls c d = true)
            full_step_substeps
  /\ rev (forward_calls ++ rev forward_calls) = forward_calls ++ rev forward_calls
  /\ (forall (R : Type) (SR : Scalar R) stride width height (a b : R) (q : quadrants R),
        full_step_sse stride width height a b q =
        foldM (run_pass stride width height a b) (concat full_step_substeps) q)
  /\ (forall (R : Type) (SR : Scalar R) stride width height (a b : R) (q : quadrants R),
        full_step_sse stride width height a b q =
        foldM (run_pass stride width height a b)
              (forward_calls ++ rev forward_calls) q).
Proof.
  split; [reflexivity|]. split.
  { unfold forward_calls, substep1, substep2, substep3, substep4. cbn [app].
    repeat (apply NoDup_cons_2;
            [rewrite ?elem_of_cons, elem_of_nil; intuition discriminate|]).
    apply NoDup_nil_2. }
  split; [reflexivity|]. split; [reflexivity|]. split; [by split|]. split.
  { unfold full_step_substeps.
    repeat (apply Forall_cons_2; [eexists _, _; split; reflexivity|]).
    apply Forall_nil_2. }
  split; [reflexivity|]. split.
  - intros. apply full_step_sse_calls.
  - intros. apply full_step_sse_mirror.
Qed.

(** ** The pairing of a pass *)

Lemma paired_y_at offset_y stride width height k1 k2 :
  paired_y offset_y stride width height k1 k2 <->
  paired_at offset_y 0 stride (height - offset_y) width k1 k2.
Proof.
  unfold paired_y, paired_at.
  split; intros (i & j & Hi & Hj & -> & ->); exists i, j; repeat split; lia.
Qed.

Lemma paired_x_at offset_x stride width height k1 k2 :
  paired_x offset_x stride width height k1 k2 <->
  paired_at 0 offset_x stride height (width - offset_x) k1 k2.
Proof.
  unfold paired_x, paired_at.
  split; intros (i & j & Hi & Hj & -> & ->); exists i, j; repeat split; lia.
Qed.

Lemma one_to_one_ext (P Q : Z -> Z -> Prop) :
  (forall x y, P x y <-> Q x y) -> one_to_one Q -> one_to_one P.
Proof. intros H HQ k1 k2 k1' k2' H1 H2. apply HQ; by apply H. Qed.

Lemma pairing_decided_ext (P Q : Z -> Z -> Prop) :
  (forall x y, P x y <-> Q x y) -> pairing_decided Q -> pairing_decided P.
Proof.
  intros H [H1 H2]. split; intros k.
  - destruct (H1 k) as [[k2 Hk]|Hn]; [left; exists k2; by apply H|right].
    intros k2 Hk. apply (Hn k2). by apply H.
  - destruct (H2 k) as [[k1 Hk]|Hn]; [left; exists k1; by apply H|right].
    intros k1 Hk. apply (Hn k1). by apply H.
Qed.

Lemma paired_at_one_to_one di dj stride rows cols :
  0 <= dj -> cols + dj <= stride -> one_to_one (paired_at di dj stride rows cols).
Proof.
  intros Hd Hc k1 k2 k1' k2' (i & j & Hi & Hj & -> & ->) (i' & j' & Hi' & Hj' & -> & ->).
  split; intros E.
  - apply row_major_inj in E; [|lia|lia]. destruct E as [-> ->]. done.
  - apply row_major_inj in E; [|lia|lia]. destruct E as [E1 E2].
    assert (i = i') as -> by lia. assert (j = j') as -> by lia. done.
Qed.

Lemma paired_at_decided di dj stride rows cols :
  0 <= dj -> cols + dj <= stride -> pairing_decided (paired_at di dj stride rows cols).
Proof.
  intros Hd Hc. split; intros k.
  - destruct (decide (0 < stride)) as [Hs|Hs].
    2:{ right. intros k2 (i & j & Hi & Hj & _). lia. }
    destruct (decide (0 <= k / stride < rows /\ k mod stride < cols)) as [Hk|Hk].
    + left. exists ((k / stride + di) * stride + (k mod stride + dj)).
      exists (k / stride), (k mod stride).
      pose proof (Z.mod_pos_bound k stride Hs). pose proof (Z.div_mod k stride ltac:(lia)).
      repeat split; lia.
    + right. intros k2 (i & j & Hi & Hj & E & _). apply Hk.
      assert (k = (k / stride) * stride + k mod stride) as E'
        by (rewrite Z.mul_comm; apply Z.div_mod; lia).
      rewrite E in E' at 1.
      pose proof (Z.mod_pos_bound k stride Hs).
      apply row_major_inj in E'; [|lia|lia]. lia.
  - destruct (decide (0 < stride)) as [Hs|Hs].
    2:{ right. intros k2 (i & j & Hi & Hj & _). lia. }
    destruct (decide (0 <= k / stride - di < rows /\ 0 <= k mod stride - dj < cols)) as [Hk|Hk].
    + left. exists ((k / stride - di) * stride + (k mod stride - dj)).
      exists (k / stride - di), (k mod stride - dj).
      pose proof (Z.mod_pos_bound k stride Hs). pose proof (Z.div_mod k stride ltac:(lia)).
      repeat split; lia.
    + right. intros k1 (i & j & Hi & Hj & _ & E). apply Hk.
      assert (k = (k / stride) * stride + k mod stride) as E'
        by (rewrite Z.mul_comm; apply Z.div_mod; lia).
      rewrite E in E' at 1.
      pose proof (Z.mod_pos_bound k stride Hs).
      apply row_major_inj in E'; [|lia|lia]. lia.
Qed.

Section Rotation.
Context {R : Type} {SR : Scalar R}.
Add Ring scalar_ring_rotation : (@scalar_ring R SR).
Implicit Types (a b : R) (p : planes4 R) (P : Z -> Z -> Prop).

Lemma rotation_inverse a b x1 y1 x2 y2 :
  a [*] a [+] b [*] b = s1 ->
  (let '(x1', y1', x2', y2') := rotation a b x1 y1 x2 y2 in
   rotation a (sopp b) x1' y1' x2' y2') = (x1, y1, x2, y2).
Proof.
  intros H. unfold rotation.
  assert (forall x, (a [*] a [+] b [*] b) [*] x = x) as E by (intros x; rewrite H; ring).
  f_equal; [f_equal; [f_equal|]|].
  - rewrite <- (E x1) at 3. ring.
  - rewrite <- (E y1) at 3. ring.
  - rewrite <- (E x2) at 3. ring.
  - rewrite <- (E y2) at 3. ring.
Qed.

(** Rotating every pair with [(a, b)] and then with [(a, -b)] gives back
    the four arrays. *)
Lemma rotated_inverse a b P p p' p'' :
  a [*] a [+] b [*] b = s1 ->
  pairing_decided P ->
  rotated a b P p p' -> rotated a (sopp b) P p' p'' -> p'' = p.
Proof.
  destruct p as [[[r1 i1] r2] i2], p' as [[[r1' i1'] r2'] i2'],
    p'' as [[[r1'' i1''] r2''] i2''].
  intros Hab [D1 D2] (L & Hp & H1 & H2) (L' & Hp' & H1' & H2').
  assert (forall k, get r1'' k = get r1 k /\ get i1'' k = get i1 k) as E1.
  { intros k. destruct (D1 k) as [[k2 Hk]|Hn].
    - pose proof (Hp _ _ Hk) as E. pose proof (Hp' _ _ Hk) as E'.
      pose proof (rotation_inverse a b (get r1 k) (get i1 k) (get r2 k2) (get i2 k2) Hab) as I.
      rewrite <- E in I. cbv beta iota in I. rewrite <- E' in I.
      by inversion I.
    - destruct (H1 k Hn) as [<- <-]. by apply H1'. }
  assert (forall k, get r2'' k = get r2 k /\ get i2'' k = get i2 k) as E2.
  { intros k. destruct (D2 k) as [[k1 Hk]|Hn].
    - pose proof (Hp _ _ Hk) as E. pose proof (Hp' _ _ Hk) as E'.
      pose proof (rotation_inverse a b (get r1 k1) (get i1 k1) (get r2 k) (get i2 k) Hab) as I.
      rewrite <- E in I. cbv beta iota in I. rewrite <- E' in I.
      by inversion I.
    - destruct (H2 k Hn) as [<- <-]. by apply H2'. }
  repeat f_equal; apply get_ext; try lia; intros k _; try apply E1; apply E2.
Qed.


Lemma paired_y_in_bounds offset_y stride width height p :
  0 <= offset_y -> 0 <= width <= stride -> planes_fit stride height p ->
  pairs_in_bounds (paired_y offset_y stride width height) p.
Proof.
  destruct p as [[[r1 i1] r2] i2]. intros Ho Hw (F1 & F2 & F3 & F4).
  intros k1 k2 (i & j & Hi & Hj & -> & ->).
  assert ((i + 1) * stride <= height * stride) by nia.
  assert ((i + offset_y + 1) * stride <= height * stride) by nia.
  assert (0 <= i * stride) by nia. assert (0 <= (i + offset_y) * stride) by nia.
  lia.
Qed.

Lemma paired_x_in_bounds offset_x stride width height p :
  0 <= offset_x -> 0 <= width <= stride -> planes_fit stride height p ->
  pairs_in_bounds (paired_x offset_x stride width height) p.
Proof.
  destruct p as [[[r1 i1] r2] i2]. intros Ho Hw (F1 & F2 & F3 & F4).
  intros k1 k2 (i & j & Hi & Hj & -> & ->).
  assert ((i + 1) * stride <= height * stride) by nia.
  assert (0 <= i * stride) by nia.
  lia.
Qed.

Lemma planes_fit_rotated a b P stride height p p' :
  rotated a b P p p' -> planes_fit stride height p -> planes_fit stride height p'.
Proof.
  destruct p as [[[r1 i1] r2] i2], p' as [[[r1' i1'] r2'] i2'].
  intros ((L1 & L2 & L3 & L4) & _). unfold planes_fit. lia.
Qed.

End Rotation.





(** ** The member functions that move no data *)

(** C4, as amended.  [wait_for_completion] returns the kernel it was given:
    no plane, no flag and no coefficient changes, whatever the direction of
    time; the kernel has no time-direction flag and never renormalizes. *)
Theorem wait_for_completion_changes_nothing {R : Type} {SR : Scalar R}
    (k : kernel (R := R)) :
  wait_for_completion k = k
  /\ generation (wait_for_completion k) (sense (wait_for_completion k))
     = generation k (sense k).
Proof. by split. Qed.

(** C4 as stated fails: a field of total probability 4 still has total
    probability 4 after [wait_for_completion]. *)
Lemma wait_for_completion_does_not_normalize :
  exists k : kernel (R := Z),
    CPUBlockSSEKernel 0 [2; 0; 0; 0] [0; 0; 0; 0] 1 0 2 2 0 0 = Done k
    /\ total_probability
         (generation (wait_for_completion k) (sense (wait_for_completion k))) = 4
    /\ total_probability
         (generation (wait_for_completion k) (sense (wait_for_completion k))) <> s1.
Proof.
  eexists. split; [vm_compute; reflexivity|]. split; [reflexivity|].
  vm_compute. discriminate.
Qed.

(** ** The halo exchange *)

Lemma eight_vertical call gen offset peer tag0 req0 :
  (call = MPI_Irecv \/ call = MPI_Isend) -> (peer = LEFT \/ peer = RIGHT) ->
  Forall vertical_phase (eight call gen offset verticalBorder peer tag0 req0).
Proof.
  intros Hc Hp. unfold eight.
  repeat (apply Forall_cons_2;
          [destruct Hc as [-> | ->]; eexists; (split; [reflexivity|]); by split|]).
  apply Forall_nil_2.
Qed.

Lemma eight_horizontal call gen offset peer tag0 req0 :
  (call = MPI_Irecv \/ call = MPI_Isend) -> (peer = UP \/ peer = DOWN) ->
  Forall horizontal_phase (eight call gen offset horizontalBorder peer tag0 req0).
Proof.
  intros Hc Hp. unfold eight.
  repeat (apply Forall_cons_2;
          [destruct Hc as [-> | ->]; eexists; (split; [reflexivity|]); by split|]).
  apply Forall_nil_2.
Qed.

(** C5.  [start_halo_exchange] makes 32 non-blocking calls and no wait:
    receives from the left and from the right neighbour and sends to the
    right and to the left neighbour, each over the eight planes, all of
    column strips, filling the request slots 0..31.  [finish_halo_exchange]
    begins with the wait for these 32 requests; only then come its 32
    non-blocking transfers of row strips with the upper and lower
    neighbours, again over the eight planes per direction, and it ends with
    the wait for them. *)
Theorem halo_exchange_two_phase {R : Type} {SR : Scalar R} (k : kernel (R := R)) :
  Forall vertical_phase (start_halo_exchange k)
  /\ Forall (fun c => is_waitall c = false) (start_halo_exchange k)
  /\ planes_of (recvs_from LEFT (start_halo_exchange k)) = all_planes
  /\ planes_of (recvs_from RIGHT (start_halo_exchange k)) = all_planes
  /\ planes_of (sends_to RIGHT (start_halo_exchange k)) = all_planes
  /\ planes_of (sends_to LEFT (start_halo_exchange k)) = all_planes
  /\ requests_of (start_halo_exchange k) = seqZ 0 32
  /\ exists row_phase,
       finish_halo_exchange k = MPI_Waitall 32 :: row_phase ++ [MPI_Waitall 32]
       /\ Forall horizontal_phase row_phase
       /\ planes_of (recvs_from UP row_phase) = all_planes
       /\ planes_of (recvs_from DOWN row_phase) = all_planes
       /\ planes_of (sends_to DOWN row_phase) = all_planes
       /\ planes_of (sends_to UP row_phase) = all_planes
       /\ requests_of row_phase = seqZ 0 32.
Proof.
  split.
  { unfold start_halo_exchange. repeat apply Forall_app_2; apply eight_vertical; auto. }
  split.
  { unfold start_halo_exchange, eight. cbn [app].
    repeat (apply Forall_cons_2; [reflexivity|]). apply Forall_nil_2. }
  do 5 (split; [reflexivity|]).
  eexists. split.
  { unfold finish_halo_exchange. cbn [app]. f_equal. rewrite !app_assoc. reflexivity. }
  split.
  { rewrite <- !app_assoc. repeat apply Forall_app_2; apply eight_horizontal; auto. }
  by do 4 (split; [reflexivity|]).
Qed.

(** ** The kernel calls and the two generations *)

Section Generations.
Context {R : Type} {SR : Scalar R}.
Implicit Types k : kernel (R := R).

Lemma generation_set_generation_other k s t :
  generation (set_generation k (negb s) t) s = generation k s.
Proof. destruct t as [q log]. by destruct s. Qed.

Lemma generation_set_generation_same k s q log :
  generation (set_generation k s (q, log)) s = q.
Proof. by destruct s. Qed.

Lemma generation_set_sense k s s' : generation (set_sense k s') s = generation k s.
Proof. by destruct s. Qed.

Lemma sense_set_generation k s t : sense (set_generation k s t) = sense k.
Proof. by destruct t. Qed.

End Generations.

(** C9.  A call of [run_kernel_on_halo] or of [run_kernel] that returns
    leaves the eight planes of the generation that the sense flag selected
    on entry as they were: all it writes is in the planes of the other
    generation.  [run_kernel_on_halo] leaves the flag as it was and
    [run_kernel] toggles it. *)
Theorem kernel_calls_keep_current_generation {R : Type} {SR : Scalar R}
    (fuel : nat) (k : kernel (R := R)) :
  (forall k', run_kernel_on_halo fuel k = Done k' ->
     generation k' (sense k) = generation k (sense k) /\ sense k' = sense k)
  /\ (forall k', run_kernel fuel k = Done k' ->
        generation k' (sense k) = generation k (sense k)
        /\ sense k' = negb (sense k)).
Proof.
  split; intros k' H.
  - unfold run_kernel_on_halo in H.
    apply bind_Done_inv in H as (t & _ & H). injection H as <-.
    split; [apply generation_set_generation_other|apply sense_set_generation].
  - unfold run_kernel in H.
    apply bind_Done_inv in H as ([c t] & _ & H). injection H as <-.
    split; [|cbn [sense set_sense]; by rewrite sense_set_generation].
    rewrite generation_set_sense. apply generation_set_generation_other.
Qed.

Lemma kernel_calls_keep_current_generation_witness :
  exists k0 k kh kr : kernel (R := Z),
    CPUBlockSSEKernel 0 (ramp (8 * 8)) (ramp (8 * 8)) 0 1 8 8 4 4 = Done k0
    /\ k = with_block_size 8 8 k0
    /\ run_kernel_on_halo 1 k = Done kh
    /\ run_kernel 1 k = Done kr
    /\ (generation kh (sense k) = generation k (sense k) /\ sense kh = sense k)
    /\ (generation kr (sense k) = generation k (sense k)
        /\ sense kr = negb (sense k)).
Proof.
  eexists _, _, _, _.
  split; [vm_compute; reflexivity|].
  split; [vm_compute; reflexivity|].
  split; [vm_compute; reflexivity|].
  split; [vm_compute; reflexivity|].
  match goal with
  | |- (generation ?kh (sense ?k) = _ /\ _) /\ (generation ?kr _ = _ /\ _) =>
      pose proof (kernel_calls_keep_current_generation (R := Z) 1 k) as [H1 H2];
      split; [apply (H1 kh)|apply (H2 kr)]; vm_compute; reflexivity
  end.
Defined.

(** ** [run_kernel] on a tile lower than a block *)

(** For a tile lower than a block the bound of the band loop wraps around
    and the loop is entered. *)
Lemma band_loop_entered (block_height tile_height halo_y : Z) :
  0 <= tile_height < block_height -> block_height < 2 ^ 63 ->
  0 <= 2 * halo_y <= block_height ->
  (usub block_height (2 * halo_y) <? usub tile_height block_height) = true.
Proof.
  intros Ht Hb Hh. unfold usub, SIZE_MAX1.
  apply Z.ltb_lt.
  rewrite (Z.mod_small (block_height - 2 * halo_y)) by lia.
  assert ((tile_height - block_height) mod 2 ^ 64
          = tile_height - block_height + 2 ^ 64) as ->; [|lia].
  symmetry. apply Z.mod_unique with (-1); lia.
Qed.

(** C10 fails on the code.  For a tile of 256 x 8 sites with halo 4
    (lower than the block height 128), [run_kernel] enters its band loop
    with [block_start = 120] and reads rows of the planes that do not
    exist: whatever fuel it is given, the call ends in an access outside the
    buffers. *)
Theorem run_kernel_low_tile_faults (fuel : nat) :
  (usub BLOCK_HEIGHT (2 * 4) <? usub 8 BLOCK_HEIGHT) = true
  /\ (k ← CPUBlockSSEKernel (R := Z) 0 (ramp (256 * 8)) (ramp (256 * 8))
            1 0 256 8 4 4;
      run_kernel (Datatypes.S fuel) k) = Fault.
Proof.
  split; [reflexivity|]. vm_compute. reflexivity.
Qed.

(** ** Loops that fill cells *)

Lemma before_start cols i j : ~ before cols 0 0 i j.
Proof. unfold before. lia. Qed.

Lemma before_next cols i0 j0 i j :
  0 <= i0 -> 0 <= j0 < cols ->
  before cols i0 (j0 + 1) i j <-> before cols i0 j0 i j \/ (i = i0 /\ j = j0).
Proof. unfold before. lia. Qed.

Lemma before_row_end cols i0 i j :
  before cols i0 cols i j <-> before cols (i0 + 1) 0 i j.
Proof. unfold before. lia. Qed.

Lemma before_rect rows cols i j :
  0 <= rows -> before cols rows 0 i j <-> in_rect rows cols i j.
Proof. unfold before, in_rect. lia. Qed.

(** The rule of two nested counting loops. *)
Lemma foldM_2d {S : Type} (body : Z -> Z -> S -> outcome S) (rows cols : Z)
    (Inv : Z -> Z -> S -> Prop) (s : S) :
  0 <= rows -> 0 <= cols ->
  Inv 0 0 s ->
  (forall i j s, 0 <= i < rows -> 0 <= j < cols -> Inv i j s ->
     exists s', body i j s = Done s' /\ Inv i (j + 1) s') ->
  (forall i s, 0 <= i < rows -> Inv i cols s -> Inv (i + 1) 0 s) ->
  exists s', foldM (fun i => foldM (body i) (count_up 0 cols 1))
                   (count_up 0 rows 1) s = Done s'
             /\ Inv rows 0 s'.
Proof.
  intros Hr Hc H0 Hbody Hrow.
  destruct (foldM_count_up (fun i => foldM (body i) (count_up 0 cols 1)) 0 rows 1
              (fun i s => Inv i 0 s) s) as (s' & Hf & Hs'); [lia|done| |].
  - intros i s1 Hi _ Hs1.
    destruct (foldM_count_up (body i) 0 cols 1 (fun j s => Inv i j s) s1)
      as (s2 & Hf2 & Hs2); [lia|done| |].
    + intros j s3 Hj _ Hs3. by apply Hbody.
    + exists s2. split; [done|]. rewrite count_end_unit in Hs2 by lia. by apply Hrow.
  - exists s'. split; [done|]. by rewrite count_end_unit in Hs' by lia.
Qed.

Section CopyFacts.
Context {R : Type} {SR : Scalar R}.
Implicit Types (dst d src : list R) (D : Z -> Z -> Prop).

Lemma filled_refl dst idx v : filled dst dst idx (fun _ _ => False) v.
Proof. split; [done|]. split; [tauto|done]. Qed.

Lemma filled_ext dst d idx D D' v :
  (forall i j, D i j <-> D' i j) -> filled dst d idx D v -> filled dst d idx D' v.
Proof.
  intros HD (L & Hv & Hu). split; [done|]. split.
  - intros i j Hij. apply Hv. by apply HD.
  - intros k Hk. apply Hu. intros i j Hij. apply Hk. by apply HD.
Qed.

Lemma filled_set dst d idx D v i0 j0 x :
  filled dst d idx D v ->
  (forall i j, D i j -> idx i j <> idx i0 j0) ->
  0 <= idx i0 j0 < len dst -> x = v i0 j0 ->
  filled dst (set d (idx i0 j0) x) idx (fun i j => D i j \/ (i = i0 /\ j = j0)) v.
Proof.
  intros (L & Hv & Hu) Hne Hb ->. split; [by rewrite len_set|]. split.
  - intros i j [Hij|[-> ->]].
    + rewrite get_set_ne; [by apply Hv|]. intros E. by apply (Hne i j).
    + apply get_set_eq. lia.
  - intros k Hk. rewrite get_set_ne.
    + apply Hu. intros i j Hij. apply Hk. by left.
    + intros E. apply (Hk i0 j0); [by right|done].
Qed.

(** Row-major cells of a region whose rows do not overlap are distinct. *)
Lemma row_major_before_ne base stride cols i0 j0 i j :
  cols <= stride -> 0 <= j0 < cols -> before cols i0 j0 i j ->
  base + i * stride + j <> base + i0 * stride + j0.
Proof.
  intros Hc Hj0 (Hi & Hj & Hlt) E.
  assert (i * stride + j = i0 * stride + j0) as E' by lia.
  apply row_major_inj in E'; lia.
Qed.

(** [memcpy2D] copies the rectangle and changes nothing else. *)
Lemma memcpy2D_spec dst dst_idx dstride src src_idx sstride width height :
  0 <= height -> 0 <= width / sizeof_float <= dstride / sizeof_float ->
  (forall i j, in_rect height (width / sizeof_float) i j ->
     0 <= src_idx + i * (sstride / sizeof_float) + j < len src
     /\ 0 <= dst_idx + i * (dstride / sizeof_float) + j < len dst) ->
  exists dst',
    memcpy2D dst dst_idx dstride src src_idx sstride width height = Done dst'
    /\ filled dst dst' (fun i j => dst_idx + i * (dstride / sizeof_float) + j)
         (in_rect height (width / sizeof_float))
         (fun i j => get src (src_idx + i * (sstride / sizeof_float) + j)).
Proof.
  intros Hh Hw Hb. unfold memcpy2D.
  set (W := width / sizeof_float) in *. set (DS := dstride / sizeof_float) in *.
  set (SS := sstride / sizeof_float) in *.
  destruct (foldM_2d
    (fun i j d => v ← rd src (src_idx + i * SS + j); wr d (dst_idx + i * DS + j) v)
    height W
    (fun i0 j0 d => filled dst d (fun i j => dst_idx + i * DS + j) (before W i0 j0)
                      (fun i j => get src (src_idx + i * SS + j))) dst)
    as (dst' & Hf & Hd); [lia|lia| | | |].
  - eapply filled_ext; [|apply filled_refl]. intros i j. split; [done|apply before_start].
  - intros i j d Hi Hj Hd.
    destruct (Hb i j) as [Hs Hdd]; [by split|].
    rewrite rd_in by lia. cbn [mbind outcome_bind].
    rewrite wr_in by (destruct Hd as [-> _]; lia).
    eexists. split; [reflexivity|].
    eapply filled_ext; [intros i' j'; symmetry; apply before_next; lia|].
    apply (filled_set dst d (fun i j => dst_idx + i * DS + j)); [done| |done|done].
    intros i' j' Hbf. apply row_major_before_ne with (cols := W); [lia|lia|done].
  - intros i d Hi Hd. eapply filled_ext; [|exact Hd]. intros. apply before_row_end.
  - exists dst'. split; [done|]. eapply filled_ext; [|exact Hd].
    intros. by apply before_rect.
Qed.

End CopyFacts.

(** ** The constructor and [get_sample] *)

Lemma even_half_mul (i w : Z) : w mod 2 = 0 -> i * w / 2 = i * (w / 2).
Proof.
  intros H. apply Z.mod_divide in H; [|lia]. destruct H as [q ->].
  rewrite Z.div_mul by lia. rewrite Z.mul_assoc. by rewrite Z.div_mul by lia.
Qed.

Lemma even_twice_half (w : Z) : w mod 2 = 0 -> 2 * (w / 2) = w.
Proof. lia. Qed.

Lemma quarter_cells (w h : Z) :
  w mod 2 = 0 -> h mod 2 = 0 -> w * h / 4 = (h / 2) * (w / 2).
Proof.
  intros Hw Hh. apply Z.mod_divide in Hw; [|lia]. apply Z.mod_divide in Hh; [|lia].
  destruct Hw as [p ->], Hh as [q ->]. rewrite !Z.div_mul by lia.
  replace (p * 2 * (q * 2)) with (q * p * 4) by lia. by rewrite Z.div_mul by lia.
Qed.

Section SampleFacts.
Context {R : Type} {SR : Scalar R}.

(** Writing the next cell of a plane that is being filled row by row. *)
Lemma filled_next_cell (fresh d : list R) (cols i j : Z) (v : Z -> Z -> R) (x : R) :
  filled fresh d (fun i j => i * cols + j) (before cols i j) v ->
  0 <= i -> 0 <= j < cols -> i * cols + j < len fresh -> x = v i j ->
  filled fresh (set d (i * cols + j) x) (fun i j => i * cols + j)
         (before cols i (j + 1)) v.
Proof.
  intros Hf Hi Hj Hb ->.
  eapply filled_ext; [intros i' j'; symmetry; apply before_next; lia|].
  apply (filled_set fresh d (fun i j => i * cols + j)); [done| | |done].
  - intros i' j' (Hi' & Hj' & Hlt) E. apply row_major_inj in E; lia.
  - nia.
Qed.

Lemma filled_len (dst d : list R) idx D v : filled dst d idx D v -> len d = len dst.
Proof. by intros [H _]. Qed.


Lemma site_in_field (tw th i j di dj : Z) :
  tw mod 2 = 0 -> th mod 2 = 0 -> 0 <= i < th / 2 -> 0 <= j < tw / 2 ->
  0 <= di <= 1 -> 0 <= dj <= 1 ->
  0 <= (2 * i + di) * tw + (2 * j + dj) < tw * th.
Proof.
  intros Hw Hh Hi Hj Hdi Hdj.
  rewrite <- (even_twice_half tw Hw), <- (even_twice_half th Hh).
  set (W := tw / 2) in *. set (H := th / 2) in *. nia.
Qed.

Lemma constructor_filled_ext fresh re im tw Da Db Da' Db' (q : quadrants R) :
  (forall i j, Da i j <-> Da' i j) -> (forall i j, Db i j <-> Db' i j) ->
  constructor_filled fresh re im tw Da Db q ->
  constructor_filled fresh re im tw Da' Db' q.
Proof.
  intros Ha Hb (H1 & H2 & H3 & H4 & H5 & H6 & H7 & H8).
  unfold constructor_filled.
  split_and!; first [by eapply filled_ext; [exact Ha|] | by eapply filled_ext; [exact Hb|]].
Qed.

(** The constructor returns a kernel whose generation 0 holds the field
    split by parity. *)
Lemma CPUBlockSSEKernel_spec fill (re im : list R) _a _b tw th hx hy :
  0 <= tw -> 0 <= th -> tw mod 2 = 0 -> th mod 2 = 0 ->
  tw * th <= len re -> tw * th <= len im ->
  exists q0,
    CPUBlockSSEKernel fill re im _a _b tw th hx hy =
      Done (Kernel re im _a _b tw th hx hy false q0
              (let fresh := uninitialized fill (tw * th / 4) in
               Quadrants fresh fresh fresh fresh fresh fresh fresh fresh)
              BLOCK_WIDTH BLOCK_HEIGHT 0 0 0 0 0 fill [])
    /\ planes_len q0 ((th / 2) * (tw / 2))
    /\ quadrants_of_field q0 re im (th / 2) (tw / 2).
Proof.
  intros Hw Hh Hwe Hhe Hre Him. unfold CPUBlockSSEKernel.
  replace (tw mod 2 =? 0) with true by (symmetry; by apply Z.eqb_eq).
  replace (th mod 2 =? 0) with true by (symmetry; by apply Z.eqb_eq).
  cbn [negb].
  set (fresh := uninitialized fill (tw * th / 4)).
  set (W := tw / 2). set (H := th / 2).
  assert (len fresh = H * W) as Hlen.
  { unfold fresh. rewrite len_uninitialized by lia. by apply quarter_cells. }
  match goal with
  | |- context [foldM ?f (count_up 0 H 1) ?qs] =>
      destruct (foldM_count_up f 0 H 1
                  (fun i q' => constructor_filled fresh re im tw (before W i 0) (before W i 0) q')
                  qs) as (q0 & -> & Hq0); [lia| | |]
  end.
  - unfold constructor_filled. cbn [r00 r01 r10 r11 i00 i01 i10 i11].
    split_and!; (eapply filled_ext; [|apply filled_refl]);
      intros i j; (split; [done|apply before_start]).
  - intros i q Hi _ Hq. cbv beta.
    match goal with
    | |- context [foldM ?f (count_up 0 W 1) q] =>
        destruct (foldM_count_up f 0 W 1
                    (fun j q' => constructor_filled fresh re im tw (before W i j) (before W i 0) q')
                    q) as (q1 & -> & Hq1); [lia|done| |]
    end.
    { intros j [x00 x01 x10 x11 y00 y01 y10 y11] Hj _
        (H1 & H2 & H3 & H4 & H5 & H6 & H7 & H8).
      cbn [r00 r01 r10 r11 i00 i01 i10 i11] in *.
      pose proof (site_in_field tw th i j 0 0 Hwe Hhe ltac:(lia) ltac:(lia) ltac:(lia) ltac:(lia)).
      pose proof (site_in_field tw th i j 0 1 Hwe Hhe ltac:(lia) ltac:(lia) ltac:(lia) ltac:(lia)).
      pose proof (filled_len _ _ _ _ _ H1). pose proof (filled_len _ _ _ _ _ H2).
      pose proof (filled_len _ _ _ _ _ H3). pose proof (filled_len _ _ _ _ _ H4).
      assert (0 <= i * W + j < H * W) by nia.
      rewrite (even_half_mul i tw Hwe). fold W.
      rewrite !rd_in by lia. cbn [mbind outcome_bind]. rewrite !wr_in by lia.
      cbn [mbind outcome_bind]. eexists. split; [reflexivity|].
      unfold constructor_filled. cbn [r00 r01 r10 r11 i00 i01 i10 i11].
      split_and!; try done;
        apply filled_next_cell; try done; try lia; f_equal; lia. }
    cbn [mbind outcome_bind]. rewrite count_end_unit in Hq1 by lia.
    match goal with
    | |- context [foldM ?f (count_up 0 W 1) q1] =>
        destruct (foldM_count_up f 0 W 1
                    (fun j q' => constructor_filled fresh re im tw (before W (i + 1) 0) (before W i j) q')
                    q1) as (q2 & -> & Hq2); [lia| | |]
    end.
    { eapply constructor_filled_ext; [| |exact Hq1]; [apply before_row_end|done]. }
    { intros j [x00 x01 x10 x11 y00 y01 y10 y11] Hj _
        (H1 & H2 & H3 & H4 & H5 & H6 & H7 & H8).
      cbn [r00 r01 r10 r11 i00 i01 i10 i11] in *.
      pose proof (site_in_field tw th i j 1 0 Hwe Hhe ltac:(lia) ltac:(lia) ltac:(lia) ltac:(lia)).
      pose proof (site_in_field tw th i j 1 1 Hwe Hhe ltac:(lia) ltac:(lia) ltac:(lia) ltac:(lia)).
      pose proof (filled_len _ _ _ _ _ H5). pose proof (filled_len _ _ _ _ _ H6).
      pose proof (filled_len _ _ _ _ _ H7). pose proof (filled_len _ _ _ _ _ H8).
      assert (0 <= i * W + j < H * W) by nia.
      rewrite (even_half_mul i tw Hwe). fold W.
      rewrite !rd_in by lia. cbn [mbind outcome_bind]. rewrite !wr_in by lia.
      cbn [mbind outcome_bind]. eexists. split; [reflexivity|].
      unfold constructor_filled. cbn [r00 r01 r10 r11 i00 i01 i10 i11].
      split_and!; try done;
        apply filled_next_cell; try done; try lia; f_equal; lia. }
    exists q2. split; [done|]. rewrite count_end_unit in Hq2 by lia.
    eapply constructor_filled_ext; [| |exact Hq2]; [done|apply before_row_end].
  - cbn [mbind outcome_bind]. exists q0. split; [done|].
    rewrite count_end_unit in Hq0 by lia.
    destruct Hq0 as (H1 & H2 & H3 & H4 & H5 & H6 & H7 & H8).
    split.
    + intros c. rewrite <- Hlen.
      destruct c; cbn [real_plane imag_plane]; split; by eapply filled_len.
    + intros c i j Hi Hj.
      assert (before W H 0 i j) as Hb by (unfold before; lia).
      replace (2 * W) with tw by (unfold W; lia).
      destruct c; cbn [real_plane imag_plane row_parity col_parity]; split;
        match goal with
        | Hf : filled _ ?l _ _ _ |- get ?l _ = _ =>
            destruct Hf as (_ & Hf & _); etrans; [exact (Hf i j Hb)|f_equal; lia]
        end.
Qed.


Lemma sample_filled_ext q src_stride dest_stride x y (dr di : list R) D D' d :
  (forall j i, D j i <-> D' j i) ->
  sample_filled q src_stride dest_stride x y dr di D d ->
  sample_filled q src_stride dest_stride x y dr di D' d.
Proof. intros HD [H1 H2]. split; by eapply filled_ext. Qed.

(** [get_quadrant_sample] fills the window of the destinations and changes
    nothing else in them. *)
Lemma get_quadrant_sample_spec (q : quadrants R) src_stride dest_stride x y
    width height (dest_real dest_imag : list R) :
  0 <= height -> 0 <= width <= dest_stride ->
  (forall j i, in_rect height width j i ->
     0 <= j * dest_stride + i < len dest_real
     /\ 0 <= j * dest_stride + i < len dest_imag
     /\ (forall c, 0 <= ((y + j) / 2) * src_stride + (x + i) / 2 < len (real_plane c q)
                  /\ 0 <= ((y + j) / 2) * src_stride + (x + i) / 2 < len (imag_plane c q))) ->
  exists d,
    get_quadrant_sample q src_stride dest_stride x y width height dest_real dest_imag
      = Done d
    /\ sample_filled q src_stride dest_stride x y dest_real dest_imag
         (in_rect height width) d.
Proof.
  intros Hh Hw Hb. unfold get_quadrant_sample.
  match goal with
  | |- context [foldM (fun j => foldM (@?body j) _) _ ?d0] =>
      destruct (foldM_2d body height width
        (fun j0 i0 d => sample_filled q src_stride dest_stride x y dest_real dest_imag
                          (before width j0 i0) d) d0)
        as (d & Hf & Hd); [lia|lia| | | |]
  end.
  - split; (eapply filled_ext; [|apply filled_refl]);
      intros j i; (split; [done|apply before_start]).
  - intros j i [dr di] Hj Hi [H1 H2]. cbn [fst snd] in *.
    destruct (Hb j i) as (B1 & B2 & B3); [by split|].
    fold (quadrant_of (y + j) (x + i)).
    destruct (B3 (quadrant_of (y + j) (x + i))) as [B4 B5].
    pose proof (filled_len _ _ _ _ _ H1). pose proof (filled_len _ _ _ _ _ H2).
    rewrite !rd_in by lia. cbn [mbind outcome_bind]. rewrite !wr_in by lia.
    cbn [mbind outcome_bind]. eexists. split; [reflexivity|].
    eapply sample_filled_ext; [intros j' i'; symmetry; apply before_next; lia|].
    split; cbn [fst snd];
      (apply (filled_set _ _ (fun j i => j * dest_stride + i)); [done| |done|done]);
      intros j' i' (Hj' & Hi' & Hlt) E; apply row_major_inj in E; lia.
  - intros j d Hj Hd. eapply sample_filled_ext; [|exact Hd]. intros. apply before_row_end.
  - exists d. split; [done|]. eapply sample_filled_ext; [|exact Hd].
    intros. by apply before_rect.
Qed.

End SampleFacts.

Lemma quadrant_of_parity (y x : Z) :
  y = 2 * (y / 2) + row_parity (quadrant_of y x)
  /\ x = 2 * (x / 2) + col_parity (quadrant_of y x).
Proof.
  unfold quadrant_of.
  destruct (Z.eqb_spec (y mod 2) 0), (Z.eqb_spec (x mod 2) 0);
    cbn [row_parity col_parity]; lia.
Qed.

(** C7.  For an even-sized field, the constructor returns a kernel whose
    current planes are the four parity quadrants of the field
    ([p[2i+di][2j+dj] = quadrant[di][dj][i][j]]), and [get_sample] over a
    window inside the tile returns and puts in cell [j * dest_stride + i]
    of the destinations the real and imaginary part of the site in row
    [y + j] and column [x + i] of the field, leaving the rest of the
    destinations as it was. *)
Theorem quadrant_split_round_trip {R : Type} {SR : Scalar R}
    (fill : R) (re im : list R) (_a _b : R) (tw th hx hy : Z)
    (dest_stride x y width height : Z) (dest_real dest_imag : list R) :
  0 <= tw -> 0 <= th -> tw mod 2 = 0 -> th mod 2 = 0 ->
  tw * th <= len re -> tw * th <= len im ->
  0 <= x -> 0 <= y -> 0 <= width -> 0 <= height ->
  x + width <= tw -> y + height <= th ->
  width <= dest_stride ->
  height * dest_stride <= len dest_real -> height * dest_stride <= len dest_imag ->
  exists k d,
    CPUBlockSSEKernel fill re im _a _b tw th hx hy = Done k
    /\ quadrants_of_field (generation k (sense k)) re im (th / 2) (tw / 2)
    /\ get_sample k dest_stride x y width height dest_real dest_imag = Done d
    /\ filled dest_real d.1 (fun j i => j * dest_stride + i) (in_rect height width)
         (fun j i => get re ((y + j) * tw + (x + i)))
    /\ filled dest_imag d.2 (fun j i => j * dest_stride + i) (in_rect height width)
         (fun j i => get im ((y + j) * tw + (x + i))).
Proof.
  intros Hw Hh Hwe Hhe Hre Him Hx Hy Hwd Hht Hxw Hyh Hds Hdr Hdi.
  destruct (CPUBlockSSEKernel_spec fill re im _a _b tw th hx hy)
    as (q0 & Hk & Hlen & Hq0); try done.
  eexists. rewrite Hk.
  unfold get_sample. cbn [generation sense tile_width].
  destruct (get_quadrant_sample_spec q0 (tw / 2) dest_stride x y width height
              dest_real dest_imag) as (d & Hd & H1 & H2); [lia|lia| |].
  { intros j i [Hj Hi]. split; [nia|]. split; [nia|]. intros c.
    destruct (Hlen c) as [-> ->].
    assert (0 <= (y + j) / 2 < th / 2) by lia. assert (0 <= (x + i) / 2 < tw / 2) by lia.
    nia. }
  exists d. split; [done|]. split; [done|]. split; [done|].
  assert (forall j i, in_rect height width j i ->
            get (real_plane (quadrant_of (y + j) (x + i)) q0)
                ((y + j) / 2 * (tw / 2) + (x + i) / 2) = get re ((y + j) * tw + (x + i))
            /\ get (imag_plane (quadrant_of (y + j) (x + i)) q0)
                  ((y + j) / 2 * (tw / 2) + (x + i) / 2) = get im ((y + j) * tw + (x + i)))
    as Hsite.
  { intros j i [Hj Hi].
    destruct (Hq0 (quadrant_of (y + j) (x + i)) ((y + j) / 2) ((x + i) / 2))
      as [E1 E2]; [lia|lia|].
    destruct (quadrant_of_parity (y + j) (x + i)) as [P1 P2].
    rewrite E1, E2, <- P1, <- P2. by rewrite (even_twice_half tw Hwe). }
  destruct H1 as (L1 & V1 & U1), H2 as (L2 & V2 & U2).
  split; (split; [done|split; [|done]]); intros j i Hji.
  - rewrite (V1 j i Hji). by apply Hsite.
  - rewrite (V2 j i Hji). by apply Hsite.
Qed.

Lemma quadrant_split_round_trip_witness :
  exists (k : kernel (R := Z)) d,
    CPUBlockSSEKernel 7 (ramp (6 * 4)) ((fun v => 100 + v) <$> ramp (6 * 4))
                      1 0 6 4 2 2 = Done k
    /\ quadrants_of_field (generation k (sense k)) (ramp (6 * 4))
         ((fun v => 100 + v) <$> ramp (6 * 4)) (4 / 2) (6 / 2)
    /\ get_sample k 4 1 1 3 2 (replicate 8 0) (replicate 8 0) = Done d
    /\ filled (replicate 8 0) d.1 (fun j i => j * 4 + i) (in_rect 2 3)
         (fun j i => get (ramp (6 * 4)) ((1 + j) * 6 + (1 + i)))
    /\ filled (replicate 8 0) d.2 (fun j i => j * 4 + i) (in_rect 2 3)
         (fun j i => get ((fun v => 100 + v) <$> ramp (6 * 4)) ((1 + j) * 6 + (1 + i))).
Proof.
  apply (quadrant_split_round_trip (R := Z)); try lia; try reflexivity;
    unfold len; simpl; lia.
Defined.

(** ** Locality of the full step *)

Lemma in_rectb_true rows cols i j :
  in_rectb rows cols i j = true <-> 0 <= i < rows /\ 0 <= j < cols.
Proof. unfold in_rectb. rewrite !andb_true_iff. lia. Qed.

Lemma in_rectb_false rows cols i j :
  in_rectb rows cols i j = false <-> ~ (0 <= i < rows /\ 0 <= j < cols).
Proof. rewrite <- in_rectb_true. by destruct (in_rectb rows cols i j). Qed.

Lemma quadrant_eqb_eq x y : quadrant_eqb x y = true <-> x = y.
Proof. by destruct x, y. Qed.

Lemma quadrant_eqb_refl x : quadrant_eqb x x = true.
Proof. by destruct x. Qed.

Lemma quadrant_eqb_ne x y : x <> y -> quadrant_eqb x y = false.
Proof. by destruct x, y. Qed.

Lemma upd_eq f c v : upd f c v c = v.
Proof. unfold upd. by rewrite quadrant_eqb_refl. Qed.

Lemma upd_ne f c v q : q <> c -> upd f c v q = f q.
Proof. intros H. unfold upd. by rewrite quadrant_eqb_ne. Qed.

Section Locality.
Context {R : Type} {SR : Scalar R}.
Implicit Types (B G : grid R) (m : margins) (c : pass_call).

(** One call keeps the block and the tile in agreement, on margins that
    grow by the shift of the call. *)
Lemma agree_pass a b c y0 x0 h w H W top bottom left right m B G :
  pc_first c <> pc_second c ->
  0 <= shift_rows c -> 0 <= shift_cols c ->
  0 <= y0 -> 0 <= x0 -> y0 + h <= H -> x0 + w <= W ->
  (top = true -> y0 = 0) -> (bottom = true -> y0 + h = H) ->
  (left = true -> x0 = 0) -> (right = true -> x0 + w = W) ->
  agree y0 x0 h w m B G ->
  agree y0 x0 h w (margins_pass top bottom left right c m)
        (grid_pass a b c h w B) (grid_pass a b c H W G).
Proof.
  intros Hfs Hdi Hdj Hy0 Hx0 HyH HxW Ht Hb Hl Hr Hag q i j Hi Hj Hrow Hcol.
  unfold margins_pass in Hrow, Hcol. cbn [m_top m_bottom m_left m_right] in Hrow, Hcol.
  unfold margin_before, margin_after in Hrow, Hcol.
  set (di := shift_rows c) in *. set (dj := shift_cols c) in *.
  set (f := pc_first c) in *. set (s := pc_second c) in *.
  assert (Et : forall mp, (y0 = 0 /\ mp <= 0 /\ partner_margin top mp di = 0)
                          \/ partner_margin top mp di = Z.max (mp + di) di).
  { intros mp. unfold partner_margin. destruct top; cbn [andb]; [|by right].
    destruct (Z.leb_spec mp 0); [left|right]; auto. }
  assert (Eb : forall mp, (y0 + h = H /\ mp <= 0 /\ partner_margin bottom mp di = 0)
                          \/ partner_margin bottom mp di = Z.max (mp + di) di).
  { intros mp. unfold partner_margin. destruct bottom; cbn [andb]; [|by right].
    destruct (Z.leb_spec mp 0); [left|right]; auto. }
  assert (El : forall mp, (x0 = 0 /\ mp <= 0 /\ partner_margin left mp dj = 0)
                          \/ partner_margin left mp dj = Z.max (mp + dj) dj).
  { intros mp. unfold partner_margin. destruct left; cbn [andb]; [|by right].
    destruct (Z.leb_spec mp 0); [left|right]; auto. }
  assert (Er : forall mp, (x0 + w = W /\ mp <= 0 /\ partner_margin right mp dj = 0)
                          \/ partner_margin right mp dj = Z.max (mp + dj) dj).
  { intros mp. unfold partner_margin. destruct right; cbn [andb]; [|by right].
    destruct (Z.leb_spec mp 0); [left|right]; auto. }
  clear Ht Hb Hl Hr.
  unfold grid_pass. fold di dj f s.
  destruct (decide (q = f)) as [->|Hqf].
  - rewrite quadrant_eqb_refl. cbn [andb].
    rewrite upd_ne, upd_eq in Hrow, Hcol by done.
    rewrite upd_ne, upd_eq in Hrow, Hcol by done.
    specialize (Eb (m_bottom m s)). specialize (Er (m_right m s)). clear Et El.
    destruct (in_rectb (h - di) (w - dj) i j) eqn:E1;
      destruct (in_rectb (H - di) (W - dj) (y0 + i) (x0 + j)) eqn:E2;
      [apply in_rectb_true in E1|apply in_rectb_true in E1
      |apply in_rectb_false in E1|apply in_rectb_false in E1];
      [apply in_rectb_true in E2|apply in_rectb_false in E2
      |apply in_rectb_true in E2|apply in_rectb_false in E2].
    + rewrite (Hag f i j), (Hag s (i + di) (j + dj)) by lia.
      do 2 f_equal; lia.
    + exfalso. lia.
    + exfalso. lia.
    + rewrite (quadrant_eqb_ne f s) by done. cbn [andb]. apply Hag; lia.
  - rewrite (quadrant_eqb_ne q f) by done. cbn [andb].
    destruct (decide (q = s)) as [->|Hqs].
    + rewrite quadrant_eqb_refl. cbn [andb].
      rewrite !upd_eq in Hrow, Hcol.
      specialize (Et (m_top m f)). specialize (El (m_left m f)). clear Eb Er.
      destruct (in_rectb (h - di) (w - dj) (i - di) (j - dj)) eqn:E1;
        destruct (in_rectb (H - di) (W - dj) (y0 + i - di) (x0 + j - dj)) eqn:E2;
        [apply in_rectb_true in E1|apply in_rectb_true in E1
      |apply in_rectb_false in E1|apply in_rectb_false in E1];
      [apply in_rectb_true in E2|apply in_rectb_false in E2
      |apply in_rectb_true in E2|apply in_rectb_false in E2].
      * rewrite (Hag f (i - di) (j - dj)), (Hag s i j) by lia.
        do 2 f_equal; lia.
      * exfalso. lia.
      * exfalso. lia.
      * apply Hag; lia.
    + rewrite (quadrant_eqb_ne q s) by done. cbn [andb].
      rewrite !upd_ne in Hrow, Hcol by done. apply Hag; lia.
Qed.


Lemma agree_weaken y0 x0 h w m m' B G :
  margins_le m m' -> agree y0 x0 h w m B G -> agree y0 x0 h w m' B G.
Proof.
  intros Hle Hag c i j Hi Hj Hrow Hcol. destruct (Hle c) as (? & ? & ? & ?).
  apply Hag; lia.
Qed.

Lemma well_formed_shifts c :
  well_formed_call c -> 0 <= shift_rows c <= 1 /\ 0 <= shift_cols c <= 1.
Proof. intros [_ Ho]. unfold shift_rows, shift_cols. destruct (pc_axis c); lia. Qed.

Lemma agree_passes a b l y0 x0 h w H W top bottom left right m B G :
  Forall well_formed_call l ->
  0 <= y0 -> 0 <= x0 -> y0 + h <= H -> x0 + w <= W ->
  (top = true -> y0 = 0) -> (bottom = true -> y0 + h = H) ->
  (left = true -> x0 = 0) -> (right = true -> x0 + w = W) ->
  agree y0 x0 h w m B G ->
  agree y0 x0 h w (margins_passes top bottom left right l m)
        (grid_passes a b l h w B) (grid_passes a b l H W G).
Proof.
  intros Hl Hy0 Hx0 HyH HxW Ht Hb Hlf Hr. revert m B G.
  induction Hl as [|c l Hc Hl IH]; intros m B G Hag; [done|].
  cbn [margins_passes grid_passes foldl]. apply IH.
  destruct (well_formed_shifts c Hc). destruct Hc as [Hc _].
  apply agree_pass; try done; lia.
Qed.

End Locality.

Lemma full_step_calls_well_formed : Forall well_formed_call full_step_calls.
Proof.
  unfold full_step_calls, full_step_substeps, concat, app,
    substep1, substep2, substep3, substep4.
  repeat (apply Forall_cons_2; [split; [discriminate|cbn; lia]|]).
  apply Forall_nil_2.
Qed.

(** The margins left by the sixteen calls of a full step are at most two
    cells, and none at the edges of the tile. *)
Lemma full_step_margins top bottom left right :
  margins_le (margins_passes top bottom left right full_step_calls no_margins)
             (halo_margins top bottom left right).
Proof.
  intros c. destruct top, bottom, left, right, c; vm_compute;
    repeat split; intros E; discriminate E.
Qed.

(** A block computed alone agrees with the tile two cells away from the
    edges of the block that are not edges of the tile. *)
Lemma grid_step_local {R : Type} {SR : Scalar R} (a b : R) y0 x0 h w H W
    top bottom left right (B G : grid R) :
  0 <= y0 -> 0 <= x0 -> y0 + h <= H -> x0 + w <= W ->
  (top = true -> y0 = 0) -> (bottom = true -> y0 + h = H) ->
  (left = true -> x0 = 0) -> (right = true -> x0 + w = W) ->
  agree y0 x0 h w no_margins B G ->
  agree y0 x0 h w (halo_margins top bottom left right)
        (grid_step a b h w B) (grid_step a b H W G).
Proof.
  intros. eapply agree_weaken; [apply full_step_margins|].
  apply agree_passes; try done. apply full_step_calls_well_formed.
Qed.

(** ** The passes on planes and on grids *)

Section Refinement.
Context {R : Type} {SR : Scalar R}.
Implicit Types (q : quadrants R) (c : pass_call) (g : grid R).

Lemma real_plane_set_planes (c' c : quadrant) x y q :
  real_plane c' (set_planes c x y q) = if decide (c' = c) then x else real_plane c' q.
Proof. destruct q. by destruct c', c. Qed.

Lemma imag_plane_set_planes (c' c : quadrant) x y q :
  imag_plane c' (set_planes c x y q) = if decide (c' = c) then y else imag_plane c' q.
Proof. destruct q. by destruct c', c. Qed.

Lemma same_lengths_refl q : same_lengths q q.
Proof. by intros u. Qed.

Lemma same_lengths_trans q q' q'' :
  same_lengths q q' -> same_lengths q' q'' -> same_lengths q q''.
Proof. intros H1 H2 u. destruct (H1 u), (H2 u). split; congruence. Qed.

Lemma planes_hold_same_lengths q q' n :
  same_lengths q q' -> planes_hold q n -> planes_hold q' n.
Proof. intros H1 H2 u. destruct (H1 u) as [-> ->]. apply H2. Qed.

Lemma same_columns_refl cols g : same_columns cols g g.
Proof. by intros u i j _. Qed.

Lemma same_columns_trans cols g g' g'' :
  same_columns cols g g' -> same_columns cols g' g'' -> same_columns cols g g''.
Proof. intros H1 H2 u i j Hj. by rewrite H1, H2. Qed.

(** A pass on a grid looks at the columns of the block only. *)
Lemma grid_pass_same_columns a b c h w cols g g' :
  0 <= shift_cols c -> w <= cols ->
  same_columns cols g g' ->
  same_columns cols (grid_pass a b c h w g) (grid_pass a b c h w g').
Proof.
  intros Hdj Hw Hg q i j Hj. unfold grid_pass.
  destruct (quadrant_eqb q (pc_first c)
            && in_rectb (h - shift_rows c) (w - shift_cols c) i j) eqn:E1.
  - apply andb_true_iff in E1 as [_ E1]. apply in_rectb_true in E1.
    rewrite !Hg by lia. done.
  - destruct (quadrant_eqb q (pc_second c)
              && in_rectb (h - shift_rows c) (w - shift_cols c)
                          (i - shift_rows c) (j - shift_cols c)) eqn:E2.
    + apply andb_true_iff in E2 as [_ E2]. apply in_rectb_true in E2.
      rewrite !Hg by lia. done.
    + by apply Hg.
Qed.

Lemma grid_passes_same_columns a b l h w cols g g' :
  Forall well_formed_call l -> w <= cols ->
  same_columns cols g g' ->
  same_columns cols (grid_passes a b l h w g) (grid_passes a b l h w g').
Proof.
  intros Hl Hw. revert g g'. induction Hl as [|c l Hc Hl IH]; intros g g' Hg; [done|].
  cbn [grid_passes foldl]. apply IH. apply grid_pass_same_columns; [|done|done].
  by destruct (well_formed_shifts c Hc) as [_ [? _]].
Qed.

(** From the four arrays of a call back to the grid. *)
Lemma rotated_grid_pass a b c stride width height q r1 i1 r2 i2 :
  well_formed_call c -> 0 <= width <= stride ->
  rotated a b (paired_at (shift_rows c) (shift_cols c) stride
                 (height - shift_rows c) (width - shift_cols c))
    (real_plane (pc_first c) q, imag_plane (pc_first c) q,
     real_plane (pc_second c) q, imag_plane (pc_second c) q) (r1, i1, r2, i2) ->
  let q' := set_planes (pc_second c) r2 i2 (set_planes (pc_first c) r1 i1 q) in
  same_lengths q q'
  /\ same_columns stride (grid_of q' stride)
       (grid_pass a b c height width (grid_of q stride)).
Proof.
  intros Hc Hw ((L1 & L2 & L3 & L4) & Hp & H1 & H2) q'.
  destruct (well_formed_shifts c Hc) as [Hdi Hdj]. destruct Hc as [Hfs _].
  set (di := shift_rows c) in *. set (dj := shift_cols c) in *.
  set (f := pc_first c) in *. set (s := pc_second c) in *.
  split.
  - intros c'. unfold q'. rewrite !real_plane_set_planes, !imag_plane_set_planes.
    repeat case_decide; subst; done.
  - intros c' i j Hj. unfold grid_of at 1, grid_pass. fold di dj f s. unfold q'.
    rewrite !real_plane_set_planes, !imag_plane_set_planes.
    destruct (decide (c' = s)) as [->|Hs].
    + rewrite (quadrant_eqb_ne s f) by done. rewrite quadrant_eqb_refl. cbn [andb].
      destruct (in_rectb (height - di) (width - dj) (i - di) (j - dj)) eqn:E.
      * apply in_rectb_true in E.
        assert (paired_at di dj stride (height - di) (width - dj)
                  ((i - di) * stride + (j - dj)) (i * stride + j)) as HP.
        { exists (i - di), (j - dj).
          replace (i - di + di) with i by lia. replace (j - dj + dj) with j by lia.
          repeat split; lia. }
        specialize (Hp _ _ HP). unfold rotation in Hp. unfold rotate_second, grid_of.
        cbn [fst snd]. by injection Hp as _ _ -> ->.
      * apply in_rectb_false in E. unfold grid_of.
        destruct (H2 (i * stride + j)) as [-> ->]; [|done].
        intros k1 (i' & j' & Hi' & Hj' & _ & E').
        apply row_major_inj in E'; [|lia|lia]. lia.
    + destruct (decide (c' = f)) as [->|Hf].
      * rewrite quadrant_eqb_refl. cbn [andb].
        destruct (in_rectb (height - di) (width - dj) i j) eqn:E.
        -- apply in_rectb_true in E.
           assert (paired_at di dj stride (height - di) (width - dj)
                     (i * stride + j) ((i + di) * stride + (j + dj))) as HP.
           { exists i, j. repeat split; lia. }
           specialize (Hp _ _ HP). unfold rotation in Hp. unfold rotate_first, grid_of.
           cbn [fst snd]. by injection Hp as -> -> _ _.
        -- apply in_rectb_false in E.
           rewrite (quadrant_eqb_ne f s) by done. cbn [andb]. unfold grid_of.
           destruct (H1 (i * stride + j)) as [-> ->]; [|done].
           intros k2 (i' & j' & Hi' & Hj' & E' & _).
           apply row_major_inj in E'; [|lia|lia]. lia.
      * rewrite (quadrant_eqb_ne c' f), (quadrant_eqb_ne c' s) by done. done.
Qed.

(** One call on planes that hold [height] rows of [stride] cells does what
    the call on their grid does. *)
Lemma run_pass_grid a b c stride width height q :
  well_formed_call c -> 1 <= height < SIZE_MAX1 -> 1 <= width <= stride ->
  width < SIZE_MAX1 -> planes_hold q (height * stride) ->
  exists q', run_pass stride width height a b c q = Done q'
             /\ same_lengths q q'
             /\ same_columns stride (grid_of q' stride)
                  (grid_pass a b c height width (grid_of q stride)).
Proof.
  intros Hc Hh Hw Hw2 Hq. unfold run_pass.
  set (p := (real_plane (pc_first c) q, imag_plane (pc_first c) q,
             real_plane (pc_second c) q, imag_plane (pc_second c) q)).
  assert (planes_fit stride height p) as Hfit.
  { unfold p, planes_fit. destruct (Hq (pc_first c)), (Hq (pc_second c)). lia. }
  pose proof (rotated_grid_pass a b c stride width height q) as Hg.
  unfold shift_rows, shift_cols in Hg.
  destruct Hc as [Hfs Ho]. destruct (pc_axis c) eqn:Eax.
  - destruct (update_shifty_sse_spec a b (pc_offset c) stride width height p)
      as ([[[r1 i1] r2] i2] & -> & Hr); [lia|lia|lia| |].
    { apply paired_y_in_bounds; [lia|lia|done]. }
    cbn [mbind outcome_bind]. eexists. split; [reflexivity|].
    apply Hg; [by split|lia|].
    eapply rotated_ext; [|exact Hr]. intros x y. rewrite paired_y_at.
    by replace (width - 0) with width by lia.
  - destruct (update_shiftx_sse_spec a b (pc_offset c) stride width height p)
      as ([[[r1 i1] r2] i2] & -> & Hr); [lia|lia|lia|lia| |].
    { apply paired_x_in_bounds; [lia|lia|done]. }
    cbn [mbind outcome_bind]. eexists. split; [reflexivity|].
    apply Hg; [by split|lia|].
    eapply rotated_ext; [|exact Hr]. intros x y. rewrite paired_x_at.
    by replace (height - 0) with height by lia.
Qed.

(** The full step on planes does what the full step on their grid does. *)
Lemma full_step_sse_grid a b stride width height q :
  1 <= height < SIZE_MAX1 -> 1 <= width <= stride -> width < SIZE_MAX1 ->
  planes_hold q (height * stride) ->
  exists q', full_step_sse stride width height a b q = Done q'
             /\ same_lengths q q'
             /\ same_columns stride (grid_of q' stride)
                  (grid_step a b height width (grid_of q stride)).
Proof.
  intros Hh Hw Hw2 Hq. rewrite full_step_sse_calls. unfold grid_step.
  pose proof full_step_calls_well_formed as Hl.
  generalize dependent q. induction Hl as [|c l Hc Hl IH]; intros q Hq.
  - exists q. split; [done|]. split; [apply same_lengths_refl|apply same_columns_refl].
  - cbn [foldM grid_passes foldl].
    destruct (run_pass_grid a b c stride width height q) as (q1 & -> & L1 & G1); try done.
    cbn [mbind outcome_bind].
    destruct (IH q1) as (q2 & -> & L2 & G2).
    { by eapply planes_hold_same_lengths. }
    exists q2. split; [done|]. split; [by eapply same_lengths_trans|].
    eapply same_columns_trans; [exact G2|].
    apply grid_passes_same_columns; [done|lia|done].
Qed.

End Refinement.

(** ** One block: copy in, full step, copy out *)

Lemma floats_of_bytes (n : Z) : n * sizeof_float / sizeof_float = n.
Proof. unfold sizeof_float. lia. Qed.

Section BlockFacts.
Context {R : Type} {SR : Scalar R}.
Implicit Types (q n block : quadrants R) (T : grid R).

Lemma planes_copied_lengths n n' di ds src si ss D :
  planes_copied n n' di ds src si ss D -> same_lengths n n'.
Proof. intros H u. destruct (H u) as [(L1 & _) (L2 & _)]. done. Qed.

Lemma planes_filled_lengths n n' W D T :
  planes_filled n n' W D T -> same_lengths n n'.
Proof. intros H u. destruct (H u) as [(L1 & _) (L2 & _)]. done. Qed.

(** The eight copies of one rectangle, between planes [dst] and planes
    [src], through a function that takes and returns the eight planes. *)
Lemma copy_planes (dst src : quadrants R) dst_idx dstride src_idx sstride width height :
  0 <= height -> 0 <= width <= dstride ->
  (forall i j, in_rect height width i j ->
     forall u,
       (0 <= src_idx + i * sstride + j < len (real_plane u src)
        /\ 0 <= src_idx + i * sstride + j < len (imag_plane u src))
       /\ (0 <= dst_idx + i * dstride + j < len (real_plane u dst)
           /\ 0 <= dst_idx + i * dstride + j < len (imag_plane u dst))) ->
  exists x00 y00 x01 y01 x10 y10 x11 y11,
    let cp d s := memcpy2D d dst_idx (dstride * sizeof_float) s src_idx
                    (sstride * sizeof_float) (width * sizeof_float) height in
    cp (r00 dst) (r00 src) = Done x00 /\ cp (i00 dst) (i00 src) = Done y00
    /\ cp (r01 dst) (r01 src) = Done x01 /\ cp (i01 dst) (i01 src) = Done y01
    /\ cp (r10 dst) (r10 src) = Done x10 /\ cp (i10 dst) (i10 src) = Done y10
    /\ cp (r11 dst) (r11 src) = Done x11 /\ cp (i11 dst) (i11 src) = Done y11
    /\ planes_copied dst (Quadrants x00 x01 x10 x11 y00 y01 y10 y11)
         dst_idx dstride src src_idx sstride (in_rect height width).
Proof.
  intros Hh Hw Hb.
  assert (forall d s,
    (forall i j, in_rect height width i j ->
       0 <= src_idx + i * sstride + j < len s /\ 0 <= dst_idx + i * dstride + j < len d) ->
    exists d', memcpy2D d dst_idx (dstride * sizeof_float) s src_idx
                 (sstride * sizeof_float) (width * sizeof_float) height = Done d'
               /\ filled d d' (fun i j => dst_idx + i * dstride + j) (in_rect height width)
                    (fun i j => get s (src_idx + i * sstride + j))) as Hcp.
  { intros d s Hds.
    destruct (memcpy2D_spec d dst_idx (dstride * sizeof_float) s src_idx
                (sstride * sizeof_float) (width * sizeof_float) height)
      as (d' & Hd & Hf); [lia|rewrite !floats_of_bytes; lia| |].
    - rewrite !floats_of_bytes. done.
    - exists d'. split; [done|]. by rewrite !floats_of_bytes in Hf. }
  destruct (Hcp (r00 dst) (r00 src)) as (x00 & E1 & F1);
    [intros i j Hij; destruct (Hb i j Hij Q00) as [[? ?] [? ?]]; done|].
  destruct (Hcp (i00 dst) (i00 src)) as (y00 & E2 & F2);
    [intros i j Hij; destruct (Hb i j Hij Q00) as [[? ?] [? ?]]; done|].
  destruct (Hcp (r01 dst) (r01 src)) as (x01 & E3 & F3);
    [intros i j Hij; destruct (Hb i j Hij Q01) as [[? ?] [? ?]]; done|].
  destruct (Hcp (i01 dst) (i01 src)) as (y01 & E4 & F4);
    [intros i j Hij; destruct (Hb i j Hij Q01) as [[? ?] [? ?]]; done|].
  destruct (Hcp (r10 dst) (r10 src)) as (x10 & E5 & F5);
    [intros i j Hij; destruct (Hb i j Hij Q10) as [[? ?] [? ?]]; done|].
  destruct (Hcp (i10 dst) (i10 src)) as (y10 & E6 & F6);
    [intros i j Hij; destruct (Hb i j Hij Q10) as [[? ?] [? ?]]; done|].
  destruct (Hcp (r11 dst) (r11 src)) as (x11 & E7 & F7);
    [intros i j Hij; destruct (Hb i j Hij Q11) as [[? ?] [? ?]]; done|].
  destruct (Hcp (i11 dst) (i11 src)) as (y11 & E8 & F8);
    [intros i j Hij; destruct (Hb i j Hij Q11) as [[? ?] [? ?]]; done|].
  exists x00, y00, x01, y01, x10, y10, x11, y11. cbv zeta.
  split_and!; try done.
  intros u. destruct u; cbn [real_plane imag_plane r00 r01 r10 r11 i00 i01 i10 i11]; done.
Qed.

(** [read_block] copies the rectangle of [rows] rows and [cols] columns at
    [read_idx] of the planes into the corner of the scratch block. *)
Lemma read_block_spec block block_stride q read_idx matrix_stride cols rows :
  0 <= rows -> 0 <= cols <= block_stride ->
  (forall i j, in_rect rows cols i j ->
     forall u,
       (0 <= read_idx + i * matrix_stride + j < len (real_plane u q)
        /\ 0 <= read_idx + i * matrix_stride + j < len (imag_plane u q))
       /\ (0 <= 0 + i * block_stride + j < len (real_plane u block)
           /\ 0 <= 0 + i * block_stride + j < len (imag_plane u block))) ->
  exists block',
    read_block block (block_stride * sizeof_float) q read_idx
      (matrix_stride * sizeof_float) (cols * sizeof_float) rows = Done block'
    /\ planes_copied block block' 0 block_stride q read_idx matrix_stride
         (in_rect rows cols).
Proof.
  intros Hr Hc Hb.
  destruct (copy_planes block q 0 block_stride read_idx matrix_stride cols rows Hr Hc Hb)
    as (x00 & y00 & x01 & y01 & x10 & y10 & x11 & y11 & H). cbv zeta in H.
  destruct H as (E1 & E2 & E3 & E4 & E5 & E6 & E7 & E8 & Hcp).
  unfold read_block. rewrite E1, E2, E3, E4, E5, E6, E7, E8. cbn [mbind outcome_bind].
  eexists. split; [reflexivity|exact Hcp].
Qed.

(** [write_block] copies a rectangle of the scratch block into the planes
    being written and records the region. *)
Lemma write_block_spec n log write_idx matrix_stride block block_read_idx
    block_stride cols rows :
  0 <= rows -> 0 <= cols <= matrix_stride ->
  (forall i j, in_rect rows cols i j ->
     forall u,
       (0 <= block_read_idx + i * block_stride + j < len (real_plane u block)
        /\ 0 <= block_read_idx + i * block_stride + j < len (imag_plane u block))
       /\ (0 <= write_idx + i * matrix_stride + j < len (real_plane u n)
           /\ 0 <= write_idx + i * matrix_stride + j < len (imag_plane u n))) ->
  exists n',
    write_block (n, log) write_idx (matrix_stride * sizeof_float) block block_read_idx
      (block_stride * sizeof_float) (cols * sizeof_float) rows
      = Done (n', log ++ [Footprint write_idx matrix_stride cols rows])
    /\ planes_copied n n' write_idx matrix_stride block block_read_idx block_stride
         (in_rect rows cols).
Proof.
  intros Hr Hc Hb.
  destruct (copy_planes n block write_idx matrix_stride block_read_idx block_stride
              cols rows Hr Hc Hb)
    as (x00 & y00 & x01 & y01 & x10 & y10 & x11 & y11 & H). cbv zeta in H.
  destruct H as (E1 & E2 & E3 & E4 & E5 & E6 & E7 & E8 & Hcp).
  unfold write_block. rewrite E1, E2, E3, E4, E5, E6, E7, E8. cbn [mbind outcome_bind].
  rewrite !floats_of_bytes.
  eexists. split; [reflexivity|exact Hcp].
Qed.


Lemma filled_reindex (dst d : list R) idx idx' (D D' : Z -> Z -> Prop) v v' :
  filled dst d idx D v ->
  (forall i j, D' i j -> exists i' j', D i' j' /\ idx' i j = idx i' j' /\ v' i j = v i' j') ->
  (forall i' j', D i' j' -> exists i j, D' i j /\ idx' i j = idx i' j') ->
  filled dst d idx' D' v'.
Proof.
  intros (L & Hv & Hu) H1 H2. split; [done|]. split.
  - intros i j Hij. destruct (H1 i j Hij) as (i' & j' & HD & -> & ->). by apply Hv.
  - intros k Hk. apply Hu. intros i' j' HD E.
    destruct (H2 i' j' HD) as (i & j & HD' & E'). apply (Hk i j HD'). congruence.
Qed.

Lemma cell_in_tile (H W i j : Z) :
  0 <= i < H -> 0 <= j < W -> 0 <= i * W + j < H * W.
Proof. intros. nia. Qed.

(** One block: the rectangle of [h] rows and [w] columns at row [y0] and
    column [x0] of the current planes is copied into the scratch block, the
    full step is run on it, and the part of the result that lies two cells
    inside the edges of the block (or at an edge of the tile) is copied
    to the same place of the planes being written.  There it is the full
    step [T] of the whole tile. *)
Lemma block_step_spec a b (cur : quadrants R) H W T block S_b n log
    y0 x0 h w wo co wh cw top bottom left right :
  T = grid_step a b H W (grid_of cur W) ->
  planes_len cur (H * W) -> planes_len n (H * W) -> planes_hold block (h * S_b) ->
  1 <= h < SIZE_MAX1 -> 1 <= w <= S_b -> w < SIZE_MAX1 ->
  0 <= y0 -> y0 + h <= H -> 0 <= x0 -> x0 + w <= W ->
  (top = true -> y0 = 0) -> (bottom = true -> y0 + h = H) ->
  (left = true -> x0 = 0) -> (right = true -> x0 + w = W) ->
  0 <= wh -> 0 <= cw ->
  edge top 2 <= wo -> wo + wh <= h - edge bottom 2 ->
  edge left 2 <= co -> co + cw <= w - edge right 2 ->
  exists block1 block2 n',
    read_block block (S_b * sizeof_float) cur (y0 * W + x0) (W * sizeof_float)
      (w * sizeof_float) h = Done block1
    /\ full_step_sse S_b w h a b block1 = Done block2
    /\ write_block (n, log) ((y0 + wo) * W + (x0 + co)) (W * sizeof_float) block2
         (wo * S_b + co) (S_b * sizeof_float) (cw * sizeof_float) wh
       = Done (n', log ++ [Footprint ((y0 + wo) * W + (x0 + co)) W cw wh])
    /\ same_lengths block block2
    /\ planes_filled n n' W (in_box (y0 + wo) (y0 + wo + wh) (x0 + co) (x0 + co + cw)) T.
Proof.
  intros HT Hcur Hn Hblock Hh Hw Hw2 Hy0 HyH Hx0 HxW Ht Hb Hl Hr Hwh Hcw Hwo Hwo2 Hco Hco2.
  assert (0 <= edge top 2 /\ 0 <= edge bottom 2 /\ 0 <= edge left 2 /\ 0 <= edge right 2)
    as (? & ? & ? & ?) by (destruct top, bottom, left, right; cbn; lia).
  destruct (read_block_spec block S_b cur (y0 * W + x0) W w h)
    as (block1 & E1 & C1); [lia|lia| |].
  { intros i j [Hi Hj] u. destruct (Hcur u) as [-> ->]. destruct (Hblock u).
    pose proof (cell_in_tile H W (y0 + i) (x0 + j) ltac:(lia) ltac:(lia)).
    pose proof (cell_in_tile h S_b i j ltac:(lia) ltac:(lia)). lia. }
  pose proof (planes_copied_lengths _ _ _ _ _ _ _ _ C1) as L1.
  destruct (full_step_sse_grid a b S_b w h block1)
    as (block2 & E2 & L2 & G2); [lia|lia|lia|by eapply planes_hold_same_lengths|].
  pose proof (same_lengths_trans _ _ _ L1 L2) as L12.
  pose proof (planes_hold_same_lengths _ _ _ L12 Hblock) as Hblock2.
  destruct (write_block_spec n log ((y0 + wo) * W + (x0 + co)) W block2
              (wo * S_b + co) S_b cw wh) as (n' & E3 & C3); [lia|lia| |].
  { intros i j [Hi Hj] u. destruct (Hn u) as [-> ->]. destruct (Hblock2 u).
    pose proof (cell_in_tile H W (y0 + wo + i) (x0 + co + j) ltac:(lia) ltac:(lia)).
    pose proof (cell_in_tile h S_b (wo + i) (co + j) ltac:(lia) ltac:(lia)). lia. }
  exists block1, block2, n'. split; [done|]. split; [done|]. split; [done|].
  split; [done|].
  assert (agree y0 x0 h w (halo_margins top bottom left right)
            (grid_step a b h w (grid_of block1 S_b)) T) as Hag.
  { subst T. apply grid_step_local; try done.
    intros u i j Hi Hj _ _. unfold grid_of.
    destruct (C1 u) as [(_ & V1 & _) (_ & V2 & _)].
    specialize (V1 i j ltac:(split; lia)). specialize (V2 i j ltac:(split; lia)).
    cbv beta in V1, V2.
    replace (i * S_b + j) with (0 + i * S_b + j) by lia.
    replace ((y0 + i) * W + (x0 + j)) with (y0 * W + x0 + i * W + j) by lia.
    by rewrite V1, V2. }
  assert (forall u i j, in_rect wh cw i j ->
            (get (real_plane u block2) (wo * S_b + co + i * S_b + j),
             get (imag_plane u block2) (wo * S_b + co + i * S_b + j))
            = T u (y0 + wo + i) (x0 + co + j)) as Hval.
  { intros u i j [Hi Hj].
    replace (wo * S_b + co + i * S_b + j) with ((wo + i) * S_b + (co + j)) by lia.
    change (grid_of block2 S_b u (wo + i) (co + j) = T u (y0 + wo + i) (x0 + co + j)).
    rewrite G2 by lia.
    replace (y0 + wo + i) with (y0 + (wo + i)) by lia.
    replace (x0 + co + j) with (x0 + (co + j)) by lia.
    apply Hag; cbn [halo_margins m_top m_bottom m_left m_right]; lia. }
  intros u. destruct (C3 u) as [F1 F2].
  split.
  - eapply filled_reindex; [exact F1| |].
    + intros i j [Hi Hj]. exists (i - (y0 + wo)), (j - (x0 + co)).
      split; [split; lia|]. split; [lia|].
      pose proof (Hval u (i - (y0 + wo)) (j - (x0 + co)) ltac:(split; lia)) as Hv.
      replace (y0 + wo + (i - (y0 + wo))) with i in Hv by lia.
      replace (x0 + co + (j - (x0 + co))) with j in Hv by lia.
      by rewrite <- Hv.
    + intros i j [Hi Hj]. exists (y0 + wo + i), (x0 + co + j).
      split; [split; lia|lia].
  - eapply filled_reindex; [exact F2| |].
    + intros i j [Hi Hj]. exists (i - (y0 + wo)), (j - (x0 + co)).
      split; [split; lia|]. split; [lia|].
      pose proof (Hval u (i - (y0 + wo)) (j - (x0 + co)) ltac:(split; lia)) as Hv.
      replace (y0 + wo + (i - (y0 + wo))) with i in Hv by lia.
      replace (x0 + co + (j - (x0 + co))) with j in Hv by lia.
      by rewrite <- Hv.
    + intros i j [Hi Hj]. exists (y0 + wo + i), (x0 + co + j).
      split; [split; lia|lia].
Qed.

End BlockFacts.

(** ** Loops with a [size_t] counter *)

Lemma count_up_nil (lo hi step : Z) :
  0 < step -> hi <= lo -> count_up lo hi step = [] /\ count_end lo hi step = lo.
Proof.
  intros Hs Hl. unfold count_up, count_end.
  assert ((hi - lo + step - 1) / step <= 0) as Hn.
  { apply Z.lt_succ_r. apply Z.div_lt_upper_bound; lia. }
  replace (Z.to_nat ((hi - lo + step - 1) / step)) with 0%nat by lia.
  split; [done|lia].
Qed.

Lemma count_up_cons (lo hi step : Z) :
  0 < step -> lo < hi ->
  count_up lo hi step = lo :: count_up (lo + step) hi step
  /\ count_end lo hi step = count_end (lo + step) hi step
  /\ (Z.to_nat ((hi - lo + step - 1) / step)
      = Datatypes.S (Z.to_nat ((hi - (lo + step) + step - 1) / step)))%nat.
Proof.
  intros Hs Hl. unfold count_up, count_end.
  assert ((hi - lo + step - 1) / step = (hi - (lo + step) + step - 1) / step + 1) as E.
  { replace (hi - lo + step - 1) with (hi - (lo + step) + step - 1 + 1 * step) by lia.
    by rewrite Z.div_add by lia. }
  assert (0 <= (hi - (lo + step) + step - 1) / step) as Hn by (apply Z.div_pos; lia).
  set (n := Z.to_nat ((hi - (lo + step) + step - 1) / step)).
  assert (Z.to_nat ((hi - lo + step - 1) / step) = Datatypes.S n) as -> by lia.
  split; [|split; [lia|done]].
  cbn [seq map]. f_equal; [lia|].
  rewrite <- seq_shift, map_map. apply map_ext. intros k. lia.
Qed.

(** With enough fuel, and a counter that stays below 2^64, the loop runs
    its body for the values of [count_up] and leaves with [count_end]. *)
Lemma loop_size_t_count_up {S : Type} (fuel : nat) (lo bound step : Z)
    (body : Z -> S -> outcome S) (s : S) :
  0 < step -> 0 <= lo -> bound + step <= SIZE_MAX1 ->
  (Z.to_nat ((bound - lo + step - 1) / step) < fuel)%nat ->
  loop_size_t fuel lo bound step body s =
  (s' ← foldM body (count_up lo bound step) s;
   Done (count_end lo bound step, s')).
Proof.
  intros Hs. revert lo s. induction fuel as [|fuel IH]; intros lo s Hlo Hb Hf; [lia|].
  cbn [loop_size_t]. destruct (Z.ltb_spec lo bound) as [Hlt|Hge].
  - destruct (count_up_cons lo bound step Hs Hlt) as (-> & -> & En).
    cbn [foldM]. destruct (body lo s) as [s1| |]; cbn [mbind outcome_bind]; [|done|done].
    rewrite uadd_small by (unfold SIZE_MAX1 in *; lia).
    apply IH; lia.
  - destruct (count_up_nil lo bound step Hs Hge) as (-> & ->). done.
Qed.

(** ** The record of writes *)

Lemma writes_at_nil k : writes_at [] k = 0.
Proof. done. Qed.

Lemma writes_at_app log log' k :
  writes_at (log ++ log') k = writes_at log k + writes_at log' k.
Proof. unfold writes_at. rewrite List.filter_app, length_app. lia. Qed.

Lemma writes_at_one fp k : writes_at [fp] k = if covers fp k then 1 else 0.
Proof. unfold writes_at. cbn [List.filter]. by destruct (covers fp k). Qed.

(** A region written by [write_block] covers the cells of its box. *)
Lemma covers_box (r c W cw wh i j : Z) :
  0 <= c -> 0 <= cw -> c + cw <= W -> 0 <= j < W ->
  covers (Footprint (r * W + c) W cw wh) (i * W + j) = true
  <-> in_box r (r + wh) c (c + cw) i j.
Proof.
  intros Hc Hcw0 Hcw Hj. unfold covers, in_box. cbn [fp_idx fp_stride fp_width fp_height].
  rewrite !andb_true_iff, Z.leb_le, !Z.ltb_lt.
  destruct (Z.lt_ge_cases j c) as [Hlt|Hge].
  - replace (i * W + j - (r * W + c)) with ((W + j - c) + (i - r - 1) * W) by lia.
    rewrite Z.mod_add, Z.div_add by lia.
    rewrite Z.mod_small, Z.div_small by lia. lia.
  - replace (i * W + j - (r * W + c)) with ((j - c) + (i - r) * W) by lia.
    rewrite Z.mod_add, Z.div_add by lia.
    rewrite Z.mod_small, Z.div_small by lia. nia.
Qed.

Section ProgressFacts.
Context {R : Type} {SR : Scalar R}.
Implicit Types (n : quadrants R) (T : grid R) (D : Z -> Z -> Prop).

Lemma filled_then (dst d d' : list R) idx D D' v :
  filled dst d idx D v -> filled d d' idx D' v ->
  (forall i j i' j', D i j -> D' i' j' -> idx i j <> idx i' j') ->
  filled dst d' idx (region_union D D') v.
Proof.
  intros (L & Hv & Hu) (L' & Hv' & Hu') Hne. split; [congruence|]. split.
  - intros i j [Hij|Hij]; [|by apply Hv'].
    rewrite Hu'; [by apply Hv|]. intros i' j' Hij'. by apply Hne.
  - intros k Hk. rewrite Hu'.
    + apply Hu. intros i j Hij. apply Hk. by left.
    + intros i j Hij. apply Hk. by right.
Qed.

Lemma planes_filled_ext n n' W D D' T :
  (forall i j, D i j <-> D' i j) -> planes_filled n n' W D T -> planes_filled n n' W D' T.
Proof. intros HD H u. destruct (H u). split; by eapply filled_ext. Qed.

Lemma planes_filled_refl n W T : planes_filled n n W (fun _ _ => False) T.
Proof. intros u. split; apply filled_refl. Qed.

Lemma planes_filled_then n n' n'' W D D' T :
  0 <= W -> region_in_columns W D -> region_in_columns W D' -> regions_disjoint D D' ->
  planes_filled n n' W D T -> planes_filled n' n'' W D' T ->
  planes_filled n n'' W (region_union D D') T.
Proof.
  intros HW HD HD' Hdis H1 H2 u. destruct (H1 u) as [F1 F2], (H2 u) as [F1' F2'].
  assert (forall i j i' j', D i j -> D' i' j' -> i * W + j <> i' * W + j') as Hne.
  { intros i j i' j' Hij Hij' E. pose proof (HD _ _ Hij). pose proof (HD' _ _ Hij').
    apply row_major_inj in E; [|lia|lia]. destruct E as [-> ->]. by eapply Hdis. }
  split; by eapply filled_then.
Qed.

Lemma written_once_ext log W D D' :
  (forall i j, D i j <-> D' i j) -> written_once log W D -> written_once log W D'.
Proof.
  intros HD H i j Hj. destruct (H i j Hj) as [H1 H2]. split; intros Hd.
  - apply H1. by apply HD.
  - apply H2. intros Hd'. apply Hd. by apply HD.
Qed.

Lemma written_once_nil W : written_once [] W (fun _ _ => False).
Proof. intros i j Hj. split; [done|]. intros _. apply writes_at_nil. Qed.

(** One more box, apart from what has been written. *)
Lemma written_once_box log W D r c cw wh :
  0 <= c -> 0 <= cw -> c + cw <= W ->
  regions_disjoint D (in_box r (r + wh) c (c + cw)) ->
  written_once log W D ->
  written_once (log ++ [Footprint (r * W + c) W cw wh]) W
               (region_union D (in_box r (r + wh) c (c + cw))).
Proof.
  intros Hc Hcw0 Hcw Hdis H i j Hj. destruct (H i j Hj) as [H1 H2].
  rewrite writes_at_app, writes_at_one.
  pose proof (covers_box r c W cw wh i j Hc Hcw0 Hcw Hj) as Hcov.
  destruct (covers (Footprint (r * W + c) W cw wh) (i * W + j)) eqn:E.
  - assert (in_box r (r + wh) c (c + cw) i j) as Hbox by by apply Hcov.
    split; [|intros Hn; exfalso; apply Hn; by right].
    intros _. rewrite H2; [done|]. intros Hd. by eapply Hdis.
  - assert (~ in_box r (r + wh) c (c + cw) i j) as Hbox
      by (intros Hb; apply Hcov in Hb; discriminate).
    split.
    + intros [Hd|Hb]; [|done]. rewrite H1 by done. lia.
    + intros Hn. rewrite H2; [lia|]. intros Hd. apply Hn. by left.
Qed.

Lemma progress_start n log W T : progress n log W T (fun _ _ => False) (n, log).
Proof.
  split; [apply planes_filled_refl|]. exists []. split; [by rewrite app_nil_r|].
  apply written_once_nil.
Qed.

Lemma progress_ext n0 log0 W T D D' t :
  (forall i j, D i j <-> D' i j) -> progress n0 log0 W T D t -> progress n0 log0 W T D' t.
Proof.
  intros HD [H1 (new & H2 & H3)]. split; [by eapply planes_filled_ext|].
  exists new. split; [done|by eapply written_once_ext].
Qed.

Lemma progress_lengths n0 log0 W T D t :
  progress n0 log0 W T D t -> same_lengths n0 t.1.
Proof. intros [H _]. by eapply planes_filled_lengths. Qed.

(** Progress by one box. *)
Lemma progress_box n0 log0 W T D n log n' r c cw wh :
  0 <= W -> 0 <= c -> 0 <= cw -> c + cw <= W ->
  region_in_columns W D ->
  regions_disjoint D (in_box r (r + wh) c (c + cw)) ->
  progress n0 log0 W T D (n, log) ->
  planes_filled n n' W (in_box r (r + wh) c (c + cw)) T ->
  progress n0 log0 W T (region_union D (in_box r (r + wh) c (c + cw)))
           (n', log ++ [Footprint (r * W + c) W cw wh]).
Proof.
  intros HW Hc Hcw0 Hcw HD Hdis [H1 (new & H2 & H3)] Hbox. cbn [fst snd] in *. split.
  - cbn [fst]. eapply planes_filled_then; try done.
    intros i j [_ Hj]. lia.
  - exists (new ++ [Footprint (r * W + c) W cw wh]). cbn [snd].
    split; [by rewrite H2, app_assoc|]. by apply written_once_box.
Qed.

End ProgressFacts.

(** ** One band *)

Lemma edge_cases (shared : bool) (d : Z) :
  (shared = true /\ edge shared d = 0) \/ (shared = false /\ edge shared d = d).
Proof. destruct shared; auto. Qed.

Lemma edge_half (shared : bool) : edge shared 4 / 2 = edge shared 2.
Proof. by destruct shared. Qed.

Lemma count_end_next (lo hi step c : Z) :
  0 < step -> lo <= c < hi -> (c - lo) mod step = 0 ->
  c + step <= count_end lo hi step.
Proof.
  intros Hs Hc Hm. unfold count_end.
  apply Z.mod_divide in Hm; [|lia]. destruct Hm as [m Hm].
  assert (m + 1 <= (hi - lo + step - 1) / step) as Hq
    by (apply Z.div_le_lower_bound; nia).
  rewrite Z2Nat.id by nia. nia.
Qed.

Lemma count_end_bounds (hi step : Z) :
  0 < step -> 0 < hi ->
  step <= count_end step hi step /\ hi <= count_end step hi step < hi + step.
Proof.
  intros Hs Hh. unfold count_end.
  replace (hi - step + step - 1) with (hi - 1) by lia.
  pose proof (Z.div_mod (hi - 1) step ltac:(lia)) as E.
  pose proof (Z.mod_pos_bound (hi - 1) step Hs) as B.
  assert (0 <= (hi - 1) / step) as P by (apply Z.div_pos; lia).
  rewrite Z2Nat.id by done.
  revert E B P. generalize ((hi - 1) / step), ((hi - 1) mod step). intros q r E B P. nia.
Qed.

Lemma count_end_empty (hi step : Z) :
  0 < step -> hi <= 0 -> count_end step hi step = step.
Proof.
  intros Hs Hh. unfold count_end.
  replace (hi - step + step - 1) with (hi - 1) by lia.
  assert ((hi - 1) / step < 0) by (apply Z.div_lt_upper_bound; lia).
  rewrite Z2Nat.nonpos by lia. lia.
Qed.

Lemma count_end_even (hi step : Z) :
  0 < step -> step mod 2 = 0 -> count_end step hi step mod 2 = 0.
Proof.
  intros Hs He. unfold count_end.
  generalize (Z.of_nat (Z.to_nat ((hi - step + step - 1) / step))). intros n.
  replace (step + step * n) with ((step / 2 * (1 + n)) * 2) by lia.
  apply Z.mod_mul. lia.
Qed.

(** The last block of a wide band starts after the tile minus one block
    and leaves at least two halos. *)
Lemma last_block_start_bounds bw tw hx :
  0 < bw - 2 * hx -> bw < tw ->
  tw - bw < last_block_start bw tw hx <= tw - 2 * hx
  /\ bw - 2 * hx <= last_block_start bw tw hx.
Proof.
  intros Hs Hw. unfold last_block_start.
  pose proof (Z.div_mod (tw - bw) (bw - 2 * hx) ltac:(lia)) as E.
  pose proof (Z.mod_pos_bound (tw - bw) (bw - 2 * hx) Hs) as B.
  assert (0 <= (tw - bw) / (bw - 2 * hx)) as P by (apply Z.div_pos; lia).
  revert E B P. generalize ((tw - bw) / (bw - 2 * hx)), ((tw - bw) mod (bw - 2 * hx)).
  intros q r E B P. nia.
Qed.

Lemma last_block_start_half bw tw hx :
  bw mod 2 = 0 ->
  last_block_start bw tw hx = 2 * (((tw - bw) / (bw - 2 * hx) + 1) * (bw / 2 - hx)).
Proof.
  intros Hbw. unfold last_block_start.
  replace (bw - 2 * hx) with (2 * (bw / 2 - hx)) at 2 by lia. ring.
Qed.

(** The loop over the middle blocks ends at or before the start of the
    last block; without a gap, at its start; with a gap, one step short
    of it. *)
Lemma middle_blocks_end_bounds bw tw hx :
  0 < bw - 2 * hx -> bw < tw ->
  bw - 2 * hx <= middle_blocks_end bw tw hx <= last_block_start bw tw hx
  /\ tw - bw <= middle_blocks_end bw tw hx.
Proof.
  intros Hs Hw. unfold middle_blocks_end, last_block_start, count_end.
  replace (tw - bw - (bw - 2 * hx) + (bw - 2 * hx) - 1) with (tw - bw - 1) by lia.
  pose proof (Z.div_mod (tw - bw) (bw - 2 * hx) ltac:(lia)) as E.
  pose proof (Z.mod_pos_bound (tw - bw) (bw - 2 * hx) Hs) as B.
  pose proof (Z.div_mod (tw - bw - 1) (bw - 2 * hx) ltac:(lia)) as E'.
  pose proof (Z.mod_pos_bound (tw - bw - 1) (bw - 2 * hx) Hs) as B'.
  assert (0 <= (tw - bw - 1) / (bw - 2 * hx)) as P' by (apply Z.div_pos; lia).
  assert (0 <= (tw - bw) / (bw - 2 * hx)) as P by (apply Z.div_pos; lia).
  rewrite Z2Nat.id by done.
  revert E B E' B' P P'.
  generalize ((tw - bw) / (bw - 2 * hx)), ((tw - bw) mod (bw - 2 * hx)),
    ((tw - bw - 1) / (bw - 2 * hx)), ((tw - bw - 1) mod (bw - 2 * hx)).
  revert Hs. generalize (bw - 2 * hx), (tw - bw).
  intros s hi Hs q r q' r' E B E' B' P P'.
  assert (q' <= q) by nia. nia.
Qed.

Lemma middle_blocks_end_no_gap bw tw hx :
  0 < bw - 2 * hx -> bw < tw -> (tw - bw) mod (bw - 2 * hx) <> 0 ->
  middle_blocks_end bw tw hx = last_block_start bw tw hx.
Proof.
  intros Hs Hw Hg. unfold middle_blocks_end, count_end, last_block_start.
  pose proof (Z.div_mod (tw - bw) (bw - 2 * hx) ltac:(lia)) as E.
  pose proof (Z.mod_pos_bound (tw - bw) (bw - 2 * hx) Hs) as B.
  replace (tw - bw - (bw - 2 * hx) + (bw - 2 * hx) - 1) with (tw - bw - 1) by lia.
  assert ((tw - bw - 1) / (bw - 2 * hx) = (tw - bw) / (bw - 2 * hx)) as ->.
  { symmetry. apply Z.div_unique with ((tw - bw) mod (bw - 2 * hx) - 1); lia. }
  assert (0 <= (tw - bw) / (bw - 2 * hx)) by (apply Z.div_pos; lia).
  rewrite Z2Nat.id by done. ring.
Qed.

Lemma middle_blocks_end_gap bw tw hx :
  0 < bw - 2 * hx -> bw < tw -> (tw - bw) mod (bw - 2 * hx) = 0 ->
  middle_blocks_end bw tw hx = tw - bw
  /\ last_block_start bw tw hx = tw - bw + (bw - 2 * hx).
Proof.
  intros Hs Hw Hg. unfold middle_blocks_end, last_block_start.
  apply Z.mod_divide in Hg; [|lia]. destruct Hg as [m Hm]. rewrite Hm.
  rewrite Z.div_mul by lia. split; [|ring].
  unfold count_end.
  replace (m * (bw - 2 * hx) - (bw - 2 * hx) + (bw - 2 * hx) - 1)
    with ((bw - 2 * hx - 1) + (m - 1) * (bw - 2 * hx)) by ring.
  rewrite Z.div_add by lia. rewrite Z.div_small by lia.
  rewrite Z2Nat.id by nia. ring.
Qed.

(** A middle block ends at or before the start of the last block. *)
Lemma middle_block_fits bw tw hx c :
  0 < bw - 2 * hx -> bw mod 2 = 0 ->
  bw - 2 * hx <= c < tw - bw -> (c - (bw - 2 * hx)) mod (bw - 2 * hx) = 0 ->
  c mod 2 = 0 /\ c + (bw - 2 * hx) <= last_block_start bw tw hx.
Proof.
  intros Hs Hbw Hc Hm. unfold last_block_start.
  apply Z.mod_divide in Hm; [|lia]. destruct Hm as [m Hm].
  assert (c = (m + 1) * (bw - 2 * hx)) as -> by lia. split.
  - replace (bw - 2 * hx) with ((bw / 2 - hx) * 2) by lia.
    by rewrite Z.mul_assoc, Z.mod_mul.
  - assert (m + 1 <= (tw - bw) / (bw - 2 * hx)); [|nia].
    apply Z.div_le_lower_bound; lia.
Qed.

(** A counting loop with nonnegative start runs at most [hi] times. *)
Lemma count_up_iterations_le (lo hi step : Z) :
  0 < step -> 0 <= lo ->
  (Z.to_nat ((hi - lo + step - 1) / step) <= Z.to_nat hi)%nat.
Proof.
  intros Hs Hlo.
  destruct (Z.lt_ge_cases (hi - lo + step - 1) step) as [Hlt|Hge].
  - destruct (Z.lt_ge_cases (hi - lo + step - 1) 0) as [Hn|Hp].
    + assert ((hi - lo + step - 1) / step < 0) by (apply Z.div_lt_upper_bound; lia).
      rewrite Z2Nat.nonpos by lia. lia.
    + rewrite Z.div_small by lia. cbn. lia.
  - apply Z2Nat.inj_le; [apply Z.div_pos; lia|lia|].
    apply Z.div_le_upper_bound; [done|]. nia.
Qed.

Section BandFacts.
Context {R : Type} {SR : Scalar R}.
Implicit Types (n cur block : quadrants R) (T : grid R) (D : Z -> Z -> Prop).

Lemma planes_hold_scratch (x : R) (bw bh h : Z) :
  0 <= bw -> 0 <= h <= bh / 2 ->
  let scratch := uninitialized x ((bh / 2) * (bw / 2)) in
  planes_hold (Quadrants scratch scratch scratch scratch scratch scratch scratch scratch)
              (h * (bw / 2)).
Proof.
  intros Hbw Hh scratch u.
  assert (0 <= bw / 2) as Hb by lia. assert (0 <= bh / 2) as Hc by lia.
  assert (len scratch = (bh / 2) * (bw / 2)) as E.
  { unfold scratch. apply len_uninitialized.
    clear -Hb Hc. revert Hb Hc. generalize (bw / 2), (bh / 2). intros; nia. }
  destruct u; cbn [real_plane imag_plane r00 r01 r10 r11 i00 i01 i10 i11];
    fold scratch; rewrite E; clear E; revert Hb Hh;
    generalize (bw / 2), (bh / 2); intros; nia.
Qed.

Lemma planes_len_same_lengths n n' N :
  same_lengths n n' -> planes_len n N -> planes_len n' N.
Proof. intros H1 H2 u. destruct (H1 u) as [-> ->]. apply H2. Qed.

(** One block of a band, as the code addresses it: the rows and columns
    written by the block are added to the part of the tile computed so
    far. *)
Lemma block_progress a b cur H W n0 log0 D block S_b n log
    y0 x0 h w wo co wh cw top bottom left right ri rw wi bri ww :
  let T := grid_step a b H W (grid_of cur W) in
  ri = y0 * W + x0 -> rw = w * sizeof_float ->
  wi = (y0 + wo) * W + (x0 + co) -> bri = wo * S_b + co -> ww = cw * sizeof_float ->
  planes_len cur (H * W) -> planes_len n0 (H * W) -> planes_hold block (h * S_b) ->
  1 <= h < SIZE_MAX1 -> 1 <= w <= S_b -> w < SIZE_MAX1 ->
  0 <= y0 -> y0 + h <= H -> 0 <= x0 -> x0 + w <= W ->
  (top = true -> y0 = 0) -> (bottom = true -> y0 + h = H) ->
  (left = true -> x0 = 0) -> (right = true -> x0 + w = W) ->
  0 <= wh -> 0 <= cw ->
  edge top 2 <= wo -> wo + wh <= h - edge bottom 2 ->
  edge left 2 <= co -> co + cw <= w - edge right 2 ->
  region_in_columns W D ->
  regions_disjoint D (in_box (y0 + wo) (y0 + wo + wh) (x0 + co) (x0 + co + cw)) ->
  progress n0 log0 W T D (n, log) ->
  exists block1 block2 t',
    read_block block (S_b * sizeof_float) cur ri (W * sizeof_float) rw h = Done block1
    /\ full_step_sse S_b w h a b block1 = Done block2
    /\ write_block (n, log) wi (W * sizeof_float) block2 bri (S_b * sizeof_float) ww wh
       = Done t'
    /\ same_lengths block block2
    /\ progress n0 log0 W T
         (region_union D (in_box (y0 + wo) (y0 + wo + wh) (x0 + co) (x0 + co + cw))) t'.
Proof.
  intros T -> -> -> -> -> Hcur Hn0 Hblock Hh Hw Hw' Hy0 Hy1 Hx0 Hx1 Ht Hb Hl Hr
    Hwh Hcw Hwo Hwo' Hco Hco' HD Hdis Hp.
  pose proof (progress_lengths _ _ _ _ _ _ Hp) as Ln. cbn [fst] in Ln.
  destruct (block_step_spec a b cur H W T block S_b n log y0 x0 h w
              wo co wh cw top bottom left right)
    as (b1 & b2 & n' & E1 & E2 & E3 & L & F); try done.
  { by eapply planes_len_same_lengths. }
  exists b1, b2, (n', log ++ [Footprint ((y0 + wo) * W + (x0 + co)) W cw wh]).
  split_and!; try done.
  destruct (edge_cases left 2) as [[_ El]|[_ El]];
    destruct (edge_cases right 2) as [[_ Er]|[_ Er]];
    eapply progress_box; try done; lia.
Qed.

(** The rows of a band, in cells of a quadrant plane. *)
Lemma band_rows bh th read_y read_height write_offset write_height top bottom :
  th mod 2 = 0 -> bh mod 2 = 0 ->
  band_ok bh th read_y read_height write_offset write_height top bottom ->
  let y0 := read_y / 2 in
  let h := read_height / 2 in
  let wo := write_offset / 2 in
  let wh := write_height / 2 in
  (0 <= y0 /\ 1 <= h <= bh / 2 /\ y0 + h <= th / 2)
  /\ ((top = true -> y0 = 0) /\ (bottom = true -> y0 + h = th / 2))
  /\ (0 <= wh /\ edge top 2 <= wo /\ wo + wh <= h - edge bottom 2)
  /\ (read_y + write_offset) / 2 = y0 + wo.
Proof.
  intros Hthe Hbhe ((Hrye & Hrhe & Hwoe & Hwhe) & Hry & Hrh & Hryh & Hwh & Htop & Hbot
                    & Hwo & Hwo2).
  cbv zeta.
  destruct (edge_cases top 4) as [[Et1 Et2]|[Et1 Et2]];
    destruct (edge_cases bottom 4) as [[Eb1 Eb2]|[Eb1 Eb2]];
    pose proof (edge_half top) as Et3; pose proof (edge_half bottom) as Eb3;
    rewrite Et2 in *; rewrite Eb2 in *; subst top bottom.
  all: split_and!; try lia; try done.
  all: intros _; try specialize (Htop eq_refl); try specialize (Hbot eq_refl); lia.
Qed.

(** A band of a tile that is at most one block wide. *)
Lemma process_band_narrow a b x fuel cur n0 log0 D t bw bh tw th hx hy
    read_y read_height write_offset write_height top bottom inner sides :
  let W := tw / 2 in
  let H := th / 2 in
  let T := grid_step a b H W (grid_of cur W) in
  tiling_ok bw bh tw th hx hy ->
  band_ok bh th read_y read_height write_offset write_height top bottom ->
  tw <= bw ->
  planes_len cur (H * W) -> planes_len n0 (H * W) ->
  region_in_columns W D ->
  regions_disjoint D (band_region bw tw hx read_y write_offset write_height inner sides) ->
  progress n0 log0 W T D t ->
  exists t',
    process_band_sse x fuel read_y read_height write_offset write_height
      bw bh tw hx a b cur t inner sides = Done t'
    /\ progress n0 log0 W T
         (region_union D
            (band_region bw tw hx read_y write_offset write_height inner sides)) t'.
Proof.
  intros W H T Hok Hband Hnarrow Hcur Hn0 HD Hdis Hp.
  destruct Hok as ((Htw & Htwe & Htwb) & (Hth & Hthe & Hthb) & (Hbwe & Hbwb)
                   & (Hbhe & Hbhb) & (Hhx & Hhxe & Hhxb) & (Hhy & Hhye & Hhyb)).
  destruct (band_rows _ _ _ _ _ _ _ _ Hthe Hbhe Hband)
    as ((Hy0 & Hh & Hy1) & (Htop & Hbot) & (Hwh & Hwo & Hwo') & Erow).
  assert ((tw <=? bw) = true) as Eleb by (by apply Z.leb_le).
  assert (1 <= W <= bw / 2) as HW by (unfold W; lia).
  assert (bh / 2 < 2 ^ 62 /\ W < 2 ^ 62) as [Hbh2 HW2] by (unfold W; lia).
  unfold band_region, band_cols, side_cols, inner_cols in *. rewrite Eleb, Erow in *.
  unfold process_band_sse. cbv zeta. rewrite Eleb.
  fold W H in Hy1, Hbot, Hdis |- *. clearbody W H. clear Hband.
  revert Hy0 Hh Hy1 Htop Hbot Hwh Hwo Hwo' Hdis.
  generalize (read_y / 2), (read_height / 2), (write_offset / 2), (write_height / 2).
  intros y0 h wo wh Hy0 Hh Hy1 Htop Hbot Hwh Hwo Hwo' Hdis.
  destruct sides.
  - destruct t as [n log].
    destruct (block_progress a b cur H W n0 log0 D
             (let scratch := uninitialized x ((bh / 2) * (bw / 2)) in
              Quadrants scratch scratch scratch scratch scratch scratch scratch scratch)
             (bw / 2) n log y0 0 h W wo 0 wh W top bottom true true
             (y0 * W) (W * sizeof_float) ((y0 + wo) * W) (wo * (bw / 2)) (W * sizeof_float))
        as (b1 & b2 & t' & E1 & E2 & E3 & L & F);
      [lia|done|lia|lia|done|done|done
      |apply planes_hold_scratch; lia
      |unfold SIZE_MAX1; lia|lia|unfold SIZE_MAX1; lia
      |done|done|done|lia|done|done|done|intros; lia
      |done|lia|done|done|cbn; lia|cbn; lia|done| |done|].
    { intros i j Hi Hj. apply (Hdis i j Hi). unfold in_box in Hj.
      split; [lia|left; split; [done|lia]]. }
    cbv zeta in E1. rewrite E1. cbn [mbind outcome_bind].
    rewrite E2. cbn [mbind outcome_bind]. rewrite E3.
    eexists. split; [reflexivity|].
    eapply progress_ext; [|exact F].
    intros i j. unfold region_union, in_box.
    split; [intros [?|?]; [by left|right; split; [lia|left; split; [done|lia]]]
           |intros [?|[? [[_ ?]|[_ []]]]]; [by left|right; lia]].
  - exists t. split; [done|]. eapply progress_ext; [|exact Hp].
    intros i j. unfold region_union.
    split; [by left|]. intros [?|[_ [[? _]|[_ ?]]]]; done.
Qed.

(** The first and the last block of a band wider than a block. *)
Lemma process_sides_spec a b cur n0 log0 D n log block bw bh tw th hx hy
    read_y read_height write_offset write_height top bottom :
  let W := tw / 2 in
  let H := th / 2 in
  let T := grid_step a b H W (grid_of cur W) in
  tiling_ok bw bh tw th hx hy ->
  band_ok bh th read_y read_height write_offset write_height top bottom ->
  bw < tw ->
  planes_len cur (H * W) -> planes_len n0 (H * W) ->
  planes_hold block (read_height / 2 * (bw / 2)) ->
  region_in_columns W D ->
  regions_disjoint D (band_region bw tw hx read_y write_offset write_height false true) ->
  progress n0 log0 W T D (n, log) ->
  exists block' t',
    process_sides_sse read_y read_height write_offset write_height
      bw bh tw hx a b cur (n, log) block = Done (block', t')
    /\ same_lengths block block'
    /\ progress n0 log0 W T
         (region_union D
            (band_region bw tw hx read_y write_offset write_height false true)) t'.
Proof.
  intros W H T Hok Hband Hwide Hcur Hn0 Hblock HD Hdis Hp.
  destruct Hok as ((Htw & Htwe & Htwb) & (Hth & Hthe & Hthb) & (Hbwe & Hbwb)
                   & (Hbhe & Hbhb) & (Hhx & Hhxe & Hhxb) & (Hhy & Hhye & Hhyb)).
  destruct (band_rows _ _ _ _ _ _ _ _ Hthe Hbhe Hband)
    as ((Hy0 & Hh & Hy1) & (Htop & Hbot) & (Hwh & Hwo & Hwo') & Erow).
  assert ((tw <=? bw) = false) as Eleb by (by apply Z.leb_gt).
  pose proof (last_block_start_bounds bw tw hx ltac:(lia) Hwide) as HL.
  pose proof (last_block_start_half bw tw hx Hbwe) as HLe.
  assert (bh / 2 < 2 ^ 62) as Hbh2 by lia.
  unfold band_region, band_cols, side_cols, inner_cols in *. rewrite Eleb, Erow in *.
  unfold process_sides_sse. cbv zeta.
  rewrite (usub_small tw bw), (usub_small bw (2 * hx)), (usub_small bw hx)
    by (unfold SIZE_MAX1; lia).
  change (((tw - bw) / (bw - 2 * hx) + 1) * (bw - 2 * hx))
    with (last_block_start bw tw hx).
  revert HL HLe Hdis. generalize (last_block_start bw tw hx), ((tw - bw) / (bw - 2 * hx) + 1).
  intros L q HL HLe Hdis.
  rewrite (usub_small (tw / 2) (L / 2)), (usub_small (tw / 2 - L / 2) (hx / 2))
    by (unfold SIZE_MAX1; lia).
  fold W H in Hy1, Hbot, Hdis |- *. clear Hband.
  revert Hy0 Hh Hy1 Htop Hbot Hwh Hwo Hwo' Hdis Hblock.
  generalize (read_y / 2), (read_height / 2), (write_offset / 2), (write_height / 2).
  intros y0 h wo wh Hy0 Hh Hy1 Htop Hbot Hwh Hwo Hwo' Hdis Hblock.
  (* First block *)
  destruct (block_progress a b cur H W n0 log0 D block
             (bw / 2) n log y0 0 h (bw / 2) wo 0 wh ((bw - hx) / 2) top bottom true false
             (y0 * W) (bw / 2 * sizeof_float) ((y0 + wo) * W) (wo * (bw / 2))
             ((bw - hx) / 2 * sizeof_float))
    as (b1 & b2 & [n1 log1] & E1 & E2 & E3 & L1 & F1);
    [lia|done|lia|lia|done|done|done|done
    |unfold SIZE_MAX1; lia|lia|unfold SIZE_MAX1; lia
    |done|done|done|unfold W; lia|done|done|done|intros; done
    |done|lia|done|done|cbn; lia|cbn; lia|done| |done|].
  { intros i j Hi Hj. apply (Hdis i j Hi). unfold in_box in Hj.
    split; [lia|left; split; [done|left; lia]]. }
  cbv zeta in E1. rewrite E1. cbn [mbind outcome_bind].
  rewrite E2. cbn [mbind outcome_bind]. rewrite E3. cbn [mbind outcome_bind].
  (* Last block *)
  destruct (block_progress a b cur H W n0 log0
             (region_union D (in_box (y0 + wo) (y0 + wo + wh) (0 + 0)
                                (0 + 0 + (bw - hx) / 2))) b2
             (bw / 2) n1 log1 y0 (L / 2) h (W - L / 2) wo (hx / 2) wh
             (W - L / 2 - hx / 2) top bottom false true
             (y0 * W + L / 2) ((W - L / 2) * sizeof_float)
             ((y0 + wo) * W + (L + hx) / 2) (wo * (bw / 2) + hx / 2)
             ((W - L / 2 - hx / 2) * sizeof_float))
    as (b3 & b4 & t' & E4 & E5 & E6 & L2 & F2);
    [done|done|lia|done|done|done|done|by eapply planes_hold_same_lengths
    |unfold SIZE_MAX1; lia|unfold W; lia|unfold W, SIZE_MAX1; lia
    |done|done|lia|lia|done|done|intros; done|intros; lia
    |done|unfold W; lia|done|done|cbn; lia|cbn; lia| | |exact F1|].
  { intros i j [Hi|Hi]; [by eapply HD|]. unfold in_box in Hi. unfold W. lia. }
  { intros i j [Hi|Hi] Hj.
    - apply (Hdis i j Hi). unfold in_box in Hj.
      split; [lia|left; split; [done|right; unfold W in *; lia]].
    - unfold in_box in Hi, Hj. unfold W in *. lia. }
  cbv zeta in E4. rewrite E4. cbn [mbind outcome_bind].
  rewrite E5. cbn [mbind outcome_bind]. rewrite E6. cbn [mbind outcome_bind].
  exists b4, t'. split; [done|]. split; [by eapply same_lengths_trans|].
  eapply progress_ext; [|exact F2].
  intros i j. unfold region_union, in_box. unfold W.
  split.
  - intros [[?|?]|?]; [by left|right; split; [lia|left; split; [done|left; lia]]
                      |right; split; [lia|left; split; [done|right; lia]]].
  - intros [?|[? [[_ [?|?]]|[? _]]]]; [left; by left|left; right; lia|right; lia|done].
Qed.

(** A band of a tile wider than a block. *)
Lemma process_band_wide a b x fuel cur n0 log0 D t bw bh tw th hx hy
    read_y read_height write_offset write_height top bottom inner sides :
  let W := tw / 2 in
  let H := th / 2 in
  let T := grid_step a b H W (grid_of cur W) in
  tiling_ok bw bh tw th hx hy ->
  band_ok bh th read_y read_height write_offset write_height top bottom ->
  bw < tw ->
  (Z.to_nat tw < fuel)%nat ->
  planes_len cur (H * W) -> planes_len n0 (H * W) ->
  region_in_columns W D ->
  regions_disjoint D (band_region bw tw hx read_y write_offset write_height inner sides) ->
  progress n0 log0 W T D t ->
  exists t',
    process_band_sse x fuel read_y read_height write_offset write_height
      bw bh tw hx a b cur t inner sides = Done t'
    /\ progress n0 log0 W T
         (region_union D
            (band_region bw tw hx read_y write_offset write_height inner sides)) t'.
Proof.
  intros W H T Hok Hband Hwide Hfuel Hcur Hn0 HD Hdis Hp.
  set (scratch := uninitialized x ((bh / 2) * (bw / 2))).
  set (block := Quadrants scratch scratch scratch scratch scratch scratch scratch scratch).
  set (rows := fun i : Z =>
         (read_y + write_offset) / 2 <= i
         < (read_y + write_offset) / 2 + write_height / 2).
  assert ((tw <=? bw) = false) as Eleb by (by apply Z.leb_gt).
  (* The first and the last block *)
  assert (exists block1 t1,
             (if sides
              then process_sides_sse read_y read_height write_offset write_height
                     bw bh tw hx a b cur t block
              else Done (block, t)) = Done (block1, t1)
             /\ planes_hold block1 (read_height / 2 * (bw / 2))
             /\ progress n0 log0 W T
                  (region_union D
                     (fun i j => rows i /\ sides = true /\ side_cols bw tw hx j)) t1)
    as (block1 & t1 & E1 & Hb1 & Hp1).
  { assert (planes_hold block (read_height / 2 * (bw / 2))) as Hblock.
    { destruct Hok as (_ & (_ & Hthe & _) & (Hbwe & _) & (Hbhe & _) & (Hhx & _ & Hhxb) & _).
      destruct (band_rows _ _ _ _ _ _ _ _ Hthe Hbhe Hband) as ((_ & Hh & _) & _).
      apply planes_hold_scratch; lia. }
    destruct sides.
    - destruct t as [n log].
      destruct (process_sides_spec a b cur n0 log0 D n log block bw bh tw th hx hy
                  read_y read_height write_offset write_height top bottom)
        as (block1 & t1 & E & L & P); try done.
      { intros i j Hi [Hr [[_ Hc]|[? _]]]; [|done].
        apply (Hdis i j Hi). split; [done|]. left. by split. }
      exists block1, t1. split; [done|]. split; [by eapply planes_hold_same_lengths|].
      eapply progress_ext; [|exact P].
      intros i j. unfold region_union, band_region, band_cols. fold (rows i).
      split; (intros [?|?]; [by left|right]); [|tauto].
      destruct H0 as [? [[_ ?]|[? _]]]; done.
    - exists block, t. split; [done|]. split; [done|].
      eapply progress_ext; [|exact Hp].
      intros i j. unfold region_union. split; [by left|]. intros [?|(_ & ? & _)]; done. }
  unfold process_band_sse. cbv zeta. rewrite Eleb. fold scratch block.
  rewrite E1. cbn [mbind outcome_bind].
  destruct inner.
  2:{ exists t1. split; [done|]. eapply progress_ext; [|exact Hp1].
      intros i j. unfold region_union, band_region, band_cols. fold (rows i).
      split; (intros [?|?]; [by left|right]); [tauto|].
      destruct H0 as [? [[? ?]|[? _]]]; done. }
  (* The blocks in the middle *)
  destruct Hok as ((Htw & Htwe & Htwb) & (Hth & Hthe & Hthb) & (Hbwe & Hbwb)
                   & (Hbhe & Hbhb) & (Hhx & Hhxe & Hhxb) & (Hhy & Hhye & Hhyb)).
  destruct (band_rows _ _ _ _ _ _ _ _ Hthe Hbhe Hband)
    as ((Hy0 & Hh & Hy1) & (Htop & Hbot) & (Hwh & Hwo & Hwo') & Erow).
  pose proof (last_block_start_bounds bw tw hx ltac:(lia) Hwide) as HL.
  pose proof (middle_blocks_end_bounds bw tw hx ltac:(lia) Hwide) as HE.
  assert (forall c, bw - 2 * hx <= c < tw - bw -> (c - (bw - 2 * hx)) mod (bw - 2 * hx) = 0 ->
                    c + (bw - 2 * hx) <= middle_blocks_end bw tw hx) as Hstep.
  { intros c Hc Hm. apply count_end_next; [lia|done|done]. }
  pose proof (middle_block_fits bw tw hx) as Hmid.
  assert (bh / 2 < 2 ^ 62) as Hbh2 by lia.
  assert (region_in_columns W
            (region_union D (fun i j => rows i /\ sides = true /\ side_cols bw tw hx j)))
    as HD1.
  { intros i j [Hi|(_ & _ & Hj)]; [by eapply HD|].
    unfold side_cols in Hj. rewrite Eleb in Hj. unfold W. lia. }
  assert (regions_disjoint
            (region_union D (fun i j => rows i /\ sides = true /\ side_cols bw tw hx j))
            (fun i j => rows i /\ inner_cols bw tw hx j)) as Hdis1.
  { intros i j [Hi|(_ & _ & Hi)] [Hr Hj].
    - apply (Hdis i j Hi). split; [done|]. right. by split.
    - unfold side_cols, inner_cols in *. rewrite Eleb in *. lia. }
  match goal with
  | |- exists t', ?X = Done t' /\ _ =>
      cut (exists t', X = Done t'
             /\ progress n0 log0 W T
                  (region_union
                     (region_union D
                        (fun i j => rows i /\ sides = true /\ side_cols bw tw hx j))
                     (fun i j => rows i /\ inner_cols bw tw hx j)) t')
  end.
  { intros (t' & E & P). exists t'. split; [done|]. eapply progress_ext; [|exact P].
    intros i j. unfold region_union, band_region, band_cols, rows. tauto. }
  revert Hp1 HD1 Hdis1.
  generalize (region_union D
                (fun i j => rows i /\ sides = true /\ side_cols bw tw hx j)).
  intros D1 Hp1 HD1 Hdis1. subst rows. cbv beta in Hdis1 |- *.
  unfold inner_cols in Hdis1 |- *. rewrite Eleb, Erow in *.
  rewrite (usub_small tw bw), (usub_small bw (2 * hx)) by (unfold SIZE_MAX1; lia).
  set (E := middle_blocks_end bw tw hx) in *.
  revert HL HE Hmid Hdis1. generalize (last_block_start bw tw hx).
  intros L HL HE Hmid Hdis1.
  fold W H in Hy1, Hbot |- *. clear Hband Hdis E1 Hp.
  revert Hy0 Hh Hy1 Htop Hbot Hwh Hwo Hwo' Hdis1 Hb1.
  generalize (read_y / 2), (read_height / 2), (write_offset / 2), (write_height / 2).
  intros y0 h wo wh Hy0 Hh Hy1 Htop Hbot Hwh Hwo Hwo' Hdis1 Hb1.
  rewrite loop_size_t_count_up;
    [|lia|lia|unfold SIZE_MAX1; lia
     |apply Nat.le_lt_trans with (Z.to_nat (tw - bw));
        [apply count_up_iterations_le; lia|lia]].
  match goal with
  | |- context [foldM ?f (count_up ?lo ?hi ?st) ?s0] =>
      destruct (foldM_count_up f lo hi st
                  (fun c (s : quadrants R * target R) =>
                     planes_hold s.1 (h * (bw / 2))
                     /\ progress n0 log0 W T
                          (region_union D1
                             (in_box (y0 + wo) (y0 + wo + wh)
                                ((bw - hx) / 2) ((c + hx) / 2))) s.2) s0)
        as ([block' t'] & Ef & _ & Hp')
  end.
  - lia.
  - cbn [fst snd]. split; [done|]. eapply progress_ext; [|exact Hp1].
    intros i j. unfold region_union, in_box. split; [by left|].
    intros [?|?]; [done|lia].
  - intros c [blk [n log]] Hc Hm [Hblk Hpc]. cbn [fst snd] in Hblk, Hpc.
    destruct (Hmid c ltac:(lia) Hbwe Hc Hm) as [Hce HcL].
    pose proof (Hstep c Hc Hm) as HcE.
    destruct (block_progress a b cur H W n0 log0
                (region_union D1
                   (in_box (y0 + wo) (y0 + wo + wh) ((bw - hx) / 2) ((c + hx) / 2)))
                blk (bw / 2) n log y0 (c / 2) h (bw / 2) wo (hx / 2) wh
                ((bw - 2 * hx) / 2) top bottom false false
                (y0 * W + c / 2) (bw / 2 * sizeof_float)
                ((y0 + wo) * W + (c + hx) / 2) (wo * (bw / 2) + hx / 2)
                ((bw - 2 * hx) / 2 * sizeof_float))
      as (b1 & b2 & t2 & E4 & E5 & E6 & L2 & F2);
      [done|done|lia|done|done|done|done|done
      |unfold SIZE_MAX1; lia|lia|unfold SIZE_MAX1; lia
      |done|done|lia|unfold W; lia|done|done|intros; done|intros; done
      |done|lia|done|done|cbn; lia|cbn; lia| | |exact Hpc|].
    { intros i j [Hi|Hi]; [by eapply HD1|]. unfold in_box in Hi. unfold W. lia. }
    { intros i j [Hi|Hi] Hj.
      - apply (Hdis1 i j Hi). unfold in_box in Hj. lia.
      - unfold in_box in Hi, Hj. lia. }
    cbv zeta in E4. rewrite E4. cbn [mbind outcome_bind].
    rewrite E5. cbn [mbind outcome_bind]. rewrite E6. cbn [mbind outcome_bind].
    eexists. split; [reflexivity|]. cbn [fst snd].
    split; [by eapply planes_hold_same_lengths|].
    eapply progress_ext; [|exact F2].
    intros i j. unfold region_union, in_box.
    split; [intros [[?|?]|?]; [by left|right; lia|right; lia]|].
    intros [?|?]; [left; by left|].
    destruct (Z.lt_ge_cases j ((c + hx) / 2)); [left; right; lia|right; lia].
  - rewrite Ef. cbn [mbind outcome_bind]. exists t'. split; [done|].
    cbn [snd] in Hp'.
    change (count_end (bw - 2 * hx) (tw - bw) (bw - 2 * hx)) with E in Hp'.
    eapply progress_ext; [|exact Hp'].
    intros i j. unfold region_union, in_box. tauto.
Qed.

End BandFacts.

(** ** The bands of a step *)

(** The columns of the middle blocks are an interval [c0 <= j < c1], the
    columns of the first and last block are those before [c0] and from
    some [c2] on, and the gap is what lies between [c1] and [c2]. *)
Lemma tiling_cols bw bh tw th hx hy :
  tiling_ok bw bh tw th hx hy ->
  exists c0 c1 c2,
    (0 <= c0 <= c1 /\ c1 <= c2 <= tw / 2)
    /\ (forall j, inner_cols bw tw hx j <-> c0 <= j < c1)
    /\ (forall j, side_cols bw tw hx j <-> (0 <= j < c0 \/ c2 <= j < tw / 2))
    /\ (forall j, gap_cols bw tw hx j <-> c1 <= j < c2)
    /\ (no_gap bw tw hx -> c1 = c2).
Proof.
  intros ((Htw & Htwe & Htwb) & _ & (Hbwe & Hbwb) & _ & (Hhx & Hhxe & Hhxb) & _).
  unfold inner_cols, side_cols, gap_cols, no_gap.
  destruct (Z.leb_spec tw bw) as [Hn|Hw].
  - exists (tw / 2), (tw / 2), (tw / 2). split; [lia|]. split_and!; intros; lia.
  - pose proof (last_block_start_bounds bw tw hx ltac:(lia) Hw) as HL.
    pose proof (last_block_start_half bw tw hx Hbwe) as HLe.
    pose proof (middle_blocks_end_bounds bw tw hx ltac:(lia) Hw) as HE.
    pose proof (middle_blocks_end_no_gap bw tw hx ltac:(lia) Hw) as HN.
    assert (middle_blocks_end bw tw hx mod 2 = 0) as HEe
      by (apply count_end_even; lia).
    exists ((bw - hx) / 2), ((middle_blocks_end bw tw hx + hx) / 2),
      ((last_block_start bw tw hx + hx) / 2).
    revert HL HLe HE HN HEe.
    generalize (last_block_start bw tw hx), ((tw - bw) / (bw - 2 * hx) + 1),
      (middle_blocks_end bw tw hx).
    intros L q E HL HLe HE HN HEe. split; [lia|]. split_and!; intros; lia.
Qed.

(** The rows at which the loop over the middle bands ends. *)
Lemma tiling_rows bw bh tw th hx hy :
  tiling_ok bw bh tw th hx hy -> bh <= th ->
  middle_bands_end bh th hy mod 2 = 0
  /\ bh - 2 * hy <= middle_bands_end bh th hy <= th - 2 * hy
  /\ th - bh <= middle_bands_end bh th hy.
Proof.
  intros (_ & (Hth & Hthe & Hthb) & _ & (Hbhe & Hbhb) & _ & (Hhy & Hhye & Hhyb)) Hle.
  unfold middle_bands_end. split; [apply count_end_even; lia|].
  destruct (Z.eq_dec th bh) as [->|Hne].
  - rewrite count_end_empty by lia. lia.
  - pose proof (count_end_bounds (th - bh) (bh - 2 * hy) ltac:(lia) ltac:(lia)). lia.
Qed.

Lemma middle_bands_end_short bw bh tw th hx hy :
  tiling_ok bw bh tw th hx hy -> th <= bh ->
  middle_bands_end bh th hy = bh - 2 * hy.
Proof.
  intros (_ & _ & _ & _ & _ & (Hhy & Hhye & Hhyb)) Hle.
  unfold middle_bands_end. apply count_end_empty; lia.
Qed.

Lemma band_cols_both bw tw hx j :
  band_cols bw tw hx true true j <-> written_cols bw tw hx j.
Proof. unfold band_cols, written_cols. tauto. Qed.

Lemma band_cols_sides bw tw hx j :
  band_cols bw tw hx false true j <-> side_cols bw tw hx j.
Proof. unfold band_cols. split; [intros [[_ ?]|[? _]]; done|intros ?; left; done]. Qed.

Lemma band_cols_inner bw tw hx j :
  band_cols bw tw hx true false j <-> inner_cols bw tw hx j.
Proof. unfold band_cols. split; [intros [[? _]|[_ ?]]; done|intros ?; right; done]. Qed.

Lemma band_cols_in_columns bw bh tw th hx hy inner sides j :
  tiling_ok bw bh tw th hx hy -> band_cols bw tw hx inner sides j -> 0 <= j < tw / 2.
Proof.
  intros Hok.
  destruct (tiling_cols _ _ _ _ _ _ Hok) as (c0 & c1 & c2 & Hc & Hin & Hsd & _).
  unfold band_cols. rewrite Hin, Hsd. lia.
Qed.

Section KernelFacts.
Context {R : Type} {SR : Scalar R}.
Implicit Types (k : kernel (R:=R)) (n : quadrants R) (D : Z -> Z -> Prop).

Lemma kernel_sizes_ok_generation k :
  kernel_sizes_ok k ->
  forall s, planes_len (generation k s) ((tile_height k / 2) * (tile_width k / 2)).
Proof. intros (_ & H0 & H1) s. by destruct s. Qed.

(** One band, under the conditions on the kernel. *)
Lemma band_spec k fuel n0 log0 D t read_y read_height write_offset write_height
    top bottom inner sides :
  let W := tile_width k / 2 in
  let H := tile_height k / 2 in
  kernel_sizes_ok k ->
  band_ok (block_height k) (tile_height k) read_y read_height write_offset write_height
          top bottom ->
  (Z.to_nat (tile_width k) < fuel)%nat ->
  planes_len n0 (H * W) ->
  region_in_columns W D ->
  regions_disjoint D
    (band_region (block_width k) (tile_width k) (halo_x k)
       read_y write_offset write_height inner sides) ->
  progress n0 log0 W (kernel_step k) D t ->
  exists t',
    band k fuel read_y read_height write_offset write_height inner sides t = Done t'
    /\ progress n0 log0 W (kernel_step k)
         (region_union D
            (band_region (block_width k) (tile_width k) (halo_x k)
               read_y write_offset write_height inner sides)) t'.
Proof.
  intros W H Hok Hband Hfuel Hn0 HD Hdis Hp.
  pose proof (kernel_sizes_ok_generation k Hok (sense k)) as Hcur.
  destruct Hok as (Hsz & _). unfold band.
  destruct (Z.le_gt_cases (tile_width k) (block_width k)) as [Hn|Hw].
  - by eapply process_band_narrow.
  - by eapply process_band_wide.
Qed.

(** The loop over the middle bands: in [run_kernel_on_halo] for their first
    and last blocks, in [run_kernel] for the blocks in between. *)
Lemma middle_bands_spec k fuel n0 log0 D t inner sides :
  let W := tile_width k / 2 in
  let H := tile_height k / 2 in
  let cols := band_cols (block_width k) (tile_width k) (halo_x k) inner sides in
  let r0 := (block_height k - halo_y k) / 2 in
  let r1 := (middle_bands_end (block_height k) (tile_height k) (halo_y k) + halo_y k) / 2 in
  kernel_sizes_ok k -> block_height k <= tile_height k ->
  (Z.to_nat (tile_width k + tile_height k) < fuel)%nat ->
  planes_len n0 (H * W) ->
  region_in_columns W D ->
  regions_disjoint D (rows_region r0 r1 cols) ->
  progress n0 log0 W (kernel_step k) D t ->
  exists t',
    loop_size_t fuel (usub (block_height k) (2 * halo_y k))
      (usub (tile_height k) (block_height k)) (usub (block_height k) (2 * halo_y k))
      (fun block_start =>
         band k fuel block_start (block_height k) (halo_y k)
           (usub (block_height k) (2 * halo_y k)) inner sides) t
    = Done (middle_bands_end (block_height k) (tile_height k) (halo_y k), t')
    /\ progress n0 log0 W (kernel_step k) (region_union D (rows_region r0 r1 cols)) t'.
Proof.
  intros W H cols r0 r1 Hok Hle Hfuel Hn0 HD Hdis Hp.
  pose proof Hok as (Hsz & _).
  pose proof (tiling_rows _ _ _ _ _ _ Hsz Hle) as (Hce & Hce1 & Hce2).
  pose proof Hsz as ((Htw & Htwe & Htwb) & (Hth & Hthe & Hthb) & (Hbwe & Hbwb)
                     & (Hbhe & Hbhb) & (Hhx & Hhxe & Hhxb) & (Hhy & Hhye & Hhyb)).
  rewrite (usub_small (block_height k) (2 * halo_y k)),
    (usub_small (tile_height k) (block_height k)) by (unfold SIZE_MAX1; lia).
  rewrite loop_size_t_count_up;
    [|lia|lia|unfold SIZE_MAX1; lia
     |apply Nat.le_lt_trans with (Z.to_nat (tile_height k - block_height k));
        [apply count_up_iterations_le; lia|lia]].
  match goal with
  | |- context [foldM ?f (count_up ?lo ?hi ?st) ?s0] =>
      destruct (foldM_count_up f lo hi st
                  (fun c s =>
                     progress n0 log0 W (kernel_step k)
                       (region_union D
                          (rows_region r0 ((c + halo_y k) / 2) cols)) s) s0)
        as (t' & Ef & Hp')
  end.
  - lia.
  - eapply progress_ext; [|exact Hp].
    intros i j. unfold region_union, rows_region, r0. split; [by left|].
    intros [?|?]; [done|lia].
  - intros c s Hc Hm Hpc.
    destruct (middle_block_fits (block_height k) (tile_height k) (halo_y k) c
                ltac:(lia) Hbhe Hc Hm) as [Hcev _].
    pose proof (count_end_next (block_height k - 2 * halo_y k)
                  (tile_height k - block_height k) (block_height k - 2 * halo_y k) c
                  ltac:(lia) Hc Hm) as Hnext.
    fold (middle_bands_end (block_height k) (tile_height k) (halo_y k)) in Hnext.
    destruct (band_spec k fuel n0 log0
                (region_union D (rows_region r0 ((c + halo_y k) / 2) cols)) s
                c (block_height k) (halo_y k) (block_height k - 2 * halo_y k)
                false false inner sides) as (s' & Es & Hs').
    + exact Hok.
    + unfold band_ok. cbn [edge]. split_and!; try assumption; try lia; intros; lia.
    + lia.
    + exact Hn0.
    + intros i j [Hi|[_ Hj]]; [by eapply HD|]. by eapply band_cols_in_columns.
    + intros i j [Hi|[Hi Hj]] [Hi' Hj'].
      * apply (Hdis i j Hi). split; [|exact Hj']. unfold r0, r1. lia.
      * lia.
    + exact Hpc.
    + exists s'. split; [exact Es|]. eapply progress_ext; [|exact Hs'].
      intros i j. unfold region_union, rows_region, band_region. fold cols.
      unfold r0. split.
      * intros [[?|[? ?]]|[? ?]]; [by left|right; split; [lia|done]
                                  |right; split; [lia|done]].
      * intros [?|[? ?]]; [left; by left|].
        destruct (Z.lt_ge_cases i ((c + halo_y k) / 2));
          [left; right; split; [lia|done]|right; split; [lia|done]].
  - rewrite Ef. cbn [mbind outcome_bind]. exists t'. split; [done|]. exact Hp'.
Qed.

(** [run_kernel_on_halo] computes every cell that the blocks write but
    those of the middle blocks of the middle bands, from the current
    generation into the other one. *)
Lemma run_kernel_on_halo_spec k fuel :
  let W := tile_width k / 2 in
  let H := tile_height k / 2 in
  kernel_sizes_ok k ->
  (Z.to_nat (tile_width k + tile_height k) < fuel)%nat ->
  exists t',
    run_kernel_on_halo fuel k = Done (set_generation k (negb (sense k)) t')
    /\ progress (generation k (negb (sense k))) (written k) W (kernel_step k)
         (halo_region (block_width k) (block_height k) (tile_width k) (tile_height k)
            (halo_x k) (halo_y k)) t'.
Proof.
  intros W H Hok Hfuel.
  pose proof Hok as (Hsz & _).
  pose proof (kernel_sizes_ok_generation k Hok (negb (sense k))) as Hn0.
  destruct (tiling_cols _ _ _ _ _ _ Hsz) as (c0 & c1 & c2 & Hc & Hin & Hsd & _).
  pose proof Hsz as ((Htw & Htwe & Htwb) & (Hth & Hthe & Hthb) & (Hbwe & Hbwb)
                     & (Hbhe & Hbhb) & (Hhx & Hhxe & Hhxb) & (Hhy & Hhye & Hhyb)).
  set (n0 := generation k (negb (sense k))) in *.
  pose proof (progress_start n0 (written k) W (kernel_step k)) as Hp0.
  assert (region_in_columns W (fun _ _ => False)) as HD0 by (intros i j []).
  unfold run_kernel_on_halo. cbv zeta. fold n0.
  destruct (Z.leb_spec (tile_height k) (block_height k)) as [Hshort|Htall].
  - (* One full band *)
    pose proof (middle_bands_end_short _ _ _ _ _ _ Hsz Hshort) as Hce.
    destruct (band_spec k fuel n0 (written k) (fun _ _ => False) (n0, written k)
                0 (tile_height k) 0 (tile_height k) true true true true)
      as (t' & Et & Ht').
    + exact Hok.
    + unfold band_ok. cbn [edge]. split_and!; try assumption; try lia; intros; lia.
    + lia.
    + exact Hn0.
    + exact HD0.
    + intros i j [].
    + exact Hp0.
    + rewrite Et. cbn [mbind outcome_bind]. exists t'. split; [done|].
      eapply progress_ext; [|exact Ht'].
      intros i j. unfold region_union, band_region, halo_region, step_region,
        middle_region, rows_region. rewrite band_cols_both, Hce.
      unfold written_cols. rewrite Hin, Hsd. lia.
  - (* Sides, first band, last band *)
    pose proof (tiling_rows _ _ _ _ _ _ Hsz ltac:(lia)) as (Hce & Hce1 & Hce2).
    destruct (middle_bands_spec k fuel n0 (written k) (fun _ _ => False) (n0, written k)
                false true) as (t1 & E1 & Hp1).
    { exact Hok. } { lia. } { exact Hfuel. } { exact Hn0. } { exact HD0. }
    { intros i j []. } { exact Hp0. }
    rewrite E1. cbn [mbind outcome_bind].
    rewrite (usub_small (block_height k) (halo_y k)) by (unfold SIZE_MAX1; lia).
    match type of Hp1 with
    | progress _ _ _ _ ?D1 _ =>
        destruct (band_spec k fuel n0 (written k) D1 t1
                    0 (block_height k) 0 (block_height k - halo_y k)
                    true false true true Hok) as (t2 & E2 & Hp2); [| | | | |exact Hp1|]
    end; [| |exact Hn0| | |].
    + unfold band_ok. cbn [edge]. split_and!; try assumption; try lia; intros; lia.
    + lia.
    + intros i j [[]|[_ Hj]]. by eapply band_cols_in_columns.
    + intros i j [[]|[Hi Hj]] [Hi' Hj']. lia.
    + rewrite E2. cbn [mbind outcome_bind].
      set (ce := middle_bands_end (block_height k) (tile_height k) (halo_y k)) in *.
      rewrite (usub_small (tile_height k) ce) by (unfold SIZE_MAX1; lia).
      rewrite (usub_small (tile_height k - ce) (halo_y k)) by (unfold SIZE_MAX1; lia).
      match type of Hp2 with
      | progress _ _ _ _ ?D2 _ =>
          destruct (band_spec k fuel n0 (written k) D2 t2
                      ce (tile_height k - ce) (halo_y k)
                      (tile_height k - ce - halo_y k)
                      false true true true Hok) as (t3 & E3 & Hp3); [| | | | |exact Hp2|]
      end; [| |exact Hn0| | |].
      * unfold band_ok. cbn [edge]. split_and!; try assumption; try lia; intros; lia.
      * lia.
      * intros i j [[[]|[_ Hj]]|[_ Hj]]; by eapply band_cols_in_columns.
      * intros i j [[[]|[Hi Hj]]|[Hi Hj]] [Hi' Hj']; lia.
      * rewrite E3. cbn [mbind outcome_bind]. exists t3. split; [done|].
        eapply progress_ext; [|exact Hp3].
        intros i j. unfold region_union, band_region, halo_region, step_region,
          middle_region, rows_region.
        rewrite ?band_cols_both, ?band_cols_sides. unfold written_cols.
        rewrite ?Hin, ?Hsd. fold ce. clearbody ce. lia.
Qed.

(** [run_kernel] computes the cells of the middle blocks of the middle
    bands, and toggles the flag. *)
Lemma run_kernel_spec k fuel n0 log0 D :
  let W := tile_width k / 2 in
  let H := tile_height k / 2 in
  let middle := middle_region (block_width k) (block_height k) (tile_width k)
                  (tile_height k) (halo_x k) (halo_y k) in
  kernel_sizes_ok k -> block_height k <= tile_height k ->
  (Z.to_nat (tile_width k + tile_height k) < fuel)%nat ->
  planes_len n0 (H * W) ->
  region_in_columns W D -> regions_disjoint D middle ->
  progress n0 log0 W (kernel_step k) D (generation k (negb (sense k)), written k) ->
  exists t',
    run_kernel fuel k
    = Done (set_sense (set_generation k (negb (sense k)) t') (negb (sense k)))
    /\ progress n0 log0 W (kernel_step k) (region_union D middle) t'.
Proof.
  intros W H middle Hok Hle Hfuel Hn0 HD Hdis Hp.
  unfold run_kernel. cbv zeta.
  destruct (middle_bands_spec k fuel n0 log0 D
              (generation k (negb (sense k)), written k) true false Hok Hle Hfuel Hn0 HD)
    as (t' & E & Hp').
  - intros i j Hi [Hi' Hj]. apply (Hdis i j Hi). split; [exact Hi'|].
    by apply band_cols_inner.
  - exact Hp.
  - rewrite E. cbn [mbind outcome_bind]. rewrite sense_set_generation.
    exists t'. split; [done|].
    eapply progress_ext; [|exact Hp'].
    intros i j. unfold region_union, middle, middle_region, rows_region.
    by rewrite band_cols_inner.
Qed.

(** The cells of [run_kernel_on_halo] and of [run_kernel] are disjoint and
    together they are the cells that the blocks write. *)
Lemma halo_middle_partition bw bh tw th hx hy :
  tiling_ok bw bh tw th hx hy -> bh <= th ->
  regions_disjoint (halo_region bw bh tw th hx hy) (middle_region bw bh tw th hx hy)
  /\ (forall i j,
        region_union (halo_region bw bh tw th hx hy) (middle_region bw bh tw th hx hy) i j
        <-> step_region bw tw th hx i j).
Proof.
  intros Hsz Hle.
  pose proof (tiling_rows _ _ _ _ _ _ Hsz Hle) as (Hce & Hce1 & Hce2).
  destruct (tiling_cols _ _ _ _ _ _ Hsz) as (c0 & c1 & c2 & Hc & Hin & Hsd & _).
  pose proof Hsz as ((Htw & Htwe & Htwb) & (Hth & Hthe & Hthb) & (Hbwe & Hbwb)
                     & (Hbhe & Hbhb) & (Hhx & Hhxe & Hhxb) & (Hhy & Hhye & Hhyb)).
  split.
  - intros i j [_ Hn] Hm. by apply Hn.
  - intros i j. unfold region_union, halo_region, step_region, middle_region,
      rows_region, written_cols.
    rewrite Hin, Hsd. revert Hce Hce1 Hce2. generalize (middle_bands_end bh th hy).
    intros ce Hce Hce1 Hce2. lia.
Qed.

(** Without a gap the blocks write the whole plane; with a gap, the whole
    plane but the columns of the gap, of which there are as many as a
    middle block writes. *)
Lemma step_region_cases bw bh tw th hx hy :
  tiling_ok bw bh tw th hx hy ->
  (forall i j, step_region bw tw th hx i j
               <-> in_rect (th / 2) (tw / 2) i j /\ ~ gap_cols bw tw hx j)
  /\ (no_gap bw tw hx -> forall j, ~ gap_cols bw tw hx j).
Proof.
  intros Hsz.
  destruct (tiling_cols _ _ _ _ _ _ Hsz) as (c0 & c1 & c2 & Hc & Hin & Hsd & Hgp & Hng).
  split.
  - intros i j. unfold step_region, rows_region, written_cols, in_rect.
    rewrite Hin, Hsd, Hgp. lia.
  - intros Hn j. rewrite Hgp. specialize (Hng Hn). lia.
Qed.

Lemma written_once_app log log' W D D' :
  regions_disjoint D D' ->
  written_once log W D -> written_once log' W D' ->
  written_once (log ++ log') W (region_union D D').
Proof.
  intros Hdis H1 H2 i j Hj. rewrite writes_at_app.
  destruct (H1 i j Hj) as [Hy1 Hn1], (H2 i j Hj) as [Hy2 Hn2]. split.
  - intros [Hi|Hi].
    + rewrite Hy1, Hn2; [done| |done]. intros Hi'. by apply (Hdis i j).
    + rewrite Hn1, Hy2; [done|done|]. intros Hi'. by apply (Hdis i j).
  - intros Hn. rewrite Hn1, Hn2; [done| |]; intros Hi; apply Hn; [by right|by left].
Qed.

(** *** The two calls together *)

Lemma quadrants_ext (q q' : quadrants R) :
  (forall c, real_plane c q = real_plane c q' /\ imag_plane c q = imag_plane c q') ->
  q = q'.
Proof.
  intros H. destruct q as [x00 x01 x10 x11 y00 y01 y10 y11].
  destruct q' as [x00' x01' x10' x11' y00' y01' y10' y11'].
  destruct (H Q00) as [? ?], (H Q01) as [? ?], (H Q10) as [? ?], (H Q11) as [? ?].
  cbn [real_plane imag_plane r00 r01 r10 r11 i00 i01 i10 i11] in *. congruence.
Qed.

(** Planes filled everywhere with the step of the tile are the planes that
    [full_step_sse] computes from the whole tile. *)
Lemma planes_filled_full_step (a b : R) H W cur n0 n' :
  1 <= H < SIZE_MAX1 -> 1 <= W < SIZE_MAX1 ->
  planes_len cur (H * W) -> planes_len n0 (H * W) ->
  planes_filled n0 n' W (in_rect H W) (grid_step a b H W (grid_of cur W)) ->
  full_step_sse W W H a b cur = Done n'.
Proof.
  intros HH HW Hcur Hn0 Hfill.
  destruct (full_step_sse_grid a b W W H cur) as (q' & E & L & C); try lia.
  { intros c. destruct (Hcur c) as [-> ->]. lia. }
  rewrite E. f_equal. symmetry. apply quadrants_ext. intros c.
  destruct (Hfill c) as [(L1 & V1 & _) (L2 & V2 & _)].
  destruct (L c) as [L3 L4], (Hcur c) as [L5 L6], (Hn0 c) as [L7 L8].
  assert (forall x, 0 <= x < H * W -> in_rect H W (x / W) (x mod W)) as Hin.
  { intros x Hx. unfold in_rect. split; [|apply Z.mod_pos_bound; lia].
    split; [apply Z.div_pos; lia|apply Z.div_lt_upper_bound; lia]. }
  assert (forall x, x = x / W * W + x mod W) as Hx.
  { intros x. rewrite Z.mul_comm. apply Z.div_mod. lia. }
  split; apply get_ext; try congruence.
  - intros x Hlt. rewrite (Hx x). rewrite V1 by (apply Hin; lia).
    rewrite <- (C c (x / W) (x mod W)) by (apply Z.mod_pos_bound; lia). done.
  - intros x Hlt. rewrite (Hx x). rewrite V2 by (apply Hin; lia).
    rewrite <- (C c (x / W) (x mod W)) by (apply Z.mod_pos_bound; lia). done.
Qed.

Lemma written_once_everywhere log H W idx :
  0 < W -> written_once log W (in_rect H W) -> 0 <= idx < H * W ->
  writes_at log idx = 1.
Proof.
  intros HW Hw Hidx.
  assert (idx = idx / W * W + idx mod W) as ->
    by (rewrite Z.mul_comm; apply Z.div_mod; lia).
  pose proof (Z.mod_pos_bound idx W HW) as Hj.
  apply Hw; [done|]. split; [|done].
  split; [apply Z.div_pos; lia|apply Z.div_lt_upper_bound; lia].
Qed.

Lemma kernel_sizes_ok_set_generation k s t :
  kernel_sizes_ok k ->
  planes_len t.1 ((tile_height k / 2) * (tile_width k / 2)) ->
  kernel_sizes_ok (set_generation k s t).
Proof.
  intros (Hsz & H0 & H1) Ht. destruct t as [q log]. cbn [fst] in Ht.
  unfold kernel_sizes_ok.
  by destruct s; cbn [set_generation tile_width tile_height block_width block_height
                      halo_x halo_y gen0 gen1].
Qed.

Lemma kernel_step_set_generation k t :
  kernel_step (set_generation k (negb (sense k)) t) = kernel_step k.
Proof.
  unfold kernel_step. rewrite sense_set_generation, generation_set_generation_other.
  by destruct t.
Qed.

Lemma next_set_generation k t :
  let k' := set_generation k (negb (sense k)) t in
  (generation k' (negb (sense k')), written k') = t.
Proof.
  cbv zeta. rewrite sense_set_generation. destruct t as [q log].
  by rewrite generation_set_generation_same.
Qed.

Lemma set_generation_twice k s t t' :
  set_generation (set_generation k s t) s t' = set_generation k s t'.
Proof. destruct t, t'. by destruct s. Qed.

(** One iteration: [run_kernel_on_halo], then [run_kernel].  Both read the
    generation that is current at the start; the first writes the cells of
    [halo_region] and the second those of [middle_region], each once; and
    the cells written hold one full step of the whole tile. *)
Lemma iteration_progress k fuel :
  let W := tile_width k / 2 in
  let H := tile_height k / 2 in
  let halo := halo_region (block_width k) (block_height k) (tile_width k)
                (tile_height k) (halo_x k) (halo_y k) in
  let middle := middle_region (block_width k) (block_height k) (tile_width k)
                  (tile_height k) (halo_x k) (halo_y k) in
  let all := step_region (block_width k) (tile_width k) (tile_height k) (halo_x k) in
  kernel_sizes_ok k -> block_height k <= tile_height k ->
  (Z.to_nat (tile_width k + tile_height k) < fuel)%nat ->
  exists n_h next new_h new_i,
    run_kernel_on_halo fuel k
    = Done (set_generation k (negb (sense k)) (n_h, written k ++ new_h))
    /\ run_kernel fuel (set_generation k (negb (sense k)) (n_h, written k ++ new_h))
       = Done (set_sense
                 (set_generation k (negb (sense k))
                    (next, (written k ++ new_h) ++ new_i))
                 (negb (sense k)))
    /\ planes_filled (generation k (negb (sense k))) next W all (kernel_step k)
    /\ written_once new_h W halo /\ written_once new_i W middle
    /\ written_once (new_h ++ new_i) W all.
Proof.
  intros W H halo middle all Hok Hle Hfuel.
  pose proof Hok as (Hsz & _).
  pose proof Hsz as ((Htw & Htwe & Htwb) & (Hth & Hthe & Hthb) & _).
  destruct (halo_middle_partition _ _ _ _ _ _ Hsz Hle) as [Hdis Hall].
  fold halo middle all in Hdis, Hall.
  destruct (run_kernel_on_halo_spec k fuel Hok Hfuel) as ([n_h log_h] & Eh & Hph).
  fold W halo in Hph.
  pose proof Hph as [Hfill_h (new_h & Hlog_h & Hnew_h)]. cbn [fst snd] in Hfill_h, Hlog_h.
  subst log_h.
  set (kh := set_generation k (negb (sense k)) (n_h, written k ++ new_h)) in *.
  pose proof (kernel_sizes_ok_generation k Hok (negb (sense k))) as Hn0. fold W H in Hn0.
  assert (planes_len n_h (H * W)) as Hnh.
  { eapply planes_len_same_lengths; [|exact Hn0].
    exact (progress_lengths _ _ _ _ _ _ Hph). }
  assert (kernel_sizes_ok kh) as Hokh
    by (apply kernel_sizes_ok_set_generation; [exact Hok|exact Hnh]).
  assert (tile_width kh = tile_width k /\ tile_height kh = tile_height k
          /\ block_width kh = block_width k /\ block_height kh = block_height k
          /\ halo_x kh = halo_x k /\ halo_y kh = halo_y k /\ sense kh = sense k)
    as (F1 & F2 & F3 & F4 & F5 & F6 & F7) by (split_and!; reflexivity).
  assert (kernel_step kh = kernel_step k) as F8
    by apply kernel_step_set_generation.
  assert ((generation kh (negb (sense kh)), written kh) = (n_h, written k ++ new_h))
    as F9 by apply next_set_generation.
  destruct (run_kernel_spec kh fuel n_h (written k ++ new_h) (fun _ _ => False))
    as ([next log] & Er & Hpr).
  - exact Hokh.
  - rewrite F2, F4. exact Hle.
  - rewrite F1, F2. exact Hfuel.
  - rewrite F1, F2. exact Hnh.
  - intros i j [].
  - intros i j [].
  - rewrite F8, F9. apply progress_start.
  - rewrite F1, F2, F3, F4, F5, F6, F8 in Hpr. rewrite F7 in Er.
    replace (set_generation kh (negb (sense k)) (next, log))
      with (set_generation k (negb (sense k)) (next, log)) in Er
      by (symmetry; apply set_generation_twice).
    fold W middle in Hpr.
    destruct Hpr as [Hfill_i (new_i & Hlog_i & Hnew_i)].
    cbn [fst snd] in Hfill_i, Hlog_i. subst log.
    assert (written_once new_i W middle) as Hnew_i'.
    { eapply written_once_ext; [|exact Hnew_i]. intros i j. unfold region_union. tauto. }
    assert (region_in_columns W all) as Hca.
    { intros i j [_ Hj]. eapply band_cols_in_columns; [exact Hsz|].
      apply band_cols_both. exact Hj. }
    assert (region_in_columns W halo) as Hch.
    { intros i j [Hj _]. exact (Hca i j Hj). }
    assert (region_in_columns W middle) as Hcm.
    { intros i j Hm. apply (Hca i j). apply Hall. by right. }
    exists n_h, next, new_h, new_i.
    split; [exact Eh|]. split; [exact Er|].
    split; [|split; [exact Hnew_h|split; [exact Hnew_i'|]]].
    + eapply planes_filled_ext; [exact Hall|].
      apply planes_filled_then with (n' := n_h).
      * unfold W. lia.
      * exact Hch.
      * exact Hcm.
      * exact Hdis.
      * exact Hfill_h.
      * eapply planes_filled_ext; [|exact Hfill_i].
        intros i j. unfold region_union. tauto.
    + eapply written_once_ext; [exact Hall|].
      apply written_once_app; [exact Hdis|exact Hnew_h|exact Hnew_i'].
Qed.

End KernelFacts.

(** ** Conservation of the total probability *)

(** A loop whose body keeps a quantity keeps it. *)
Lemma foldM_keeps {A S V : Type} (f : A -> S -> outcome S) (I : S -> V)
    (l : list A) (s s' : S) :
  (forall x s1 s2, f x s1 = Done s2 -> I s2 = I s1) ->
  foldM f l s = Done s' -> I s' = I s.
Proof.
  intros Hf. revert s. induction l as [|x l IH]; intros s E; cbn [foldM] in E.
  - by injection E as <-.
  - destruct (f x s) as [s1| |] eqn:E1; cbn [mbind outcome_bind] in E; [|done|done].
    rewrite (IH _ E). by eapply Hf.
Qed.

Section Norm.
Context {R : Type} {SR : Scalar R}.
Add Ring scalar_ring_norm : (@scalar_ring R SR).
Implicit Types (l : list R) (p : planes4 R) (q : quadrants R).

Lemma sum_squares_cons x l : sum_squares (x :: l) = x [*] x [+] sum_squares l.
Proof. done. Qed.

Lemma sum_squares_insert l (n : nat) v :
  (n < length l)%nat ->
  sum_squares (<[n := v]> l) = sum_squares l [+] v [*] v [-] nth n l s0 [*] nth n l s0.
Proof.
  revert n. induction l as [|x l IH]; intros n Hn; [cbn in Hn; lia|].
  destruct n as [|n]; cbn [length] in Hn.
  - change (<[0%nat := v]> (x :: l)) with (v :: l). cbn [nth].
    rewrite !sum_squares_cons. ring.
  - change (<[S n := v]> (x :: l)) with (x :: <[n := v]> l). cbn [nth].
    rewrite !sum_squares_cons, IH by lia. ring.
Qed.

Lemma wr_norm l k v l' :
  wr l k v = Done l' ->
  sum_squares l' = sum_squares l [+] v [*] v [-] get l k [*] get l k.
Proof.
  unfold wr, in_buf, set, get, len. intros E.
  destruct (Z.leb_spec 0 k) as [H0|]; [|done].
  destruct (Z.ltb_spec k (Z.of_nat (length l))) as [H1|]; [|done].
  cbn [andb] in E. injection E as <-.
  destruct (Z.ltb_spec k 0) as [|_]; [lia|].
  apply sum_squares_insert. lia.
Qed.

Lemma rd_get l k x : rd l k = Done x -> x = get l k.
Proof. unfold rd. destruct (in_buf l k); [|done]. by injection 1. Qed.

Lemma wr_get_other l k v l' k' :
  wr l k v = Done l' -> k <> k' -> get l' k' = get l k'.
Proof.
  unfold wr. destruct (in_buf l k); [|done]. injection 1 as <-. intros Hne.
  by apply get_set_ne.
Qed.

(** The elementary rotation keeps the sum of the four squares. *)
Lemma rotation_norm a b x1 y1 x2 y2 :
  unit_coefficients a b ->
  let '(n1, m1, n2, m2) := rotation a b x1 y1 x2 y2 in
  n1 [*] n1 [+] m1 [*] m1 [+] n2 [*] n2 [+] m2 [*] m2
  = x1 [*] x1 [+] y1 [*] y1 [+] x2 [*] x2 [+] y2 [*] y2.
Proof.
  unfold unit_coefficients, rotation. intros H.
  transitivity ((a [*] a [+] b [*] b)
                [*] (x1 [*] x1 [+] y1 [*] y1 [+] x2 [*] x2 [+] y2 [*] y2)); [ring|].
  rewrite H. ring.
Qed.

Lemma rotate_ss_norm a b k1 k2 p p' :
  unit_coefficients a b ->
  rotate_ss a b k1 k2 p = Done p' ->
  planes4_probability p' = planes4_probability p.
Proof.
  intros Hu. destruct p as [[[r1 i1] r2] i2]. unfold rotate_ss. intros E.
  destruct (rd r1 k1) as [x1| |] eqn:E1; cbn [mbind outcome_bind] in E; [|done|done].
  destruct (rd i1 k1) as [y1| |] eqn:E2; cbn [mbind outcome_bind] in E; [|done|done].
  destruct (rd r2 k2) as [x2| |] eqn:E3; cbn [mbind outcome_bind] in E; [|done|done].
  destruct (rd i2 k2) as [y2| |] eqn:E4; cbn [mbind outcome_bind] in E; [|done|done].
  cbv zeta in E.
  destruct (wr r1 k1 _) as [r1'| |] eqn:W1; cbn [mbind outcome_bind] in E; [|done|done].
  destruct (wr i1 k1 _) as [i1'| |] eqn:W2; cbn [mbind outcome_bind] in E; [|done|done].
  destruct (wr r2 k2 _) as [r2'| |] eqn:W3; cbn [mbind outcome_bind] in E; [|done|done].
  destruct (wr i2 k2 _) as [i2'| |] eqn:W4; cbn [mbind outcome_bind] in E; [|done|done].
  injection E as <-. cbn [planes4_probability].
  rewrite (wr_norm _ _ _ _ W1), (wr_norm _ _ _ _ W2), (wr_norm _ _ _ _ W3),
    (wr_norm _ _ _ _ W4).
  rewrite <- (rd_get _ _ _ E1), <- (rd_get _ _ _ E2), <- (rd_get _ _ _ E3),
    <- (rd_get _ _ _ E4).
  pose proof (rotation_norm a b x1 y1 x2 y2 Hu) as Hn. unfold rotation in Hn.
  match goal with
  | |- ?A [+] ?n1 [-] ?o1 [+] (?B [+] ?n2 [-] ?o2) [+] (?C [+] ?n3 [-] ?o3)
       [+] (?D [+] ?n4 [-] ?o4) = _ =>
      transitivity (A [+] B [+] C [+] D [+] (n1 [+] n2 [+] n3 [+] n4)
                    [-] (o1 [+] o2 [+] o3 [+] o4)); [ring|]
  end.
  rewrite Hn. ring.
Qed.

Lemma _mm_load_ps_get l k x0 x1 x2 x3 :
  _mm_load_ps l k = Done (x0, x1, x2, x3) ->
  x0 = get l k /\ x1 = get l (k + 1) /\ x2 = get l (k + 2) /\ x3 = get l (k + 3).
Proof.
  unfold _mm_load_ps. intros E.
  destruct (rd l k) as [z0| |] eqn:E0; cbn [mbind outcome_bind] in E; [|done|done].
  destruct (rd l (k + 1)) as [z1| |] eqn:E1; cbn [mbind outcome_bind] in E; [|done|done].
  destruct (rd l (k + 2)) as [z2| |] eqn:E2; cbn [mbind outcome_bind] in E; [|done|done].
  destruct (rd l (k + 3)) as [z3| |] eqn:E3; cbn [mbind outcome_bind] in E; [|done|done].
  injection E as <- <- <- <-.
  by rewrite (rd_get _ _ _ E0), (rd_get _ _ _ E1), (rd_get _ _ _ E2), (rd_get _ _ _ E3).
Qed.

Lemma _mm_store_ps_norm l k v0 v1 v2 v3 l' :
  _mm_store_ps l k (v0, v1, v2, v3) = Done l' ->
  sum_squares l'
  = sum_squares l
    [+] (v0 [*] v0 [+] v1 [*] v1 [+] v2 [*] v2 [+] v3 [*] v3)
    [-] (get l k [*] get l k [+] get l (k + 1) [*] get l (k + 1)
         [+] get l (k + 2) [*] get l (k + 2) [+] get l (k + 3) [*] get l (k + 3)).
Proof.
  unfold _mm_store_ps. intros E.
  destruct (wr l k v0) as [l0| |] eqn:W0; cbn [mbind outcome_bind] in E; [|done|done].
  destruct (wr l0 (k + 1) v1) as [l1| |] eqn:W1; cbn [mbind outcome_bind] in E; [|done|done].
  destruct (wr l1 (k + 2) v2) as [l2| |] eqn:W2; cbn [mbind outcome_bind] in E; [|done|done].
  rewrite (wr_norm _ _ _ _ E), (wr_norm _ _ _ _ W2), (wr_norm _ _ _ _ W1),
    (wr_norm _ _ _ _ W0).
  rewrite (wr_get_other _ _ _ _ (k + 3) W2), (wr_get_other _ _ _ _ (k + 3) W1),
    (wr_get_other _ _ _ _ (k + 3) W0) by lia.
  rewrite (wr_get_other _ _ _ _ (k + 2) W1), (wr_get_other _ _ _ _ (k + 2) W0) by lia.
  rewrite (wr_get_other _ _ _ _ (k + 1) W0) by lia.
  ring.
Qed.

Lemma lane_norm a b x1 y1 x2 y2 :
  unit_coefficients a b ->
  (x1 [*] a [-] y2 [*] b) [*] (x1 [*] a [-] y2 [*] b)
  [+] (y1 [*] a [+] x2 [*] b) [*] (y1 [*] a [+] x2 [*] b)
  [+] (x2 [*] a [-] y1 [*] b) [*] (x2 [*] a [-] y1 [*] b)
  [+] (y2 [*] a [+] x1 [*] b) [*] (y2 [*] a [+] x1 [*] b)
  [-] (x1 [*] x1 [+] y1 [*] y1 [+] x2 [*] x2 [+] y2 [*] y2) = s0.
Proof.
  unfold unit_coefficients. intros H.
  transitivity ((a [*] a [+] b [*] b [-] s1)
                [*] (x1 [*] x1 [+] y1 [*] y1 [+] x2 [*] x2 [+] y2 [*] y2)); [ring|].
  rewrite H. ring.
Qed.

Lemma rotate_ps_norm a b k1 k2 p p' :
  unit_coefficients a b ->
  rotate_ps a b k1 k2 p = Done p' ->
  planes4_probability p' = planes4_probability p.
Proof.
  intros Hu. destruct p as [[[r1 i1] r2] i2]. unfold rotate_ps. intros E.
  destruct (_mm_load_ps r1 k1) as [[[[x10 x11] x12] x13]| |] eqn:E1;
    cbn [mbind outcome_bind] in E; [|done|done].
  destruct (_mm_load_ps i1 k1) as [[[[y10 y11] y12] y13]| |] eqn:E2;
    cbn [mbind outcome_bind] in E; [|done|done].
  destruct (_mm_load_ps r2 k2) as [[[[x20 x21] x22] x23]| |] eqn:E3;
    cbn [mbind outcome_bind] in E; [|done|done].
  destruct (_mm_load_ps i2 k2) as [[[[y20 y21] y22] y23]| |] eqn:E4;
    cbn [mbind outcome_bind] in E; [|done|done].
  cbv zeta in E. cbn [_mm_load1_ps _mm_mul_ps _mm_add_ps _mm_sub_ps] in E.
  destruct (_mm_store_ps r1 k1 _) as [r1'| |] eqn:W1;
    cbn [mbind outcome_bind] in E; [|done|done].
  destruct (_mm_store_ps i1 k1 _) as [i1'| |] eqn:W2;
    cbn [mbind outcome_bind] in E; [|done|done].
  destruct (_mm_store_ps r2 k2 _) as [r2'| |] eqn:W3;
    cbn [mbind outcome_bind] in E; [|done|done].
  destruct (_mm_store_ps i2 k2 _) as [i2'| |] eqn:W4;
    cbn [mbind outcome_bind] in E; [|done|done].
  injection E as <-. cbn [planes4_probability].
  rewrite (_mm_store_ps_norm _ _ _ _ _ _ _ W1), (_mm_store_ps_norm _ _ _ _ _ _ _ W2),
    (_mm_store_ps_norm _ _ _ _ _ _ _ W3), (_mm_store_ps_norm _ _ _ _ _ _ _ W4).
  destruct (_mm_load_ps_get _ _ _ _ _ _ E1) as (<- & <- & <- & <-).
  destruct (_mm_load_ps_get _ _ _ _ _ _ E2) as (<- & <- & <- & <-).
  destruct (_mm_load_ps_get _ _ _ _ _ _ E3) as (<- & <- & <- & <-).
  destruct (_mm_load_ps_get _ _ _ _ _ _ E4) as (<- & <- & <- & <-).
  pose proof (lane_norm a b x10 y10 x20 y20 Hu) as L0.
  pose proof (lane_norm a b x11 y11 x21 y21 Hu) as L1.
  pose proof (lane_norm a b x12 y12 x22 y22 Hu) as L2.
  pose proof (lane_norm a b x13 y13 x23 y23 Hu) as L3.
  match type of L0 with ?e0 = _ =>
  match type of L1 with ?e1 = _ =>
  match type of L2 with ?e2 = _ =>
  match type of L3 with ?e3 = _ =>
  match goal with |- _ = ?t =>
    transitivity (t [+] e0 [+] e1 [+] e2 [+] e3); [ring|rewrite L0, L1, L2, L3; ring]
  end end end end end.
Qed.

Lemma rotate_row_norm a b idx1 idx2 vb rb p p' :
  unit_coefficients a b ->
  rotate_row a b idx1 idx2 vb rb p = Done p' ->
  planes4_probability p' = planes4_probability p.
Proof.
  intros Hu. unfold rotate_row. intros E.
  destruct (foldM _ (count_up 0 vb 4) p) as [p1| |] eqn:E1;
    cbn [mbind outcome_bind] in E; [|done|done].
  rewrite (foldM_keeps _ planes4_probability _ _ _ (fun j s1 s2 => rotate_ss_norm a b _ _ s1 s2 Hu) E).
  exact (foldM_keeps _ planes4_probability _ _ _
           (fun j s1 s2 => rotate_ps_norm a b _ _ s1 s2 Hu) E1).
Qed.

Lemma update_shifty_sse_norm o stride width height a b p p' :
  unit_coefficients a b ->
  update_shifty_sse o stride width height a b p = Done p' ->
  planes4_probability p' = planes4_probability p.
Proof.
  intros Hu. unfold update_shifty_sse. apply foldM_keeps.
  intros i s1 s2. by apply rotate_row_norm.
Qed.

Lemma update_shiftx_sse_norm o stride width height a b p p' :
  unit_coefficients a b ->
  update_shiftx_sse o stride width height a b p = Done p' ->
  planes4_probability p' = planes4_probability p.
Proof.
  intros Hu. unfold update_shiftx_sse. apply foldM_keeps.
  intros i s1 s2. by apply rotate_row_norm.
Qed.

Lemma run_pass_norm stride width height a b c q q' :
  unit_coefficients a b -> pc_first c <> pc_second c ->
  run_pass stride width height a b c q = Done q' ->
  total_probability q' = total_probability q.
Proof.
  intros Hu Hne. unfold run_pass. cbv zeta. intros E.
  assert (exists r1 i1 r2 i2,
             q' = set_planes (pc_second c) r2 i2 (set_planes (pc_first c) r1 i1 q)
             /\ planes4_probability (r1, i1, r2, i2)
                = planes4_probability
                    (real_plane (pc_first c) q, imag_plane (pc_first c) q,
                     real_plane (pc_second c) q, imag_plane (pc_second c) q))
    as (r1 & i1 & r2 & i2 & -> & Hp).
  { destruct (pc_axis c).
    - destruct (update_shifty_sse _ _ _ _ _ _ _) as [[[[r1 i1] r2] i2]| |] eqn:E1;
        cbn [mbind outcome_bind] in E; [|done|done].
      injection E as <-. exists r1, i1, r2, i2. split; [done|].
      by eapply update_shifty_sse_norm.
    - destruct (update_shiftx_sse _ _ _ _ _ _ _) as [[[[r1 i1] r2] i2]| |] eqn:E1;
        cbn [mbind outcome_bind] in E; [|done|done].
      injection E as <-. exists r1, i1, r2, i2. split; [done|].
      by eapply update_shiftx_sse_norm. }
  clear E. cbn [planes4_probability] in Hp.
  destruct q as [x00 x01 x10 x11 y00 y01 y10 y11].
  destruct c as [ax o f s]. cbn [pc_first pc_second] in Hne, Hp |- *.
  destruct f, s; try done;
    cbn [set_planes real_plane imag_plane total_probability
         r00 r01 r10 r11 i00 i01 i10 i11] in Hp |- *.
  all: unfold total_probability; cbn [r00 r01 r10 r11 i00 i01 i10 i11].
  all: match type of Hp with ?l = ?r =>
         match goal with |- ?g = ?t =>
           transitivity (t [+] l [-] r); [ring|rewrite Hp; ring]
         end end.
Qed.

(** [full_step_sse] keeps the total probability. *)
Lemma full_step_sse_norm stride width height a b q q' :
  unit_coefficients a b ->
  full_step_sse stride width height a b q = Done q' ->
  total_probability q' = total_probability q.
Proof.
  intros Hu. rewrite full_step_sse_calls.
  pose proof full_step_calls_well_formed as Hl. revert q.
  induction Hl as [|c l [Hc _] Hl IH]; intros q E; cbn [foldM] in E.
  - by injection E as <-.
  - destruct (run_pass stride width height a b c q) as [q1| |] eqn:E1;
      cbn [mbind outcome_bind] in E; [|done|done].
    rewrite (IH _ E). by eapply run_pass_norm.
Qed.

End Norm.

(** ** Reversal of the full step *)

Section Reversal.
Context {R : Type} {SR : Scalar R}.
Implicit Types (q : quadrants R) (c : pass_call) (p : planes4 R).

Lemma set_planes_back (c1 c2 : quadrant) q x1 y1 x2 y2 :
  c1 <> c2 ->
  set_planes c2 (real_plane c2 q) (imag_plane c2 q)
    (set_planes c1 (real_plane c1 q) (imag_plane c1 q)
       (set_planes c2 x2 y2 (set_planes c1 x1 y1 q))) = q.
Proof. intros H. destruct q. by destruct c1, c2. Qed.

Lemma planes_of_set_planes (c1 c2 : quadrant) q x1 y1 x2 y2 :
  c1 <> c2 ->
  let q' := set_planes c2 x2 y2 (set_planes c1 x1 y1 q) in
  (real_plane c1 q', imag_plane c1 q', real_plane c2 q', imag_plane c2 q')
  = (x1, y1, x2, y2).
Proof. intros H. destruct q. by destruct c1, c2. Qed.

Lemma same_lengths_set_planes (c1 c2 : quadrant) q x1 y1 x2 y2 :
  c1 <> c2 ->
  len x1 = len (real_plane c1 q) -> len y1 = len (imag_plane c1 q) ->
  len x2 = len (real_plane c2 q) -> len y2 = len (imag_plane c2 q) ->
  same_lengths q (set_planes c2 x2 y2 (set_planes c1 x1 y1 q)).
Proof.
  intros H L1 L2 L3 L4 u. destruct q as [x00 x01 x10 x11 y00 y01 y10 y11].
  destruct c1, c2; try done; destruct u;
    cbn [set_planes real_plane imag_plane r00 r01 r10 r11 i00 i01 i10 i11] in *; done.
Qed.

(** A call of a pass with [(a, b)] followed by the same call with
    [(a, -b)] gives back the planes. *)
Lemma run_pass_inverse a b c stride width height q :
  unit_coefficients a b ->
  well_formed_call c -> 1 <= height < SIZE_MAX1 -> 1 <= width <= stride ->
  width < SIZE_MAX1 -> planes_hold q (height * stride) ->
  exists q', run_pass stride width height a b c q = Done q'
             /\ run_pass stride width height a (sopp b) c q' = Done q
             /\ same_lengths q q'.
Proof.
  intros Hab [Hfs Ho] Hh Hw Hw2 Hq. unfold run_pass. cbv zeta.
  set (p := (real_plane (pc_first c) q, imag_plane (pc_first c) q,
             real_plane (pc_second c) q, imag_plane (pc_second c) q)).
  assert (planes_fit stride height p) as Hfit.
  { unfold p, planes_fit. destruct (Hq (pc_first c)), (Hq (pc_second c)). lia. }
  destruct (pc_axis c).
  - destruct (update_shifty_sse_spec a b (pc_offset c) stride width height p)
      as ([[[r1 i1] r2] i2] & E' & H'); [lia|lia|lia|apply paired_y_in_bounds; [lia|lia|done]|].
    destruct (update_shifty_sse_spec a (sopp b) (pc_offset c) stride width height
                (r1, i1, r2, i2))
      as (p'' & E'' & H''); [lia|lia|lia| |].
    { apply paired_y_in_bounds; [lia|lia|]. by eapply planes_fit_rotated. }
    assert (p'' = p) as ->.
    { eapply rotated_inverse; [exact Hab| |exact H'|exact H''].
      eapply pairing_decided_ext; [apply paired_y_at|]. apply paired_at_decided; lia. }
    exists (set_planes (pc_second c) r2 i2 (set_planes (pc_first c) r1 i1 q)).
    rewrite E'. split; [done|].
    rewrite (planes_of_set_planes (pc_first c) (pc_second c) q r1 i1 r2 i2 Hfs).
    rewrite E''. unfold p. cbn [mbind outcome_bind].
    split; [by rewrite set_planes_back|].
    destruct H' as ((L1 & L2 & L3 & L4) & _). by apply same_lengths_set_planes.
  - destruct (update_shiftx_sse_spec a b (pc_offset c) stride width height p)
      as ([[[r1 i1] r2] i2] & E' & H');
      [lia|lia|lia|lia|apply paired_x_in_bounds; [lia|lia|done]|].
    destruct (update_shiftx_sse_spec a (sopp b) (pc_offset c) stride width height
                (r1, i1, r2, i2))
      as (p'' & E'' & H''); [lia|lia|lia|lia| |].
    { apply paired_x_in_bounds; [lia|lia|]. by eapply planes_fit_rotated. }
    assert (p'' = p) as ->.
    { eapply rotated_inverse; [exact Hab| |exact H'|exact H''].
      eapply pairing_decided_ext; [apply paired_x_at|]. apply paired_at_decided; lia. }
    exists (set_planes (pc_second c) r2 i2 (set_planes (pc_first c) r1 i1 q)).
    rewrite E'. split; [done|].
    rewrite (planes_of_set_planes (pc_first c) (pc_second c) q r1 i1 r2 i2 Hfs).
    rewrite E''. unfold p. cbn [mbind outcome_bind].
    split; [by rewrite set_planes_back|].
    destruct H' as ((L1 & L2 & L3 & L4) & _). by apply same_lengths_set_planes.
Qed.

(** A sequence of calls with [(a, b)] is undone by the same calls in the
    opposite order with [(a, -b)]. *)
Lemma run_passes_inverse a b l stride width height q :
  unit_coefficients a b ->
  Forall well_formed_call l -> 1 <= height < SIZE_MAX1 -> 1 <= width <= stride ->
  width < SIZE_MAX1 -> planes_hold q (height * stride) ->
  exists q', foldM (run_pass stride width height a b) l q = Done q'
             /\ foldM (run_pass stride width height a (sopp b)) (rev l) q' = Done q
             /\ same_lengths q q'.
Proof.
  intros Hab Hl Hh Hw Hw2. revert q.
  induction Hl as [|c l Hc Hl IH]; intros q Hq.
  - exists q. split; [done|]. split; [done|apply same_lengths_refl].
  - destruct (run_pass_inverse a b c stride width height q Hab Hc Hh Hw Hw2 Hq)
      as (q1 & E1 & E1' & L1).
    destruct (IH q1) as (q' & E & E' & L); [by eapply planes_hold_same_lengths|].
    exists q'. cbn [foldM rev]. rewrite E1. cbn [mbind outcome_bind].
    split; [exact E|]. split; [|by eapply same_lengths_trans].
    rewrite foldM_app, E'. cbn [mbind outcome_bind foldM]. by rewrite E1'.
Qed.

Lemma mirror_calls_well_formed :
  Forall well_formed_call (forward_calls ++ rev forward_calls).
Proof.
  unfold forward_calls, substep1, substep2, substep3, substep4. cbn [app rev].
  repeat (apply Forall_cons_2; [split; [discriminate|cbn; lia]|]).
  apply Forall_nil_2.
Qed.

(** The full step with [(a, -b)] undoes the full step with [(a, b)]. *)
Lemma full_step_sse_inverse a b stride width height q :
  unit_coefficients a b ->
  1 <= height < SIZE_MAX1 -> 1 <= width <= stride -> width < SIZE_MAX1 ->
  planes_hold q (height * stride) ->
  exists q', full_step_sse stride width height a b q = Done q'
             /\ full_step_sse stride width height a (sopp b) q' = Done q
             /\ same_lengths q q'.
Proof.
  intros Hab Hh Hw Hw2 Hq. rewrite full_step_sse_mirror.
  destruct (run_passes_inverse a b (forward_calls ++ rev forward_calls)
              stride width height q Hab mirror_calls_well_formed Hh Hw Hw2 Hq)
    as (q' & E & E' & L).
  exists q'. split; [exact E|]. split; [|exact L].
  rewrite full_step_sse_mirror. rewrite rev_app_distr, rev_involutive in E'. exact E'.
Qed.

End Reversal.

(** ** When the constructor returns *)

(** Every iteration of a loop that returns has returned. *)
Lemma foldM_Done_In {A S : Type} (f : A -> S -> outcome S) (l : list A) (s s' : S) x :
  foldM f l s = Done s' -> In x l -> exists s1 s2, f x s1 = Done s2.
Proof.
  revert s. induction l as [|y l IH]; intros s E Hx; [done|].
  cbn [foldM] in E. apply bind_Done_inv in E as (s1 & E1 & E).
  destruct Hx as [->|Hx]; [by exists s, s1|by eapply IH].
Qed.

Lemma count_up_last (n : Z) : 1 <= n -> In (n - 1) (count_up 0 n 1).
Proof.
  intros Hn. unfold count_up. apply in_map_iff. exists (Z.to_nat (n - 1)).
  split; [lia|]. apply in_seq.
  replace ((n - 0 + 1 - 1) / 1) with n by (rewrite Z.div_1_r; lia). lia.
Qed.

Section ConstructorBounds.
Context {R : Type} {SR : Scalar R}.

Lemma rd_Done_in (l : list R) k v : rd l k = Done v -> 0 <= k < len l.
Proof.
  unfold rd, in_buf. destruct (Z.leb_spec 0 k), (Z.ltb_spec k (len l)); cbn [andb];
    intros E; try discriminate E. lia.
Qed.

(** A constructor call that returns has read the last site of the tile
    from both input arrays. *)
Lemma CPUBlockSSEKernel_reads fill (re im : list R) _a _b tw th hx hy k :
  2 <= tw -> 2 <= th ->
  CPUBlockSSEKernel fill re im _a _b tw th hx hy = Done k ->
  tw mod 2 = 0 /\ th mod 2 = 0 /\ tw * th <= len re /\ tw * th <= len im.
Proof.
  intros Htw Hth. unfold CPUBlockSSEKernel. cbv zeta.
  destruct (Z.eqb_spec (tw mod 2) 0) as [Ew|]; cbn [negb]; [|done].
  destruct (Z.eqb_spec (th mod 2) 0) as [Eh|]; cbn [negb]; [|done].
  intros E. apply bind_Done_inv in E as (q0 & E & _).
  destruct (foldM_Done_In _ _ _ _ (th / 2 - 1) E) as (s1 & s2 & Ei);
    [apply count_up_last; lia|].
  cbv beta in Ei. apply bind_Done_inv in Ei as (s3 & _ & Ej).
  destruct (foldM_Done_In _ _ _ _ (tw / 2 - 1) Ej) as (s4 & s5 & Eb);
    [apply count_up_last; lia|].
  cbv beta in Eb. destruct s4 as [x00 x01 x10 x11 y00 y01 y10 y11].
  apply bind_Done_inv in Eb as (v1 & _ & Eb).
  apply bind_Done_inv in Eb as (w1 & _ & Eb).
  apply bind_Done_inv in Eb as (v2 & _ & Eb).
  apply bind_Done_inv in Eb as (w2 & _ & Eb).
  apply bind_Done_inv in Eb as (v3 & Hre & Eb).
  apply bind_Done_inv in Eb as (w3 & _ & Eb).
  apply bind_Done_inv in Eb as (v4 & Him & _).
  apply rd_Done_in in Hre, Him.
  assert ((2 * (th / 2 - 1) + 1) * tw + 2 * (tw / 2 - 1) + 1 = tw * th - 1) as Elast.
  { replace (2 * (th / 2 - 1) + 1) with (th - 1) by lia.
    replace (2 * (tw / 2 - 1) + 1) with (tw - 1) by lia. lia. }
  rewrite Elast in Hre, Him. lia.
Qed.

End ConstructorBounds.

(** ** The tile and its full step *)

Section TileFacts.
Context {R : Type} {SR : Scalar R}.
Implicit Types (k : kernel (R:=R)) (n cur : quadrants R) (D : Z -> Z -> Prop)
  (T : grid R).

Lemma planes_filled_values n n' W D T T' :
  region_in_columns W D -> same_columns W T' T ->
  planes_filled n n' W D T -> planes_filled n n' W D T'.
Proof.
  intros HD HT Hf c. destruct (Hf c) as [(L1 & V1 & U1) (L2 & V2 & U2)].
  split; (split; [done|split; [|done]]); intros i j Hij.
  - rewrite V1 by done. by rewrite (HT c i j (HD i j Hij)).
  - rewrite V2 by done. by rewrite (HT c i j (HD i j Hij)).
Qed.

(** The full step of the whole tile returns. *)
Lemma full_step_reference (a b : R) H W cur :
  1 <= H < SIZE_MAX1 -> 1 <= W < SIZE_MAX1 -> planes_len cur (H * W) ->
  exists q_ref,
    full_step_sse W W H a b cur = Done q_ref
    /\ planes_len q_ref (H * W)
    /\ same_columns W (grid_of q_ref W) (grid_step a b H W (grid_of cur W)).
Proof.
  intros HH HW Hcur.
  destruct (full_step_sse_grid a b W W H cur) as (q' & E & L & C); try lia.
  { intros c. destruct (Hcur c) as [-> ->]. lia. }
  exists q'. split; [done|]. split; [by eapply planes_len_same_lengths|done].
Qed.

Lemma tiling_ok_sizes bw bh tw th hx hy :
  tiling_ok bw bh tw th hx hy ->
  1 <= th / 2 < SIZE_MAX1 /\ 1 <= tw / 2 < SIZE_MAX1.
Proof.
  intros ((Htw & Htwe & Htwb) & (Hth & Hthe & Hthb) & _). unfold SIZE_MAX1. lia.
Qed.

(** One band of blocks, started from any planes [n]: the cells of the band
    receive the full step of the whole tile, each once. *)
Lemma process_band_spec a b x fuel cur n log bw bh tw th hx hy
    read_y read_height write_offset write_height top bottom inner sides :
  let W := tw / 2 in
  let H := th / 2 in
  let band := band_region bw tw hx read_y write_offset write_height inner sides in
  tiling_ok bw bh tw th hx hy ->
  band_ok bh th read_y read_height write_offset write_height top bottom ->
  (Z.to_nat tw < fuel)%nat ->
  planes_len cur (H * W) -> planes_len n (H * W) ->
  exists q_ref n' new,
    full_step_sse W W H a b cur = Done q_ref
    /\ process_band_sse x fuel read_y read_height write_offset write_height
         bw bh tw hx a b cur (n, log) inner sides = Done (n', log ++ new)
    /\ planes_filled n n' W band (grid_of q_ref W)
    /\ written_once new W band.
Proof.
  intros W H band Hok Hband Hfuel Hcur Hn.
  destruct (tiling_ok_sizes _ _ _ _ _ _ Hok) as [HH HW].
  destruct (full_step_reference a b H W cur HH HW Hcur) as (q_ref & E & _ & C).
  assert (exists t',
             process_band_sse x fuel read_y read_height write_offset write_height
               bw bh tw hx a b cur (n, log) inner sides = Done t'
             /\ progress n log W (grid_step a b H W (grid_of cur W))
                  (region_union (fun _ _ => False) band) t') as ([n' log'] & Eb & Hp).
  { destruct (Z.le_gt_cases tw bw) as [Hn'|Hw].
    - apply (process_band_narrow a b x fuel cur n log (fun _ _ => False) (n, log)
               bw bh tw th hx hy read_y read_height write_offset write_height
               top bottom inner sides Hok Hband Hn' Hcur Hn);
        [intros i j []|intros i j []|apply progress_start].
    - apply (process_band_wide a b x fuel cur n log (fun _ _ => False) (n, log)
               bw bh tw th hx hy read_y read_height write_offset write_height
               top bottom inner sides Hok Hband Hw Hfuel Hcur Hn);
        [intros i j []|intros i j []|apply progress_start]. }
  destruct Hp as [Hf (new & Hl & Hw)]. cbn [fst snd] in Hf, Hl. subst log'.
  assert (forall i j, region_union (fun _ _ => False) band i j <-> band i j) as Hu
    by (intros i j; unfold region_union; tauto).
  exists q_ref, n', new. split; [exact E|]. split; [exact Eb|]. split.
  - apply planes_filled_values with (T := grid_step a b H W (grid_of cur W)).
    + intros i j [_ Hj]. by eapply band_cols_in_columns.
    + exact C.
    + by eapply planes_filled_ext.
  - by eapply written_once_ext.
Qed.

Lemma kernel_sizes_ok_with_next k next log :
  kernel_sizes_ok k ->
  planes_len next ((tile_height k / 2) * (tile_width k / 2)) ->
  kernel_sizes_ok (set_sense (set_generation k (negb (sense k)) (next, log))
                     (negb (sense k))).
Proof.
  intros (Hsz & H0 & H1) Hn. unfold kernel_sizes_ok.
  by destruct (sense k); cbn [negb set_generation set_sense tile_width tile_height
                               block_width block_height halo_x halo_y gen0 gen1].
Qed.

(** One iteration on a kernel without gap: the planes written are the full
    step of the whole tile, and the kernel is ready for the next
    iteration. *)
Lemma iteration_spec k fuel :
  let W := tile_width k / 2 in
  let H := tile_height k / 2 in
  let halo := halo_region (block_width k) (block_height k) (tile_width k)
                (tile_height k) (halo_x k) (halo_y k) in
  let middle := middle_region (block_width k) (block_height k) (tile_width k)
                  (tile_height k) (halo_x k) (halo_y k) in
  kernel_ok k ->
  (Z.to_nat (tile_width k + tile_height k) < fuel)%nat ->
  exists n_h next new_h new_i,
    run_kernel_on_halo fuel k
    = Done (set_generation k (negb (sense k)) (n_h, written k ++ new_h))
    /\ run_kernel fuel (set_generation k (negb (sense k)) (n_h, written k ++ new_h))
       = Done (set_sense
                 (set_generation k (negb (sense k))
                    (next, (written k ++ new_h) ++ new_i))
                 (negb (sense k)))
    /\ full_step_sse W W H (a k) (b k) (generation k (sense k)) = Done next
    /\ planes_len next (H * W)
    /\ written_once new_h W halo /\ written_once new_i W middle
    /\ (forall idx, 0 <= idx < H * W -> writes_at (new_h ++ new_i) idx = 1).
Proof.
  intros W H halo middle (Hok & Hle & Hgap) Hfuel.
  pose proof Hok as (Hsz & _).
  destruct (tiling_ok_sizes _ _ _ _ _ _ Hsz) as [HH HW]. fold H W in HH, HW.
  destruct (step_region_cases _ _ _ _ _ _ Hsz) as [Hall Hng].
  specialize (Hng Hgap).
  assert (forall i j, step_region (block_width k) (tile_width k) (tile_height k)
                        (halo_x k) i j <-> in_rect H W i j) as Hall'.
  { intros i j. rewrite Hall. split; [tauto|]. intros Hi. split; [done|apply Hng]. }
  destruct (iteration_progress k fuel Hok Hle Hfuel)
    as (n_h & next & new_h & new_i & Eh & Er & Hf & Hwh & Hwi & Hw).
  fold W H halo middle in Hf, Hwh, Hwi, Hw.
  pose proof (kernel_sizes_ok_generation k Hok) as Hgen. fold W H in Hgen.
  assert (full_step_sse W W H (a k) (b k) (generation k (sense k)) = Done next) as Es.
  { apply planes_filled_full_step with (n0 := generation k (negb (sense k)));
      [exact HH|exact HW|apply Hgen|apply Hgen|].
    eapply planes_filled_ext; [exact Hall'|exact Hf]. }
  exists n_h, next, new_h, new_i.
  split; [exact Eh|]. split; [exact Er|]. split; [exact Es|].
  split; [|split; [exact Hwh|split; [exact Hwi|]]].
  - eapply planes_len_same_lengths; [|apply (Hgen (negb (sense k)))].
    by eapply planes_filled_lengths.
  - intros idx Hidx. apply written_once_everywhere with (H := H) (W := W).
    + lia.
    + eapply written_once_ext; [exact Hall'|exact Hw].
    + exact Hidx.
Qed.

Lemma kernel_ok_with_next k next log :
  kernel_ok k ->
  planes_len next ((tile_height k / 2) * (tile_width k / 2)) ->
  kernel_ok (set_sense (set_generation k (negb (sense k)) (next, log))
               (negb (sense k))).
Proof.
  intros (Hok & Hle & Hgap) Hn. split; [by apply kernel_sizes_ok_with_next|].
  by destruct (sense k).
Qed.

(** A tile that is at most one block high: [run_kernel_on_halo] alone
    writes every cell that the blocks write. *)
Lemma short_tile_progress k fuel :
  let W := tile_width k / 2 in
  let H := tile_height k / 2 in
  kernel_sizes_ok k -> tile_height k <= block_height k ->
  (Z.to_nat (tile_width k + tile_height k) < fuel)%nat ->
  exists t',
    run_kernel_on_halo fuel k = Done (set_generation k (negb (sense k)) t')
    /\ progress (generation k (negb (sense k))) (written k) W (kernel_step k)
         (step_region (block_width k) (tile_width k) (tile_height k) (halo_x k)) t'.
Proof.
  intros W H Hok Hshort Hfuel.
  destruct (run_kernel_on_halo_spec k fuel Hok Hfuel) as (t' & E & Hp).
  exists t'. split; [exact E|]. eapply progress_ext; [|exact Hp].
  intros i j. unfold halo_region, middle_region, rows_region.
  destruct Hok as (Hsz & _).
  rewrite (middle_bands_end_short _ _ _ _ _ _ Hsz Hshort).
  destruct Hsz as (_ & _ & _ & (Hbhe & _) & _ & (Hhy & Hhye & Hhyb)).
  split; [tauto|]. intros Hs. split; [exact Hs|]. intros [Hi _]. lia.
Qed.

(** A cell outside the region that was filled keeps its value. *)
Lemma planes_filled_outside n n' W D T c i j :
  region_in_columns W D -> 0 <= j < W -> ~ D i j ->
  planes_filled n n' W D T ->
  get (real_plane c n') (i * W + j) = get (real_plane c n) (i * W + j)
  /\ get (imag_plane c n') (i * W + j) = get (imag_plane c n) (i * W + j).
Proof.
  intros HD Hj Hn Hf. destruct (Hf c) as [(_ & _ & U1) (_ & _ & U2)].
  assert (forall i' j', D i' j' -> i * W + j <> i' * W + j') as Hne.
  { intros i' j' Hd E. destruct (row_major_inj W i j i' j' Hj (HD _ _ Hd) E) as [-> ->].
    by apply Hn. }
  split; [by apply U1|by apply U2].
Qed.

Lemma planes_filled_inside n n' W D T c i j :
  D i j -> planes_filled n n' W D T ->
  get (real_plane c n') (i * W + j) = (T c i j).1
  /\ get (imag_plane c n') (i * W + j) = (T c i j).2.
Proof.
  intros Hd Hf. destruct (Hf c) as [(_ & V1 & _) (_ & V2 & _)].
  split; [by apply V1|by apply V2].
Qed.

End TileFacts.

(** * Further properties of the kernel *)

(** Closed facts about concrete sizes. *)
Ltac closed :=
  repeat split;
  first [ reflexivity | lia | (vm_compute; reflexivity)
        | (vm_compute; let E := fresh in intros E; discriminate E) ].

Lemma example_planes_len (v n : Z) : 0 <= n -> planes_len (constant_planes v n) n.
Proof.
  intros Hn c. unfold constant_planes, len.
  destruct c; cbn [real_plane imag_plane r00 r01 r10 r11 i00 i01 i10 i11];
    rewrite length_replicate; lia.
Qed.

Lemma example_kernel_sizes_ok tw th halo bw bh :
  tiling_ok bw bh tw th halo halo -> kernel_sizes_ok (example_kernel tw th halo bw bh).
Proof.
  intros Hsz. split; [exact Hsz|].
  cbn [example_kernel gen0 gen1 tile_width tile_height].
  destruct Hsz as ((? & ? & ?) & (? & ? & ?) & _).
  split; apply example_planes_len; nia.
Qed.

(** ** The constructor *)

(** X1.  For a tile of at least 2 x 2 sites the constructor returns a
    kernel exactly when both dimensions are even and both input arrays
    hold at least [tile_width * tile_height] values: an odd dimension
    fails an assertion, and a shorter array is read past its end. *)
Theorem constructor_returns_iff {R : Type} {SR : Scalar R}
    (fill : R) (re im : list R) (a b : R) (tw th hx hy : Z) :
  2 <= tw -> 2 <= th ->
  (exists k, CPUBlockSSEKernel fill re im a b tw th hx hy = Done k)
  <-> (tw mod 2 = 0 /\ th mod 2 = 0 /\ tw * th <= len re /\ tw * th <= len im).
Proof.
  intros Htw Hth. split.
  - intros [k E]. by eapply CPUBlockSSEKernel_reads.
  - intros (Ew & Eh & Lr & Li).
    destruct (CPUBlockSSEKernel_spec fill re im a b tw th hx hy) as (q0 & E & _);
      [lia|lia|exact Ew|exact Eh|exact Lr|exact Li|].
    eexists. exact E.
Qed.

Lemma constructor_returns_iff_witness :
  (exists k, CPUBlockSSEKernel 0 [1; 2; 3; 4] [5; 6; 7; 8] 0 1 2 2 4 4 = Done k)
  <-> (2 mod 2 = 0 /\ 2 mod 2 = 0 /\ 2 * 2 <= len [1; 2; 3; 4]
       /\ 2 * 2 <= len [5; 6; 7; 8]).
Proof. apply (constructor_returns_iff (R := Z)); lia. Defined.

(** X2.  The kernel that the constructor returns has the flag at 0, no
    write recorded, the sizes it was given and blocks of 128 x 128 sites;
    every plane of both generations has a quarter of the cells of the
    tile; site [(2 i + di, 2 j + dj)] of the field is cell [(i, j)] of the
    quadrant [(di, dj)] of generation 0; and generation 1 is left as
    allocated. *)
Theorem constructor_splits_field {R : Type} {SR : Scalar R}
    (fill : R) (re im : list R) (a b : R) (tw th hx hy : Z) :
  0 <= tw -> 0 <= th -> tw mod 2 = 0 -> th mod 2 = 0 ->
  tw * th <= len re -> tw * th <= len im ->
  exists k,
    CPUBlockSSEKernel fill re im a b tw th hx hy = Done k
    /\ sense k = false /\ written k = []
    /\ (tile_width k, tile_height k, halo_x k, halo_y k) = (tw, th, hx, hy)
    /\ (block_width k, block_height k) = (BLOCK_WIDTH, BLOCK_HEIGHT)
    /\ planes_len (generation k false) ((th / 2) * (tw / 2))
    /\ quadrants_of_field (generation k false) re im (th / 2) (tw / 2)
    /\ generation k true
       = (let fresh := uninitialized fill ((th / 2) * (tw / 2)) in
          Quadrants fresh fresh fresh fresh fresh fresh fresh fresh).
Proof.
  intros Htw Hth Ew Eh Lr Li.
  destruct (CPUBlockSSEKernel_spec fill re im a b tw th hx hy) as (q0 & E & L & Q);
    [exact Htw|exact Hth|exact Ew|exact Eh|exact Lr|exact Li|].
  eexists. split; [exact E|]. cbn [sense written tile_width tile_height halo_x halo_y
                                   block_width block_height generation gen0 gen1].
  rewrite (quarter_cells tw th Ew Eh).
  split; [reflexivity|]. split; [reflexivity|]. split; [reflexivity|].
  split; [reflexivity|]. split; [exact L|]. split; [exact Q|reflexivity].
Qed.

Lemma constructor_splits_field_witness :
  exists k : kernel (R := Z),
    CPUBlockSSEKernel 0 [1; 2; 3; 4] [5; 6; 7; 8] 0 1 2 2 4 4 = Done k
    /\ sense k = false
    /\ quadrants_of_field (generation k false) [1; 2; 3; 4] [5; 6; 7; 8] 1 1.
Proof.
  destruct (constructor_splits_field (R := Z) 0 [1; 2; 3; 4] [5; 6; 7; 8] 0 1 2 2 4 4)
    as (k & E & Hs & _ & _ & _ & _ & Q & _); [lia|lia|reflexivity|reflexivity| | |].
  - vm_compute. intros H. discriminate H.
  - vm_compute. intros H. discriminate H.
  - exists k. split; [exact E|]. split; [exact Hs|exact Q].
Defined.

(** ** The passes and the full step *)





(** X5.  For coefficients with [a*a + b*b = 1] a full step that returns
    conserves the total probability: the sum of the squares of all cells
    of the eight planes. *)
Theorem full_step_sse_conserves_probability {R : Type} {SR : Scalar R}
    (a b : R) (stride width height : Z) (q q' : quadrants R) :
  unit_coefficients a b ->
  full_step_sse stride width height a b q = Done q' ->
  total_probability q' = total_probability q.
Proof. intros Hu E. exact (full_step_sse_norm stride width height a b q q' Hu E). Qed.

Lemma full_step_sse_conserves_probability_witness :
  exists q', full_step_sse 3 2 2 0 1 (constant_planes 1 6) = Done q'
             /\ total_probability q' = total_probability (constant_planes 1 6).
Proof.
  eexists. split; [vm_compute; reflexivity|].
  apply (full_step_sse_conserves_probability (R := Z) 0 1 3 2 2);
    [reflexivity|vm_compute; reflexivity].
Defined.





(** ** Bands and iterations *)



Lemma example_kernel_ok tw th halo bw bh :
  tiling_ok bw bh tw th halo halo -> bh <= th -> no_gap bw tw halo ->
  kernel_ok (example_kernel tw th halo bw bh).
Proof.
  intros Hsz Hle Hgap. split; [by apply example_kernel_sizes_ok|]. by split.
Qed.











(** * The halo exchange *)

(** The cells of one [MPI_Type_vector] whose stride is the row length of
    the plane: a rectangle of the plane. *)
Lemma vector_cells (count block_length W offset r0 c0 idx : Z) :
  offset = r0 * W + c0 ->
  idx ∈ (r ← seqZ 0 count; c ← seqZ 0 block_length; [offset + r * W + c])
  <-> exists i j, (r0 <= i < r0 + count /\ c0 <= j < c0 + block_length)
                  /\ idx = i * W + j.
Proof.
  intros ->. rewrite list_elem_of_bind. split.
  - intros (r & Hc & Hr). apply list_elem_of_bind in Hc as (c & Hi & Hc).
    apply list_elem_of_singleton in Hi. apply elem_of_seqZ in Hr, Hc.
    exists (r0 + r), (c0 + c). split; lia.
  - intros (i & j & (Hi & Hj) & ->). exists (i - r0).
    split; [|apply elem_of_seqZ; lia].
    apply list_elem_of_bind. exists (j - c0).
    split; [|apply elem_of_seqZ; lia].
    apply list_elem_of_singleton. lia.
Qed.

Lemma half_sub (x y : Z) :
  x mod 2 = 0 -> y mod 2 = 0 -> (x - y) / 2 = x / 2 - y / 2.
Proof. lia. Qed.

Lemma half_rows (x w : Z) :
  x mod 2 = 0 -> w mod 2 = 0 -> x * w / 4 = x / 2 * (w / 2).
Proof. intros Hx Hw. rewrite (quarter_cells x w Hx Hw). lia. Qed.

Section HaloFacts.
Context {R : Type} {SR : Scalar R}.
Implicit Types (k : kernel (R := R)) (c : mpi_call) (t : transfer).

Lemma elem_of_eight call gen offset datatype peer tag0 req0 c :
  c ∈ eight call gen offset datatype peer tag0 req0 ->
  exists p q n,
    (0 <= n < 8 /\ all_planes !! Z.to_nat n = Some (p, q))
    /\ c = call (Transfer gen p q offset 1 datatype peer (tag0 + n) (req0 + n)).
Proof.
  unfold eight. intros H.
  rewrite !elem_of_cons, elem_of_nil in H.
  destruct H as [->|[->|[->|[->|[->|[->|[->|[->|[]]]]]]]]];
    eexists _, _, _; (split; [|reflexivity]); (split; [lia|reflexivity]).
Qed.

(** The plane of a transfer determines its place among the eight calls of
    its group. *)
Lemma all_planes_inj (n n' : Z) (pq : part * quadrant) :
  0 <= n -> 0 <= n' ->
  all_planes !! Z.to_nat n = Some pq -> all_planes !! Z.to_nat n' = Some pq ->
  n = n'.
Proof.
  intros Hn Hn' E E'.
  assert (NoDup all_planes) as Hnd.
  { unfold all_planes. repeat (apply NoDup_cons_2; [rewrite ?elem_of_cons, elem_of_nil; intros H; repeat (destruct H as [H|H]; [discriminate H|]); exact H|]).
    apply NoDup_nil_2. }
  pose proof (NoDup_lookup _ _ _ _ Hnd E E'). lia.
Qed.

(** The calls of [start_halo_exchange], group by group. *)
Lemma start_halo_exchange_calls k c t :
  c ∈ start_halo_exchange k -> transfer_of c = Some t ->
  exists n,
    (0 <= n < 8
     /\ all_planes !! Z.to_nat n = Some (tr_part t, tr_quadrant t))
    /\ (tr_gen t = negb (sense k) /\ tr_count t = 1
        /\ tr_datatype t = verticalBorder)
    /\ ((is_recv c = true /\ tr_peer t = LEFT
         /\ tr_offset t = (inner_start_y k - start_y k) * tile_width k / 4
         /\ tr_tag t = 0 + n /\ tr_request t = 0 + n)
        \/ (is_recv c = true /\ tr_peer t = RIGHT
            /\ tr_offset t = (inner_start_y k - start_y k) * tile_width k / 4
                             + (inner_end_x k - start_x k) / 2
            /\ tr_tag t = 8 + n /\ tr_request t = 8 + n)
        \/ (is_recv c = false /\ tr_peer t = RIGHT
            /\ tr_offset t = (inner_start_y k - start_y k) * tile_width k / 4
                             + (inner_end_x k - halo_x k - start_x k) / 2
            /\ tr_tag t = 0 + n /\ tr_request t = 16 + n)
        \/ (is_recv c = false /\ tr_peer t = LEFT
            /\ tr_offset t = (inner_start_y k - start_y k) * tile_width k / 4
                             + halo_x k / 2
            /\ tr_tag t = 8 + n /\ tr_request t = 24 + n)).
Proof.
  unfold start_halo_exchange. cbv zeta. rewrite !elem_of_app.
  intros [H|[H|[H|H]]] Ht; apply elem_of_eight in H as (p & q & n & Hn & ->);
    injection Ht as <-; exists n; (split; [exact Hn|]);
    (split; [split; [reflexivity|split; reflexivity]|]);
    cbn [is_recv tr_peer tr_offset tr_tag tr_request].
  - left. repeat split.
  - right. left. repeat split.
  - right. right. left. repeat split.
  - right. right. right. repeat split.
Qed.

(** The transfers of [finish_halo_exchange], group by group. *)
Lemma finish_halo_exchange_calls k c t :
  c ∈ finish_halo_exchange k -> transfer_of c = Some t ->
  exists n,
    (0 <= n < 8
     /\ all_planes !! Z.to_nat n = Some (tr_part t, tr_quadrant t))
    /\ (tr_gen t = sense k /\ tr_count t = 1
        /\ tr_datatype t = horizontalBorder)
    /\ ((is_recv c = true /\ tr_peer t = UP
         /\ tr_offset t = 0
         /\ tr_tag t = 0 + n /\ tr_request t = 0 + n)
        \/ (is_recv c = true /\ tr_peer t = DOWN
            /\ tr_offset t = (inner_end_y k - start_y k) * tile_width k / 4
            /\ tr_tag t = 8 + n /\ tr_request t = 8 + n)
        \/ (is_recv c = false /\ tr_peer t = DOWN
            /\ tr_offset t = (inner_end_y k - halo_y k - start_y k)
                             * tile_width k / 4
            /\ tr_tag t = 0 + n /\ tr_request t = 16 + n)
        \/ (is_recv c = false /\ tr_peer t = UP
            /\ tr_offset t = halo_y k * tile_width k / 4
            /\ tr_tag t = 8 + n /\ tr_request t = 24 + n)).
Proof.
  unfold finish_halo_exchange. cbv zeta. rewrite !elem_of_app.
  intros [H|[H|[H|[H|[H|H]]]]] Ht;
    try (apply list_elem_of_singleton in H; subst c; discriminate Ht);
    apply elem_of_eight in H as (p & q & n & Hn & ->);
    injection Ht as <-; exists n; (split; [exact Hn|]);
    (split; [split; [reflexivity|split; reflexivity]|]);
    cbn [is_recv tr_peer tr_offset tr_tag tr_request].
  - left. repeat split.
  - right. left. repeat split.
  - right. right. left. repeat split.
  - right. right. right. repeat split.
Qed.

(** The geometry in half sites, the unit of the planes. *)
Lemma halo_geometry_halves k :
  halo_geometry k ->
  let W := tile_width k / 2 in
  let H := tile_height k / 2 in
  let top := (inner_start_y k - start_y k) / 2 in
  let bottom := (inner_end_y k - start_y k) / 2 in
  let right := (inner_end_x k - start_x k) / 2 in
  let hx := halo_x k / 2 in
  let hy := halo_y k / 2 in
  (0 <= top /\ top <= bottom /\ 0 <= hy /\ hy <= bottom /\ bottom + hy <= H)
  /\ (0 <= hx /\ hx <= right /\ right + hx <= W)
  /\ (Z.quot (inner_end_y k - inner_start_y k) 2 = bottom - top
      /\ (inner_end_x k - halo_x k - start_x k) / 2 = right - hx)
  /\ ((inner_start_y k - start_y k) * tile_width k / 4 = top * W
      /\ (inner_end_y k - start_y k) * tile_width k / 4 = bottom * W
      /\ (inner_end_y k - halo_y k - start_y k) * tile_width k / 4
         = (bottom - hy) * W
      /\ halo_y k * tile_width k / 4 = hy * W).
Proof.
  intros ((Etw & Eth & Ehx & Ehy & Et & Eb & Er) & (Hhx & Hhy) & (Ht & Hb)
          & (Hx1 & Hx2) & (Hy1 & Hy2)).
  cbv zeta.
  split; [lia|]. split; [lia|].
  split.
  - split.
    + rewrite Z.quot_div_nonneg by lia.
      replace (inner_end_y k - inner_start_y k)
        with ((inner_end_y k - start_y k) - (inner_start_y k - start_y k))
        by lia.
      by apply half_sub.
    + replace (inner_end_x k - halo_x k - start_x k)
        with ((inner_end_x k - start_x k) - halo_x k) by lia.
      by apply half_sub.
  - split; [by apply half_rows|]. split; [by apply half_rows|].
    split; [|by apply half_rows].
    replace (inner_end_y k - halo_y k - start_y k)
      with ((inner_end_y k - start_y k) - halo_y k) by lia.
    rewrite half_rows; [|lia|exact Etw].
    by rewrite half_sub.
Qed.

(** Every transfer of the column phase moves one strip of a plane. *)
Lemma start_halo_exchange_strip k c t idx :
  halo_geometry k ->
  c ∈ start_halo_exchange k -> transfer_of c = Some t ->
  idx ∈ transfer_cells k t
  <-> in_strip k (halo_strip k (is_recv c) (tr_peer t)) idx.
Proof.
  intros G Hc Ht.
  destruct (start_halo_exchange_calls k c t Hc Ht)
    as (n & _ & (_ & _ & Ed) & Hcase).
  destruct (halo_geometry_halves k G)
    as (Hrows & Hcols & (Ecount & Esend) & (Etop & _)).
  cbv zeta in Hrows, Hcols, Ecount, Esend, Etop.
  unfold transfer_cells. rewrite Ed. cbn [border_vector]. rewrite Ecount.
  unfold in_strip.
  destruct Hcase as [(Er & Ep & Eo & _)|[(Er & Ep & Eo & _)
                     |[(Er & Ep & Eo & _)|(Er & Ep & Eo & _)]]];
    rewrite Er, Ep, Eo; cbn [halo_strip fst snd].
  - rewrite (vector_cells _ _ _ _ ((inner_start_y k - start_y k) / 2) 0)
      by (rewrite Etop; lia).
    split; intros (i & j & Hij & ->); exists i, j; (split; [lia|reflexivity]).
  - rewrite (vector_cells _ _ _ _ ((inner_start_y k - start_y k) / 2)
               ((inner_end_x k - start_x k) / 2))
      by (rewrite Etop; lia).
    split; intros (i & j & Hij & ->); exists i, j; (split; [lia|reflexivity]).
  - rewrite (vector_cells _ _ _ _ ((inner_start_y k - start_y k) / 2)
               ((inner_end_x k - start_x k) / 2 - halo_x k / 2))
      by (rewrite Etop, Esend; lia).
    split; intros (i & j & Hij & ->); exists i, j; (split; [lia|reflexivity]).
  - rewrite (vector_cells _ _ _ _ ((inner_start_y k - start_y k) / 2)
               (halo_x k / 2))
      by (rewrite Etop; lia).
    split; intros (i & j & Hij & ->); exists i, j; (split; [lia|reflexivity]).
Qed.

(** Every transfer of the row phase moves one strip of a plane. *)
Lemma finish_halo_exchange_strip k c t idx :
  halo_geometry k ->
  c ∈ finish_halo_exchange k -> transfer_of c = Some t ->
  idx ∈ transfer_cells k t
  <-> in_strip k (halo_strip k (is_recv c) (tr_peer t)) idx.
Proof.
  intros G Hc Ht.
  destruct (finish_halo_exchange_calls k c t Hc Ht)
    as (n & _ & (_ & _ & Ed) & Hcase).
  destruct (halo_geometry_halves k G)
    as (Hrows & Hcols & _ & (_ & Ebottom & Esend & Ehalo)).
  cbv zeta in Hrows, Hcols, Ebottom, Esend, Ehalo.
  unfold transfer_cells. rewrite Ed. cbn [border_vector].
  unfold in_strip.
  destruct Hcase as [(Er & Ep & Eo & _)|[(Er & Ep & Eo & _)
                     |[(Er & Ep & Eo & _)|(Er & Ep & Eo & _)]]];
    rewrite Er, Ep, Eo; cbn [halo_strip fst snd].
  - rewrite (vector_cells _ _ _ _ 0 0) by lia.
    split; intros (i & j & Hij & ->); exists i, j; (split; [lia|reflexivity]).
  - rewrite (vector_cells _ _ _ _ ((inner_end_y k - start_y k) / 2) 0)
      by (rewrite Ebottom; lia).
    split; intros (i & j & Hij & ->); exists i, j; (split; [lia|reflexivity]).
  - rewrite (vector_cells _ _ _ _
               ((inner_end_y k - start_y k) / 2 - halo_y k / 2) 0)
      by (rewrite Esend; lia).
    split; intros (i & j & Hij & ->); exists i, j; (split; [lia|reflexivity]).
  - rewrite (vector_cells _ _ _ _ (halo_y k / 2) 0)
      by (rewrite Ehalo; lia).
    split; intros (i & j & Hij & ->); exists i, j; (split; [lia|reflexivity]).
Qed.

(** Every strip lies in the plane. *)
Lemma halo_strip_in_plane k recv peer idx :
  halo_geometry k ->
  in_strip k (halo_strip k recv peer) idx ->
  0 <= idx < (tile_height k / 2) * (tile_width k / 2).
Proof.
  intros G (i & j & Hij & ->).
  destruct (halo_geometry_halves k G) as (Hrows & Hcols & _).
  cbv zeta in Hrows, Hcols.
  apply cell_in_tile;
    destruct peer, recv; cbn [halo_strip fst snd] in Hij; lia.
Qed.

(** The strip a receive fills shares no cell with the strip of a transfer
    of another group of the same phase. *)
Lemma halo_strip_disjoint k peer recv' peer' idx :
  halo_geometry k ->
  2 * halo_x k <= inner_end_x k - start_x k ->
  2 * halo_y k <= inner_end_y k - start_y k ->
  ((peer = LEFT \/ peer = RIGHT) /\ (peer' = LEFT \/ peer' = RIGHT)
   \/ (peer = UP \/ peer = DOWN) /\ (peer' = UP \/ peer' = DOWN)) ->
  (true, peer) <> (recv', peer') ->
  in_strip k (halo_strip k true peer) idx ->
  in_strip k (halo_strip k recv' peer') idx ->
  False.
Proof.
  intros G Hx Hy Hphase Hne (i & j & Hij & ->) (i' & j' & Hij' & E).
  destruct (halo_geometry_halves k G) as (Hrows & Hcols & _).
  cbv zeta in Hrows, Hcols.
  destruct G as ((Etw & Eth & Ehx & Ehy & Et & Eb & Er) & _).
  assert (0 <= j < tile_width k / 2 /\ 0 <= j' < tile_width k / 2) as [Hj Hj'].
  { destruct peer, recv', peer'; cbn [halo_strip fst snd] in Hij, Hij'; lia. }
  destruct (row_major_inj _ _ _ _ _ Hj Hj' E) as [-> ->].
  destruct Hphase as [[[-> | ->] [-> | ->]]|[[-> | ->] [-> | ->]]];
    destruct recv'; try (by destruct Hne);
    cbn [halo_strip fst snd] in Hij, Hij'; lia.
Qed.

Lemma run_kernel_on_halo_sense (fuel : nat) k kh :
  run_kernel_on_halo fuel k = Done kh -> sense kh = sense k.
Proof.
  unfold run_kernel_on_halo. intros H.
  apply bind_Done_inv in H as (t & _ & H). injection H as <-.
  apply sense_set_generation.
Qed.

Lemma run_kernel_sense (fuel : nat) k kr :
  run_kernel fuel k = Done kr -> sense kr = negb (sense k).
Proof.
  unfold run_kernel. intros H.
  apply bind_Done_inv in H as ([c t] & _ & H). injection H as <-.
  cbn [sense set_sense]. by rewrite sense_set_generation.
Qed.

End HaloFacts.

(** X14.  With the geometry of [halo_geometry], every transfer of the two
    exchange phases moves one datatype, and its cells are one rectangular
    strip of its plane: from the left and right neighbours the inner rows of
    the outermost [halo_x / 2] columns are received and the next
    [halo_x / 2] columns towards the inside are sent; from the upper and
    lower neighbours the outermost [halo_y / 2] rows are received and the
    next [halo_y / 2] rows are sent, over the whole width. *)
Theorem halo_transfers_are_strips {R : Type} {SR : Scalar R}
    (k : kernel (R := R)) (c : mpi_call) (t : transfer) (idx : Z) :
  halo_geometry k ->
  c ∈ start_halo_exchange k ++ finish_halo_exchange k ->
  transfer_of c = Some t ->
  tr_count t = 1
  /\ (idx ∈ transfer_cells k t
      <-> in_strip k (halo_strip k (is_recv c) (tr_peer t)) idx).
Proof.
  intros G Hc Ht. apply elem_of_app in Hc as [Hc|Hc].
  - split; [|exact (start_halo_exchange_strip k c t idx G Hc Ht)].
    destruct (start_halo_exchange_calls k c t Hc Ht) as (n & _ & (_ & E & _) & _).
    exact E.
  - split; [|exact (finish_halo_exchange_strip k c t idx G Hc Ht)].
    destruct (finish_halo_exchange_calls k c t Hc Ht) as (n & _ & (_ & E & _) & _).
    exact E.
Qed.

Lemma halo_transfers_are_strips_witness :
  halo_geometry (initialize_MPI (example_kernel 16 12 4 16 12) 0 12 0 4 8)
  /\ (29 ∈ transfer_cells
             (initialize_MPI (example_kernel 16 12 4 16 12) 0 12 0 4 8)
             (Transfer true Re Q00 20 1 verticalBorder RIGHT 0 16)
      <-> in_strip (initialize_MPI (example_kernel 16 12 4 16 12) 0 12 0 4 8)
            ((2, 4), (4, 6)) 29).
Proof.
  split; [closed|].
  refine (proj2 (halo_transfers_are_strips (R := Z)
            (initialize_MPI (example_kernel 16 12 4 16 12) 0 12 0 4 8)
            (MPI_Isend (Transfer true Re Q00 20 1 verticalBorder RIGHT 0 16))
            (Transfer true Re Q00 20 1 verticalBorder RIGHT 0 16) 29 _ _ eq_refl)).
  - closed.
  - apply elem_of_app. left. apply (list_elem_of_lookup_2 _ 16%nat). reflexivity.
Defined.

(** X15.  With the geometry of [halo_geometry], no transfer of the two
    exchange phases reaches outside its plane: every cell it reads or
    writes has an index below [(tile_height / 2) * (tile_width / 2)], the
    number of cells the constructor gives each plane. *)
Theorem halo_transfers_stay_in_planes {R : Type} {SR : Scalar R}
    (k : kernel (R := R)) (c : mpi_call) (t : transfer) (idx : Z) :
  halo_geometry k ->
  c ∈ start_halo_exchange k ++ finish_halo_exchange k ->
  transfer_of c = Some t ->
  idx ∈ transfer_cells k t ->
  0 <= idx < (tile_height k / 2) * (tile_width k / 2).
Proof.
  intros G Hc Ht Hi. apply elem_of_app in Hc as [Hc|Hc].
  - apply (start_halo_exchange_strip k c t idx G Hc Ht) in Hi.
    exact (halo_strip_in_plane k _ _ idx G Hi).
  - apply (finish_halo_exchange_strip k c t idx G Hc Ht) in Hi.
    exact (halo_strip_in_plane k _ _ idx G Hi).
Qed.

Lemma halo_transfers_stay_in_planes_witness :
  halo_geometry (initialize_MPI (example_kernel 16 12 4 16 12) 0 12 0 4 8)
  /\ 47 ∈ transfer_cells
            (initialize_MPI (example_kernel 16 12 4 16 12) 0 12 0 4 8)
            (Transfer false Re Q00 32 1 horizontalBorder DOWN 8 8)
  /\ 0 <= 47 < 12 / 2 * (16 / 2).
Proof.
  assert (47 ∈ transfer_cells
                 (initialize_MPI (example_kernel 16 12 4 16 12) 0 12 0 4 8)
                 (Transfer false Re Q00 32 1 horizontalBorder DOWN 8 8)) as Hi.
  { apply (list_elem_of_lookup_2 _ 15%nat). reflexivity. }
  split; [closed|]. split; [exact Hi|].
  refine (halo_transfers_stay_in_planes (R := Z)
            (initialize_MPI (example_kernel 16 12 4 16 12) 0 12 0 4 8)
            (MPI_Irecv (Transfer false Re Q00 32 1 horizontalBorder DOWN 8 8))
            (Transfer false Re Q00 32 1 horizontalBorder DOWN 8 8) 47 _ _ eq_refl Hi).
  - closed.
  - apply elem_of_app. right. apply (list_elem_of_lookup_2 _ 9%nat). reflexivity.
Defined.

(** X16.  With the geometry of [halo_geometry] and inner columns and rows
    at least two halos wide, a cell that a receive of one phase fills is
    touched by no other transfer of that phase on the same plane: no send
    of the phase reads it and no other receive writes it. *)
Theorem halo_receives_are_exclusive {R : Type} {SR : Scalar R}
    (k : kernel (R := R)) (l : list mpi_call) (c1 c2 : mpi_call)
    (t1 t2 : transfer) (idx : Z) :
  halo_geometry k ->
  2 * halo_x k <= inner_end_x k - start_x k ->
  2 * halo_y k <= inner_end_y k - start_y k ->
  l = start_halo_exchange k \/ l = finish_halo_exchange k ->
  c1 ∈ l -> c2 ∈ l ->
  transfer_of c1 = Some t1 -> transfer_of c2 = Some t2 ->
  is_recv c1 = true ->
  tr_request t1 <> tr_request t2 ->
  (tr_part t1, tr_quadrant t1) = (tr_part t2, tr_quadrant t2) ->
  idx ∈ transfer_cells k t1 -> idx ∉ transfer_cells k t2.
Proof.
  intros G Hx Hy Hl H1 H2 Ht1 Ht2 Hrecv Hreq Hplane Hi1 Hi2.
  destruct Hl as [-> | ->].
  - destruct (start_halo_exchange_calls k c1 t1 H1 Ht1)
      as (n1 & (Hn1 & Hp1) & _ & Hcase1).
    destruct (start_halo_exchange_calls k c2 t2 H2 Ht2)
      as (n2 & (Hn2 & Hp2) & _ & Hcase2).
    apply (start_halo_exchange_strip k c1 t1 idx G H1 Ht1) in Hi1.
    apply (start_halo_exchange_strip k c2 t2 idx G H2 Ht2) in Hi2.
    rewrite <- Hplane in Hp2.
    assert (n1 = n2) as En by (eapply all_planes_inj; [| |exact Hp1|exact Hp2]; lia).
    rewrite Hrecv in Hi1.
    destruct Hcase1 as [(_ & Ep1 & _ & _ & Eq1)|[(_ & Ep1 & _ & _ & Eq1)
                        |[(Er1 & _)|(Er1 & _)]]];
      try (rewrite Hrecv in Er1; discriminate Er1);
      rewrite Ep1 in Hi1;
      destruct Hcase2 as [(Er2 & Ep2 & _ & _ & Eq2)|[(Er2 & Ep2 & _ & _ & Eq2)
                          |[(Er2 & Ep2 & _ & _ & Eq2)|(Er2 & Ep2 & _ & _ & Eq2)]]];
      rewrite Er2, Ep2 in Hi2;
      first [ lia
            | refine (halo_strip_disjoint k _ _ _ idx G Hx Hy _ _ Hi1 Hi2);
              [left; split; auto|intros E; discriminate E] ].
  - destruct (finish_halo_exchange_calls k c1 t1 H1 Ht1)
      as (n1 & (Hn1 & Hp1) & _ & Hcase1).
    destruct (finish_halo_exchange_calls k c2 t2 H2 Ht2)
      as (n2 & (Hn2 & Hp2) & _ & Hcase2).
    apply (finish_halo_exchange_strip k c1 t1 idx G H1 Ht1) in Hi1.
    apply (finish_halo_exchange_strip k c2 t2 idx G H2 Ht2) in Hi2.
    rewrite <- Hplane in Hp2.
    assert (n1 = n2) as En by (eapply all_planes_inj; [| |exact Hp1|exact Hp2]; lia).
    rewrite Hrecv in Hi1.
    destruct Hcase1 as [(_ & Ep1 & _ & _ & Eq1)|[(_ & Ep1 & _ & _ & Eq1)
                        |[(Er1 & _)|(Er1 & _)]]];
      try (rewrite Hrecv in Er1; discriminate Er1);
      rewrite Ep1 in Hi1;
      destruct Hcase2 as [(Er2 & Ep2 & _ & _ & Eq2)|[(Er2 & Ep2 & _ & _ & Eq2)
                          |[(Er2 & Ep2 & _ & _ & Eq2)|(Er2 & Ep2 & _ & _ & Eq2)]]];
      rewrite Er2, Ep2 in Hi2;
      first [ lia
            | refine (halo_strip_disjoint k _ _ _ idx G Hx Hy _ _ Hi1 Hi2);
              [right; split; auto|intros E; discriminate E] ].
Qed.

Lemma halo_receives_are_exclusive_witness :
  17 ∈ transfer_cells
         (initialize_MPI (example_kernel 16 12 4 16 12) 0 12 0 4 8)
         (Transfer true Re Q00 16 1 verticalBorder LEFT 0 0)
  /\ 17 ∉ transfer_cells
            (initialize_MPI (example_kernel 16 12 4 16 12) 0 12 0 4 8)
            (Transfer true Re Q00 18 1 verticalBorder LEFT 8 24).
Proof.
  assert (17 ∈ transfer_cells
                 (initialize_MPI (example_kernel 16 12 4 16 12) 0 12 0 4 8)
                 (Transfer true Re Q00 16 1 verticalBorder LEFT 0 0)) as Hi.
  { apply (list_elem_of_lookup_2 _ 1%nat). reflexivity. }
  split; [exact Hi|].
  refine (halo_receives_are_exclusive (R := Z)
            (initialize_MPI (example_kernel 16 12 4 16 12) 0 12 0 4 8)
            _
            (MPI_Irecv (Transfer true Re Q00 16 1 verticalBorder LEFT 0 0))
            (MPI_Isend (Transfer true Re Q00 18 1 verticalBorder LEFT 8 24))
            _ _ 17 _ _ _ (or_introl eq_refl) _ _ eq_refl eq_refl eq_refl _
            eq_refl Hi).
  - closed.
  - vm_compute. intros E. discriminate E.
  - vm_compute. intros E. discriminate E.
  - apply (list_elem_of_lookup_2 _ 0%nat). reflexivity.
  - apply (list_elem_of_lookup_2 _ 24%nat). reflexivity.
  - intros E. discriminate E.
Defined.



